(** * ZapLinkWeb: recording scheduler, encoder arguments, stream dispatch

    A shallow embedding of the parts of ZapLinkWeb that carry its policy:
    - [src/transcode.c]: [build_ffmpeg_args], the encoder argument builder;
    - [src/web.c]: the [/stream/] and [/transcode/] branches of
      [client_handler], with [get_core_base_url] of [src/discovery.c];
    - [src/scheduler.c]: the slot table [active_recordings], one pass of
      the loop of [scheduler_thread], and [stop_recording], over the
      persistence calls of [src/db.c];
    and, after these, of the code around them:
    - [src/discovery.c]: [resolve_callback];
    - [src/db.c]: [json_escape], [append_str], [query_to_json] and the
      recording queries;
    - [src/config.c]: [config_load] and [config_save];
    - [src/transcode.c]: [send_headers] and [transcode_source];
    - [src/web.c]: [get_mime_type], [serve_file], the playlist and the
      [/api/] routes for status, configuration, recordings and playback;
    - [src/channels.c]: [trim] and [channels_load].

    C [int] and [long long] values are carried as [Z]; no arithmetic in the
    modelled code can overflow except where noted, and where the code
    narrows a wider value to [int] ([atoi], [%d], the cast of a row
    identity) the narrowing is written out.  C strings are [string];
    a [char[n]] buffer written by [strncpy]/[snprintf] keeps at most [n-1]
    characters. *)

From Stdlib Require Import ZArith String Ascii List Lia Bool DecimalString.
From Stdlib Require DecimalPos.
From Stdlib Require Import Sorted Permutation.
From stdpp Require Import base option list strings gmap.

Local Open Scope Z_scope.
Local Open Scope string_scope.

(* ===================================================================== *)
(** ** C string helpers shared by web.c and scheduler.c *)
(* ===================================================================== *)

Module CString.

(** [s + n]: the string that starts [n] characters into [s]. *)
Fixpoint advance (n : nat) (s : string) : string :=
  match n, s with
  | O, _ => s
  | S n', String _ s' => advance n' s'
  | S _, EmptyString => EmptyString
  end.

(** [strncmp(s, lit, strlen(lit)) == 0] *)
Definition starts_with (lit s : string) : bool := String.prefix lit s.

(** The fields of [s] between occurrences of [d], empty fields included. *)
Fixpoint fields (d : ascii) (s : string) : list string :=
  match s with
  | EmptyString => [EmptyString]
  | String c s' =>
      if Ascii.eqb c d then EmptyString :: fields d s'
      else match fields d s' with
           | t :: ts => String c t :: ts
           | [] => [String c EmptyString]
           end
  end.

(** The successive results of [strtok(p, d)], [strtok(NULL, d)], ... until
    it returns [NULL]: the non-empty fields. *)
Definition strtok_all (d : ascii) (s : string) : list string :=
  List.filter (fun t => negb (String.eqb t EmptyString)) (fields d s).

(** [isdigit(c)]; the terminating NUL read at the end of a string is not
    a digit. *)
Definition isdigit (c : ascii) : bool :=
  let n := nat_of_ascii c in (48 <=? n)%nat && (n <=? 57)%nat.

(** The value of the leading run of digits of a string. *)
Fixpoint atoi_digits (acc : Z) (s : string) : Z :=
  match s with
  | String c s' =>
      if isdigit c
      then atoi_digits (10 * acc + (Z.of_nat (nat_of_ascii c) - 48)) s'
      else acc
  | EmptyString => acc
  end.

(** The range of [long], at which [strtol] saturates, and the narrowing
    of a [long] or a 64-bit integer to [int]: the value modulo 2^32, taken
    between -2^31 and 2^31 - 1. *)
Definition to_long (z : Z) : Z := Z.max (- 2 ^ 63) (Z.min z (2 ^ 63 - 1)).

Definition to_int (z : Z) : Z := (z + 2 ^ 31) mod 2 ^ 32 - 2 ^ 31.

(** [atoi] on a string that starts with a digit, stored in an [int].  The
    C standard leaves values outside [int] undefined; the C library computes
    [(int) strtol(s, NULL, 10)], which is what is modelled: 4294967303 reads
    as 7. *)
Definition atoi (s : string) : Z := to_int (to_long (atoi_digits 0 s)).

(** [strncpy(dst, src, n)] into a zeroed [char[n+1]], and [snprintf] into a
    [char[n+1]]: at most [n] characters are kept. *)
Definition truncate (n : nat) (s : string) : string := String.substring 0 n s.

Fixpoint map_chars (f : ascii -> ascii) (s : string) : string :=
  match s with
  | EmptyString => EmptyString
  | String c s' => String (f c) (map_chars f s')
  end.

(** ["%d"] and ["%lld"] *)
Definition decimal (z : Z) : string := NilZero.string_of_int (Z.to_int z).

End CString.

(* ===================================================================== *)
(** ** transcode.h / transcode.c *)
(* ===================================================================== *)

Module Transcode.

(** [typedef enum { ... } TranscodeBackend;] *)
Inductive TranscodeBackend :=
| TRANSCODE_BACKEND_SOFTWARE
| TRANSCODE_BACKEND_QSV
| TRANSCODE_BACKEND_NVENC
| TRANSCODE_BACKEND_VAAPI.

(** [typedef enum { ... } TranscodeCodec;] *)
Inductive TranscodeCodec :=
| TRANSCODE_CODEC_H264
| TRANSCODE_CODEC_HEVC
| TRANSCODE_CODEC_AV1
| TRANSCODE_CODEC_COPY.

#[export] Instance TranscodeBackend_eq_dec : EqDecision TranscodeBackend.
Proof. solve_decision. Defined.

#[export] Instance TranscodeCodec_eq_dec : EqDecision TranscodeCodec.
Proof. solve_decision. Defined.

(** [typedef struct { ... } TranscodeConfig;]  [surround51] is a C [int]
    used as a truth value: every non-zero value enables 5.1 audio. *)
Record TranscodeConfig := mkTranscodeConfig {
  backend : TranscodeBackend;
  codec : TranscodeCodec;
  bitrate_kbps : Z;
  surround51 : Z
}.

(** The three file-level constants. *)
Definition default_audio_bitrate : string := "128k".
Definition default_aac_surround_bitrate : string := "384k".
Definition default_surround_bitrate : string := "384k".

(** The C truth value of an [int]. *)
Definition c_true (n : Z) : bool := negb (n =? 0)%Z.

(** [argv[argc++] = s1; argv[argc++] = s2; ...] *)
Definition push (argv : list string) (more : list string) : list string :=
  argv ++ more.

(** [build_ffmpeg_args]: the statements of the C function in order, each
    [let] being one block of [argv[argc++] = ...] assignments. *)
Definition build_ffmpeg_args (input_url : string) (config : TranscodeConfig)
  : list string :=
  let argv := ["ffmpeg"] in
  (* hardware device initialisation *)
  let argv :=
    if decide (backend config = TRANSCODE_BACKEND_VAAPI) then
      push argv ["-init_hw_device"; "vaapi=gpu:/dev/dri/renderD128";
                 "-filter_hw_device"; "gpu"]
    else if decide (backend config = TRANSCODE_BACKEND_QSV) then
      push argv ["-init_hw_device"; "qsv=hw"; "-filter_hw_device"; "hw"]
    else argv in
  let argv := push argv ["-re"] in
  let argv := push argv ["-i"; input_url] in
  (* video codec, then audio codec *)
  let argv :=
    if decide (codec config = TRANSCODE_CODEC_COPY) then
      push argv ["-c:v"; "copy"]
    else
      let argv :=
        if decide (backend config = TRANSCODE_BACKEND_SOFTWARE) then
          let argv := push argv ["-c:v"] in
          let argv :=
            if decide (codec config = TRANSCODE_CODEC_HEVC) then push argv ["libx265"]
            else if decide (codec config = TRANSCODE_CODEC_AV1) then push argv ["libsvtav1"]
            else push argv ["libx264"] in
          push argv ["-preset"; "fast"; "-crf"; "23"]
        else if decide (backend config = TRANSCODE_BACKEND_NVENC) then
          let argv := push argv ["-c:v"] in
          let argv :=
            if decide (codec config = TRANSCODE_CODEC_HEVC) then push argv ["hevc_nvenc"]
            else if decide (codec config = TRANSCODE_CODEC_AV1) then push argv ["av1_nvenc"]
            else push argv ["h264_nvenc"] in
          push argv ["-preset"; "p4"; "-rc"; "constqp"; "-qp"; "23"]
        else if decide (backend config = TRANSCODE_BACKEND_QSV) then
          let argv :=
            push argv ["-vf";
              "yadif=0:-1:0,format=nv12,hwupload=extra_hw_frames=64,format=qsv"] in
          let argv := push argv ["-c:v"] in
          let argv :=
            if decide (codec config = TRANSCODE_CODEC_HEVC) then push argv ["hevc_qsv"]
            else if decide (codec config = TRANSCODE_CODEC_AV1) then push argv ["av1_qsv"]
            else push argv ["h264_qsv"] in
          push argv ["-global_quality"; "23"]
        else if decide (backend config = TRANSCODE_BACKEND_VAAPI) then
          let argv := push argv ["-vf"; "format=nv12,hwupload"] in
          let argv := push argv ["-c:v"] in
          let argv :=
            if decide (codec config = TRANSCODE_CODEC_HEVC) then push argv ["hevc_vaapi"]
            else if decide (codec config = TRANSCODE_CODEC_AV1) then push argv ["av1_vaapi"]
            else push argv ["h264_vaapi"] in
          push argv ["-qp"; "23"]
        else argv in
      if decide (codec config = TRANSCODE_CODEC_AV1) then
        if c_true (surround51 config) then
          push argv ["-af"; "channelmap=channel_layout=5.1"; "-c:a"; "libopus";
                     "-mapping_family"; "1"; "-b:a"; default_surround_bitrate]
        else
          push argv ["-ac"; "2"; "-c:a"; "libopus"; "-b:a"; default_audio_bitrate]
      else
        if c_true (surround51 config) then
          push argv ["-af"; "channelmap=channel_layout=5.1"; "-c:a"; "aac";
                     "-b:a"; default_aac_surround_bitrate]
        else
          push argv ["-ac"; "2"; "-c:a"; "aac"; "-b:a"; default_audio_bitrate] in
  (* container format *)
  let argv := push argv ["-f"] in
  let argv :=
    if decide (codec config = TRANSCODE_CODEC_AV1) then push argv ["webm"]
    else push argv ["mp4"; "-movflags";
                    "frag_keyframe+empty_moov+default_base_moof"] in
  push argv ["pipe:1"].

(** The relay call as the dispatcher sees it: [transcode_stream] builds the
    input URL ["%s/stream/%s"] in a [char[512]] and hands it to
    [transcode_source]. *)
Definition transcode_stream_input (core_url channel_id : string) : string :=
  CString.truncate 511 (core_url ++ "/stream/" ++ channel_id).

End Transcode.

(* ===================================================================== *)
(** ** discovery.c *)
(* ===================================================================== *)

Module Discovery.

(** [get_core_base_url]: [core_url] is the module's [char[256]] buffer,
    empty until a ZapLinkCore instance has been resolved; [None] is the
    C [NULL]. *)
Definition get_core_base_url (core_url : string) : option string :=
  if (String.length core_url =? 0)%nat then None else Some core_url.

End Discovery.

(* ===================================================================== *)
(** ** web.c: the [/stream/] and [/transcode/] branches of [client_handler] *)
(* ===================================================================== *)

Module Web.
Import Transcode.

(** [AppConfig] of app_config.h. *)
Record AppConfig := mkAppConfig {
  app_backend : string;
  app_codec : string
}.

(** What the handler does to the client socket and to the relay. *)
Inductive Action :=
| send_headers (status_code : Z) (status_text content_type : string)
               (content_length : Z)
| write (data : string)
| transcode_stream (core_url channel_id : string) (config : TranscodeConfig)
| close.

Definition strlen (s : string) : Z := Z.of_nat (String.length s).

(** The double-quote character of the JSON bodies. *)
Definition dq : string := String (ascii_of_nat 34) EmptyString.

(** [{"error":"<msg>"}] *)
Definition json_error (msg : string) : string :=
  "{" ++ dq ++ "error" ++ dq ++ ":" ++ dq ++ msg ++ dq ++ "}".

(** The error reply of both branches: headers with the body's length, then
    the body. *)
Definition reply_error (status_code : Z) (status_text msg : string)
  : list Action :=
  let err := json_error msg in
  [send_headers status_code status_text "application/json" (strlen err);
   write err].

(** [/stream/<chan>]: the process-wide configuration is mapped to a
    [TranscodeConfig]; unknown names fall back to software / h264. *)
Definition config_of_app_config (app_config : AppConfig) : TranscodeConfig :=
  let b :=
    if String.eqb (app_backend app_config) "qsv" then TRANSCODE_BACKEND_QSV
    else if String.eqb (app_backend app_config) "nvenc" then TRANSCODE_BACKEND_NVENC
    else if String.eqb (app_backend app_config) "vaapi" then TRANSCODE_BACKEND_VAAPI
    else TRANSCODE_BACKEND_SOFTWARE in
  let c :=
    if String.eqb (app_codec app_config) "hevc" then TRANSCODE_CODEC_HEVC
    else if String.eqb (app_codec app_config) "av1" then TRANSCODE_CODEC_AV1
    else if String.eqb (app_codec app_config) "copy" then TRANSCODE_CODEC_COPY
    else TRANSCODE_CODEC_H264 in
  {| backend := b; codec := c; bitrate_kbps := 0; surround51 := 0 |}.

Definition handle_stream (core_url : string) (app_config : AppConfig)
    (path : string) : list Action :=
  let chan := CString.advance 8 path in
  match Discovery.get_core_base_url core_url with
  | None =>
      reply_error 503 "Service Unavailable" "ZapLinkCore not discovered yet"
      ++ [close]
  | Some core =>
      [transcode_stream core chan (config_of_app_config app_config); close]
  end.

(** [/transcode/...]: the parser state carried through the [strtok] loop. *)
Record ParseState := mkParseState {
  tc : TranscodeConfig;
  channel_id : string
}.

Definition set_backend (b : TranscodeBackend) (st : ParseState) : ParseState :=
  {| tc := {| backend := b; codec := codec (tc st);
              bitrate_kbps := bitrate_kbps (tc st);
              surround51 := surround51 (tc st) |};
     channel_id := channel_id st |}.

Definition set_codec (c : TranscodeCodec) (st : ParseState) : ParseState :=
  {| tc := {| backend := backend (tc st); codec := c;
              bitrate_kbps := bitrate_kbps (tc st);
              surround51 := surround51 (tc st) |};
     channel_id := channel_id st |}.

Definition set_bitrate (b : Z) (st : ParseState) : ParseState :=
  {| tc := {| backend := backend (tc st); codec := codec (tc st);
              bitrate_kbps := b;
              surround51 := surround51 (tc st) |};
     channel_id := channel_id st |}.

Definition set_surround (s : Z) (st : ParseState) : ParseState :=
  {| tc := {| backend := backend (tc st); codec := codec (tc st);
              bitrate_kbps := bitrate_kbps (tc st);
              surround51 := s |};
     channel_id := channel_id st |}.

Definition set_channel (ch : string) (st : ParseState) : ParseState :=
  {| tc := tc st; channel_id := ch |}.

(** [(token[0] == 'b' || token[0] == 'B') && isdigit(token[1])] *)
Definition is_bitrate_token (token : string) : bool :=
  match token with
  | String c0 (String c1 _) =>
      (Ascii.eqb c0 "b" || Ascii.eqb c0 "B") && CString.isdigit c1
  | _ => false
  end.

(** One pass of the [while (token)] loop body. *)
Definition parse_token (st : ParseState) (token : string) : ParseState :=
  if String.eqb token "software" then set_backend TRANSCODE_BACKEND_SOFTWARE st
  else if String.eqb token "qsv" then set_backend TRANSCODE_BACKEND_QSV st
  else if String.eqb token "nvenc" then set_backend TRANSCODE_BACKEND_NVENC st
  else if String.eqb token "vaapi" then set_backend TRANSCODE_BACKEND_VAAPI st
  else if String.eqb token "h264" then set_codec TRANSCODE_CODEC_H264 st
  else if String.eqb token "hevc" then set_codec TRANSCODE_CODEC_HEVC st
  else if String.eqb token "av1" then set_codec TRANSCODE_CODEC_AV1 st
  else if String.eqb token "copy" then set_codec TRANSCODE_CODEC_COPY st
  else if String.eqb token "ac6" then set_surround 1 st
  else if is_bitrate_token token
       then set_bitrate (CString.atoi (CString.advance 1 token)) st
  else set_channel (CString.truncate 63 token) st.

Definition parse_start : ParseState :=
  {| tc := {| backend := TRANSCODE_BACKEND_SOFTWARE;
              codec := TRANSCODE_CODEC_H264;
              bitrate_kbps := 0; surround51 := 0 |};
     channel_id := EmptyString |}.

Definition parse_transcode_path (path : string) : ParseState :=
  fold_left parse_token (CString.strtok_all "/" (CString.advance 11 path))
            parse_start.

Definition handle_transcode (core_url : string) (path : string)
  : list Action :=
  let st := parse_transcode_path path in
  match Discovery.get_core_base_url core_url with
  | None =>
      reply_error 503 "Service Unavailable" "ZapLinkCore not discovered yet"
      ++ [close]
  | Some core =>
      if (String.length (channel_id st) =? 0)%nat then
        reply_error 400 "Bad Request" "No channel specified" ++ [close]
      else
        [transcode_stream core (channel_id st) (tc st); close]
  end.

(** The [if / else if] chain of [client_handler] on the request path.  The
    [/api/] routes come first and so shadow nothing below; they, the
    playlist and the static files are modelled further down. *)
Inductive Handled :=
| handled (actions : list Action)
| other_route.

Definition client_handler (core_url : string) (app_config : AppConfig)
    (path : string) : Handled :=
  if CString.starts_with "/api/" path then other_route
  else if CString.starts_with "/stream/" path
       then handled (handle_stream core_url app_config path)
  else if CString.starts_with "/transcode/" path
       then handled (handle_transcode core_url path)
  else other_route.

(** The whole reply sent while the backend is unknown. *)
Definition service_unavailable : list Action :=
  [send_headers 503 "Service Unavailable" "application/json" 42;
   write (json_error "ZapLinkCore not discovered yet");
   close].

End Web.

(* ===================================================================== *)
(** ** db.h / db.c: the two tables behind the scheduler *)
(* ===================================================================== *)

Module Db.

(** [typedef struct { ... } Timer;] *)
Record Timer := mkTimer {
  id : Z;
  type : string;
  title : string;
  channel_num : string;
  start_time : Z;
  end_time : Z
}.

(** A row of the [recordings] table, as [db_add_recording_entry] binds it. *)
Record Recording := mkRecording {
  rec_id : Z;
  rec_title : string;
  rec_channel_name : string;
  rec_start_time : Z;
  rec_end_time : Z;
  rec_file_path : string
}.

(** The SQLite file.  [usable] stands for every statement preparing and
    stepping without error; [next_rowid] is the row id the next insert into
    [recordings] receives. *)
Record Database := mkDatabase {
  usable : bool;
  timers : list Timer;
  recordings : list Recording;
  next_rowid : Z
}.

(** [WHERE start_time <= ? AND end_time > ?], both bound to [now]. *)
Definition is_pending (now : Z) (t : Timer) : bool :=
  (start_time t <=? now)%Z && (now <? end_time t)%Z.

(** [db_get_pending_timers]: [None] is the return value 0. *)
Definition db_get_pending_timers (now : Z) (d : Database)
  : option (list Timer) :=
  if usable d then Some (List.filter (is_pending now) (timers d)) else None.

(** [db_add_recording_entry]: the new row id cast to [int], or -1. *)
Definition db_add_recording_entry (title channel_name : string)
    (start end_ : Z) (path : string) (d : Database) : Z * Database :=
  if usable d then
    (CString.to_int (next_rowid d),
     {| usable := usable d;
        timers := timers d;
        recordings := recordings d ++
          [{| rec_id := next_rowid d; rec_title := title;
              rec_channel_name := channel_name; rec_start_time := start;
              rec_end_time := end_; rec_file_path := path |}];
        next_rowid := next_rowid d + 1 |})
  else (-1, d).

(** [db_delete_timer]: [DELETE FROM timers WHERE id = %d]; 1 when the
    statement ran (whether or not a row matched), 0 otherwise. *)
Definition db_delete_timer (i : Z) (d : Database) : Z * Database :=
  if usable d then
    (1,
     {| usable := usable d;
        timers := List.filter (fun t => negb (id t =? i)%Z) (timers d);
        recordings := recordings d;
        next_rowid := next_rowid d |})
  else (0, d).

End Db.

(* ===================================================================== *)
(** ** The child processes of the server, as the kernel tracks them *)
(* ===================================================================== *)

Module Os.

Inductive Signal := SIGTERM.

Inductive WaitOptions := WAIT_BLOCK | WNOHANG.

Inductive Status := Running | Exited.

(** A child: the program it was started to run, and whether it has
    exited (and waits to be reaped). *)
Record Process := mkProcess {
  argv : list string;
  status : Status
}.

(** [children]: the children not yet reaped, by pid.  [fork_results]: what
    the coming calls of [fork] will return, chosen by the kernel. *)
Record System := mkSystem {
  children : gmap Z Process;
  fork_results : list Z
}.

(** [fork()] in the parent: the next pid when it is positive and unused,
    -1 otherwise.  [child_argv] is what the child goes on to [exec]. *)
Definition fork (child_argv : list string) (s : System) : Z * System :=
  match fork_results s with
  | [] => (-1, s)
  | r :: rest =>
      if decide (0 < r ∧ children s !! r = None) then
        (r, {| children :=
                 <[r := {| argv := child_argv; status := Running |}]>
                   (children s);
               fork_results := rest |})
      else (-1, {| children := children s; fork_results := rest |})
  end.

(** [kill(pid, SIGTERM)] on a child: it terminates. *)
Definition kill (pid : Z) (sig : Signal) (s : System) : Z * System :=
  match children s !! pid with
  | Some p =>
      (0, {| children :=
               <[pid := {| argv := argv p; status := Exited |}]> (children s);
             fork_results := fork_results s |})
  | None => (-1, s)
  end.

(** [waitpid(pid, _, options)]: reaps an exited child and returns its pid;
    with [WNOHANG] returns 0 for a child still running; -1 when there is
    no such child.  A blocking wait returns once the child has exited. *)
Definition waitpid (pid : Z) (options : WaitOptions) (s : System)
  : Z * System :=
  match children s !! pid with
  | None => (-1, s)
  | Some p =>
      match options, status p with
      | WNOHANG, Running => (0, s)
      | _, _ => (pid, {| children := delete pid (children s);
                         fork_results := fork_results s |})
      end
  end.

(** A child exits on its own (a crash, or the end of its input). *)
Definition child_exits (pid : Z) (s : System) : System :=
  match children s !! pid with
  | Some p =>
      {| children :=
           <[pid := {| argv := argv p; status := Exited |}]> (children s);
         fork_results := fork_results s |}
  | None => s
  end.

End Os.

(* ===================================================================== *)
(** ** scheduler.c *)
(* ===================================================================== *)

Module Scheduler.

(** [#define POLL_INTERVAL 10], [#define MAX_ACTIVE_RECORDINGS 16], and
    [WEB_PORT] of config.h. *)
Definition POLL_INTERVAL : Z := 10.
Definition MAX_ACTIVE_RECORDINGS : nat := 16.
Definition WEB_PORT : Z := 3000.

(** [typedef struct { ... } ActiveRecording;]  [pid = 0] marks an empty
    slot. *)
Record ActiveRecording := mkActiveRecording {
  timer_id : Z;
  recording_id : Z;
  pid : Z;
  end_time : Z;
  path : string
}.

(** The calls the scheduler makes out of its own module, in order. *)
Inductive Call :=
| call_db_get_pending_timers (now : Z)
| call_mkdir (dir : string)
| call_db_add_recording_entry (title channel_name : string)
                              (start end_ : Z) (file_path : string)
| call_fork (child_argv : list string)
| call_kill (p : Z) (sig : Os.Signal)
| call_waitpid (p : Z) (options : Os.WaitOptions)
| call_db_delete_timer (i : Z).

(** Everything the scheduler reads and writes: its static slot table
    [active_recordings], the database, the process table, and the log of
    calls made so far. *)
Record World := mkWorld {
  active_recordings : list ActiveRecording;
  db : Db.Database;
  os : Os.System;
  calls : list Call
}.

(** Statements run in a state monad over [World]. *)
Definition M (A : Type) : Type := World -> A * World.

Definition ret {A} (a : A) : M A := fun w => (a, w).

Definition bind {A B} (m : M A) (k : A -> M B) : M B :=
  fun w => let r := m w in k (fst r) (snd r).

Declare Scope sched_scope.
Delimit Scope sched_scope with sched.
Notation "x <- m ;; k" := (bind m (fun x => k))
  (at level 100, m at next level, right associativity) : sched_scope.
Notation "m ;; k" := (bind m (fun _ => k))
  (at level 100, right associativity) : sched_scope.
Local Open Scope sched_scope.

Definition called (c : Call) : M unit := fun w =>
  (tt, {| active_recordings := active_recordings w; db := db w;
          os := os w; calls := calls w ++ [c] |}).

Definition on_db {A} (f : Db.Database -> A * Db.Database) : M A := fun w =>
  let r := f (db w) in
  (fst r, {| active_recordings := active_recordings w; db := snd r;
             os := os w; calls := calls w |}).

Definition on_os {A} (f : Os.System -> A * Os.System) : M A := fun w =>
  let r := f (os w) in
  (fst r, {| active_recordings := active_recordings w; db := db w;
             os := snd r; calls := calls w |}).

Definition read_slots : M (list ActiveRecording) := fun w =>
  (active_recordings w, w).

Definition write_slots (f : list ActiveRecording -> list ActiveRecording)
  : M unit := fun w =>
  (tt, {| active_recordings := f (active_recordings w); db := db w;
          os := os w; calls := calls w |}).

(** The outside calls, each logged as it is made. *)
Definition db_get_pending_timers (now : Z) : M (option (list Db.Timer)) :=
  called (call_db_get_pending_timers now);;
  on_db (fun d => (Db.db_get_pending_timers now d, d)).

Definition db_add_recording_entry (title channel_name : string)
    (start end_ : Z) (file_path : string) : M Z :=
  called (call_db_add_recording_entry title channel_name start end_ file_path);;
  on_db (Db.db_add_recording_entry title channel_name start end_ file_path).

Definition db_delete_timer (i : Z) : M Z :=
  called (call_db_delete_timer i);;
  on_db (Db.db_delete_timer i).

Definition mkdir (dir : string) : M unit := called (call_mkdir dir).

Definition fork (child_argv : list string) : M Z :=
  called (call_fork child_argv);;
  on_os (Os.fork child_argv).

Definition kill (p : Z) (sig : Os.Signal) : M Z :=
  called (call_kill p sig);;
  on_os (Os.kill p sig).

Definition waitpid (p : Z) (options : Os.WaitOptions) : M Z :=
  called (call_waitpid p options);;
  on_os (Os.waitpid p options).

(** [for (...) body] over the values the loop variable takes. *)
Fixpoint for_each {A} (l : list A) (body : A -> M unit) : M unit :=
  match l with
  | [] => ret tt
  | x :: l' => body x;; for_each l' body
  end.

(** [active_recordings[j].pid = v;] and [active_recordings[j].timer_id = v;] *)
Definition with_pid (v : Z) (a : ActiveRecording) : ActiveRecording :=
  {| timer_id := timer_id a; recording_id := recording_id a; pid := v;
     end_time := end_time a; path := path a |}.

Definition with_timer_id (v : Z) (a : ActiveRecording) : ActiveRecording :=
  {| timer_id := v; recording_id := recording_id a; pid := pid a;
     end_time := end_time a; path := path a |}.

Definition set_pid (j : nat) (v : Z) : M unit :=
  write_slots (alter (with_pid v) j).

Definition set_timer_id (j : nat) (v : Z) : M unit :=
  write_slots (alter (with_timer_id v) j).

(** The title made safe for a file name: 127 characters at most, with
    ['/'], ['\'] and [' '] replaced by ['_']. *)
Definition sanitize (c : ascii) : ascii :=
  if (Ascii.eqb c "/" || Ascii.eqb c "\" || Ascii.eqb c " ")%bool
  then "_"%char else c.

Definition safe_title (title : string) : string :=
  CString.map_chars sanitize (CString.truncate 127 title).

(** ["recordings/%s-%lld.mp4"] in a [char[256]]. *)
Definition recording_filename (title : string) (now_ms : Z) : string :=
  CString.truncate 255
    ("recordings/" ++ safe_title title ++ "-" ++ CString.decimal now_ms
     ++ ".mp4").

(** ["http://127.0.0.1:%d/stream/%s"] in a [char[128]]. *)
Definition stream_url (channel_num : string) : string :=
  CString.truncate 127
    ("http://127.0.0.1:" ++ CString.decimal WEB_PORT ++ "/stream/"
     ++ channel_num).

(** What the forked child executes. *)
Definition ffmpeg_argv (channel_num filename : string) : list string :=
  ["ffmpeg"; "-i"; stream_url channel_num; "-c"; "copy";
   "-bsf:a"; "aac_adtstoasc"; "-movflags"; "faststart"; "-y"; filename].

(** The first loop of the pass body: does any slot carry this timer id?
    The test reads [timer_id] only, whatever the slot's [pid]. *)
Definition has_timer (timer : Z) (slots : list ActiveRecording) : bool :=
  existsb (fun a => (timer_id a =? timer)%Z) slots.

Definition is_active (timer : Z) : M bool :=
  slots <- read_slots;;
  ret (has_timer timer slots).

(** The parent's branch after [fork]: the first slot with [pid == 0]
    receives the recording; with no such slot nothing is stored. *)
Definition populate (t : Db.Timer) (rec_id p : Z) (filename : string)
  : M unit :=
  slots <- read_slots;;
  match list_find (fun a => pid a = 0) slots with
  | Some (j, _) =>
      write_slots
        (<[j := {| timer_id := Db.id t; recording_id := rec_id; pid := p;
                   end_time := Db.end_time t;
                   path := CString.truncate 255 filename |}]>)
  | None => ret tt
  end.

(** The body of [for (int i = 0; i < count; i++)] for [timers[i]]. *)
Definition start_recording (now_ms : Z) (t : Db.Timer) : M unit :=
  active <- is_active (Db.id t);;
  if active then ret tt
  else
    let filename := recording_filename (Db.title t) now_ms in
    mkdir "recordings";;
    rec_id <- db_add_recording_entry (Db.title t) (Db.channel_num t)
                                     now_ms 0 filename;;
    if (rec_id =? -1)%Z then ret tt
    else
      p <- fork (ffmpeg_argv (Db.channel_num t) filename);;
      if (0 <? p)%Z then populate t rec_id p filename
      else ret tt.

(** The body of the second loop for slot [j]. *)
Definition check_slot (now_ms : Z) (j : nat) : M unit :=
  slots <- read_slots;;
  match slots !! j with
  | None => ret tt
  | Some a =>
      if (pid a =? 0)%Z then ret tt
      else if (end_time a <=? now_ms)%Z then
        kill (pid a) Os.SIGTERM;;
        waitpid (pid a) Os.WAIT_BLOCK;;
        set_pid j 0;;
        set_timer_id j 0;;
        slots' <- read_slots;;
        match slots' !! j with
        | Some a' => db_delete_timer (timer_id a');; ret tt
        | None => ret tt
        end
      else
        r <- waitpid (pid a) Os.WNOHANG;;
        if (r =? 0)%Z then ret tt
        else set_pid j 0;; set_timer_id j 0
  end.

Definition due_timer_scan (now_ms : Z) : M unit :=
  r <- db_get_pending_timers now_ms;;
  match r with
  | Some timers => for_each timers (start_recording now_ms)
  | None => ret tt
  end.

Definition finished_scan (now_ms : Z) : M unit :=
  for_each (seq 0 MAX_ACTIVE_RECORDINGS) (check_slot now_ms).

(** One pass of [while (1)] in [scheduler_thread]; [now_sec] is what
    [time(NULL)] returned. *)
Definition scheduler_pass (now_sec : Z) : M unit :=
  let now_ms := now_sec * 1000 in
  due_timer_scan now_ms;;
  finished_scan now_ms.

(** [start_scheduler]: [memset(active_recordings, 0, ...)]. *)
Definition empty_slot : ActiveRecording :=
  {| timer_id := 0; recording_id := 0; pid := 0; end_time := 0;
     path := EmptyString |}.

Definition start_scheduler (d : Db.Database) (s : Os.System) : World :=
  {| active_recordings := replicate MAX_ACTIVE_RECORDINGS empty_slot;
     db := d; os := s; calls := [] |}.

(** [stop_recording]: the first slot with this recording id and a process
    is terminated and its [pid] cleared; the result is [found]. *)
Definition stop_recording (recording : Z) : M Z :=
  slots <- read_slots;;
  match list_find (fun a => recording_id a = recording ∧ pid a ≠ 0) slots with
  | Some (j, a) =>
      kill (pid a) Os.SIGTERM;;
      waitpid (pid a) Os.WAIT_BLOCK;;
      set_pid j 0;;
      ret 1
  | None => ret 0
  end.

Definition occupied (a : ActiveRecording) : bool := negb (pid a =? 0)%Z.

(** [get_active_recording_count] and [get_active_recording_ids]. *)
Definition get_active_recording_count : M Z :=
  slots <- read_slots;;
  ret (Z.of_nat (length (List.filter occupied slots))).

Definition get_active_recording_ids : M (list Z) :=
  slots <- read_slots;;
  ret (map recording_id (List.filter occupied slots)).

End Scheduler.

(* ===================================================================== *)
(** ** Vocabulary of the properties *)
(* ===================================================================== *)

Module ArgVector.
Import Transcode.

(** [a] immediately followed by [b] somewhere in the vector: an option
    with its value. *)
Fixpoint adjacent (a b : string) (l : list string) : bool :=
  match l with
  | x :: ((y :: _) as l') =>
      (String.eqb x a && String.eqb y b) || adjacent a b l'
  | _ => false
  end.

(** The audio part of the vector for a codec and a surround flag, as the
    policy words it: Opus for av1 and AAC otherwise; the 5.1 remap with the
    surround bitrate when the flag is set, a stereo downmix with the stereo
    bitrate otherwise. *)
Definition audio_encoder (c : TranscodeCodec) : string :=
  if decide (c = TRANSCODE_CODEC_AV1) then "libopus" else "aac".

Definition surround_bitrate (c : TranscodeCodec) : string :=
  if decide (c = TRANSCODE_CODEC_AV1) then default_surround_bitrate
  else default_aac_surround_bitrate.

Definition audio_rule (args : list string) (config : TranscodeConfig) : bool :=
  adjacent "-c:a" (audio_encoder (codec config)) args
  && (if c_true (surround51 config)
      then adjacent "-af" "channelmap=channel_layout=5.1" args
           && adjacent "-b:a" (surround_bitrate (codec config)) args
      else adjacent "-ac" "2" args
           && adjacent "-b:a" default_audio_bitrate args).

(** The device-initialisation pair of a backend, if it has one. *)
Definition device_init (b : TranscodeBackend) : list string :=
  match b with
  | TRANSCODE_BACKEND_VAAPI =>
      ["-init_hw_device"; "vaapi=gpu:/dev/dri/renderD128";
       "-filter_hw_device"; "gpu"]
  | TRANSCODE_BACKEND_QSV =>
      ["-init_hw_device"; "qsv=hw"; "-filter_hw_device"; "hw"]
  | _ => []
  end.

(** The container arguments that close every vector. *)
Definition container (c : TranscodeCodec) : list string :=
  if decide (c = TRANSCODE_CODEC_AV1) then ["-f"; "webm"; "pipe:1"]
  else ["-f"; "mp4"; "-movflags";
        "frag_keyframe+empty_moov+default_base_moof"; "pipe:1"].

End ArgVector.

Module SlotTable.
Import Scheduler.

(** A slot is occupied when it holds a process. *)
Definition occupied_at (j : nat) (w : World) : Prop :=
  exists a, active_recordings w !! j = Some a /\ pid a <> 0.

(** No timer identity in two occupied slots. *)
Definition no_shared_timer (slots : list ActiveRecording) : Prop :=
  forall i j a b,
    i <> j -> slots !! i = Some a -> slots !! j = Some b ->
    pid a <> 0 -> pid b <> 0 -> timer_id a <> timer_id b.

(** Slot [j] is empty but still carries timer identity [t]. *)
Definition retains (j : nat) (t : Z) (w : World) : Prop :=
  exists a, active_recordings w !! j = Some a /\ timer_id a = t /\ pid a = 0.

(** The worlds the running server can be in: it starts with a cleared
    table; the scheduler thread makes its passes; HTTP handlers call
    [stop_recording]; and between these the database and the process table
    change in any way under the hands of the other threads, the kernel and
    the children themselves.  A pass gives up [active_mutex] between the
    rounds of its first loop, so a [stop_recording] may fall inside a pass:
    [reachable_round] and [reachable_check] let a pass advance one round at
    a time, on any timer and any slot. *)
Inductive reachable : World -> Prop :=
| reachable_start d s :
    reachable (start_scheduler d s)
| reachable_pass w now_sec :
    reachable w -> reachable (snd (scheduler_pass now_sec w))
| reachable_round w now_ms t :
    reachable w -> reachable (snd (start_recording now_ms t w))
| reachable_check w now_ms j :
    reachable w -> reachable (snd (check_slot now_ms j w))
| reachable_stop w recording :
    reachable w -> reachable (snd (stop_recording recording w))
| reachable_outside w d s :
    reachable w ->
    reachable {| active_recordings := active_recordings w; db := d; os := s;
                 calls := calls w |}.

(** The world in which the parent continues after the directory, the
    database row and the [fork]. *)
Definition after_fork (now_ms : Z) (t : Db.Timer) (w : World) : World :=
  let filename := recording_filename (Db.title t) now_ms in
  let added :=
    Db.db_add_recording_entry (Db.title t) (Db.channel_num t) now_ms 0
                              filename (db w) in
  {| active_recordings := active_recordings w;
     db := snd added;
     os := snd (Os.fork (ffmpeg_argv (Db.channel_num t) filename) (os w));
     calls := calls w ++
       [call_mkdir "recordings";
        call_db_add_recording_entry (Db.title t) (Db.channel_num t) now_ms 0
                                    filename;
        call_fork (ffmpeg_argv (Db.channel_num t) filename)] |}.

(** The same, when the row could not be inserted: no [fork] is tried. *)
Definition after_failed_insert (now_ms : Z) (t : Db.Timer) (w : World)
  : World :=
  let filename := recording_filename (Db.title t) now_ms in
  {| active_recordings := active_recordings w;
     db := db w;
     os := os w;
     calls := calls w ++
       [call_mkdir "recordings";
        call_db_add_recording_entry (Db.title t) (Db.channel_num t) now_ms 0
                                    filename] |}.

(** The children still running, and those of them no slot holds. *)
Definition running_children (w : World) : list Z :=
  map fst (List.filter (fun kv => match Os.status (snd kv) with
                                  | Os.Running => true
                                  | Os.Exited => false
                                  end)
                       (map_to_list (Os.children (os w)))).

Definition tracked (w : World) (p : Z) : bool :=
  existsb (fun a => (pid a =? p)%Z) (active_recordings w).

(** Scenario A of the specification: one timer, due at [T] for ten
    minutes, on channel 5.1. *)
Definition scenario_T : Z := 1700000000.

Definition scenario_timer : Db.Timer :=
  {| Db.id := 1; Db.type := "once"; Db.title := "Evening News";
     Db.channel_num := "5.1"; Db.start_time := scenario_T * 1000;
     Db.end_time := scenario_T * 1000 + 600000 |}.

Definition scenario_start : World :=
  start_scheduler
    {| Db.usable := true; Db.timers := [scenario_timer];
       Db.recordings := []; Db.next_rowid := 1 |}
    {| Os.children := ∅; Os.fork_results := [4001] |}.

(** After the pass at [T]: the recording runs in slot 0. *)
Definition scenario_recording : World :=
  snd (scheduler_pass scenario_T scenario_start).

(** After the pass at [T + 600 s]. *)
Definition scenario_expired : World :=
  snd (scheduler_pass (scenario_T + 600) scenario_recording).

(** Seventeen timers due at once, one more than there are slots. *)
Definition crowd_timer (i : nat) : Db.Timer :=
  {| Db.id := Z.of_nat i; Db.type := "once";
     Db.title := "Show " ++ CString.decimal (Z.of_nat i);
     Db.channel_num := "5.1"; Db.start_time := scenario_T * 1000;
     Db.end_time := scenario_T * 1000 + 600000 |}.

Definition crowd_start : World :=
  start_scheduler
    {| Db.usable := true; Db.timers := map crowd_timer (seq 1 17);
       Db.recordings := []; Db.next_rowid := 1 |}
    {| Os.children := ∅;
       Os.fork_results := map (fun i => 4000 + Z.of_nat i) (seq 1 40) |}.

Definition crowd_after_pass : World :=
  snd (scheduler_pass scenario_T crowd_start).

End SlotTable.

(* ===================================================================== *)
(** ** More C string functions *)
(* ===================================================================== *)

Module CSearch.

(** [strchr(s, c) != NULL] *)
Fixpoint has_char (c : ascii) (s : string) : bool :=
  match s with
  | EmptyString => false
  | String x s' => Ascii.eqb x c || has_char c s'
  end.

(** [strstr(s, needle) != NULL] *)
Fixpoint contains (needle s : string) : bool :=
  String.prefix needle s
  || match s with
     | EmptyString => false
     | String _ s' => contains needle s'
     end.

(** [strchr(s, c)]: the text before the first [c] and the text after it,
    or [None] when [c] does not occur. *)
Fixpoint split_at (c : ascii) (s : string) : option (string * string) :=
  match s with
  | EmptyString => None
  | String x s' =>
      if Ascii.eqb x c then Some (EmptyString, s')
      else match split_at c s' with
           | Some (before, after) => Some (String x before, after)
           | None => None
           end
  end.

(** [s[strcspn(s, "\n")] = 0]: the text before the first newline. *)
Fixpoint until_newline (s : string) : string :=
  match s with
  | EmptyString => EmptyString
  | String x s' =>
      if Ascii.eqb x (ascii_of_nat 10) then EmptyString
      else String x (until_newline s')
  end.

(** [strstr(s, needle)]: the text from the first occurrence of [needle]
    on, or [None]. *)
Fixpoint strstr (needle s : string) : option string :=
  if String.prefix needle s then Some s
  else match s with
       | EmptyString => None
       | String _ s' => strstr needle s'
       end.

(** The text before the first occurrence of [needle]: what is left of [s]
    once a terminator is written at [strstr(s, needle)]. *)
Fixpoint before_strstr (needle s : string) : option string :=
  if String.prefix needle s then Some EmptyString
  else match s with
       | EmptyString => None
       | String x s' => option_map (String x) (before_strstr needle s')
       end.

(** [isspace] in the C locale. *)
Definition isspace (c : ascii) : bool :=
  let n := nat_of_ascii c in
  (n =? 32)%nat || ((9 <=? n)%nat && (n <=? 13)%nat).

Fixpoint skip_spaces (s : string) : string :=
  match s with
  | String c s' => if isspace c then skip_spaces s' else s
  | EmptyString => s
  end.

(** [strtol(s, NULL, 10)]: leading white space, an optional sign, then
    digits; the value saturates at the range of [long]. *)
Definition strtol (s : string) : Z :=
  CString.to_long
    match skip_spaces s with
    | String "-" s' => - CString.atoi_digits 0 s'
    | String "+" s' => CString.atoi_digits 0 s'
    | s' => CString.atoi_digits 0 s'
    end.

(** [atoi], stored in an [int]: [(int) strtol(s, NULL, 10)].  (The C
    standard leaves values outside [int] undefined; this is what the C
    library computes.) *)
Definition atoi (s : string) : Z := CString.to_int (strtol s).

End CSearch.

(* ===================================================================== *)
(** ** discovery.c: [resolve_callback] *)
(* ===================================================================== *)

Module Resolver.

Inductive AvahiProtocol :=
| AVAHI_PROTO_INET
| AVAHI_PROTO_INET6
| AVAHI_PROTO_UNSPEC.

Inductive AvahiResolverEvent :=
| AVAHI_RESOLVER_FOUND
| AVAHI_RESOLVER_FAILURE.

#[export] Instance AvahiProtocol_eq_dec : EqDecision AvahiProtocol.
Proof. solve_decision. Defined.

(** One call of the resolver callback: the event, the protocol of the
    resolved address, the address as [avahi_address_snprint] prints it, and
    the port. *)
Record Resolution := mkResolution {
  event : AvahiResolverEvent;
  proto : AvahiProtocol;
  address : string;
  port : Z
}.

(** ["http://[%s]:%u"] or ["http://%s:%u"] in a [char[256]]. *)
Definition new_url (r : Resolution) : string :=
  CString.truncate 255
    (if decide (proto r = AVAHI_PROTO_INET6)
     then "http://[" ++ address r ++ "]:" ++ CString.decimal (port r)
     else "http://" ++ address r ++ ":" ++ CString.decimal (port r)).

(** The prioritisation: [take_it]. *)
Definition take_it (r : Resolution) (core_url : string) : bool :=
  if (String.length core_url =? 0)%nat then true
  else
    let current_is_ipv6 := CSearch.has_char "[" core_url in
    let new_is_ipv6 := bool_decide (proto r = AVAHI_PROTO_INET6) in
    if current_is_ipv6 && negb new_is_ipv6 then true
    else if negb new_is_ipv6 then CSearch.contains "127.0.0.1" (new_url r)
    else false.

(** [resolve_callback] as a step on the module's [core_url] buffer. *)
Definition resolve_callback (r : Resolution) (core_url : string) : string :=
  match event r with
  | AVAHI_RESOLVER_FOUND =>
      if take_it r core_url then new_url r else core_url
  | AVAHI_RESOLVER_FAILURE => core_url
  end.

(** The buffer after a run of callbacks, oldest first. *)
Definition resolve_all (rs : list Resolution) (core_url : string) : string :=
  fold_left (fun url r => resolve_callback r url) rs core_url.

End Resolver.

(* ===================================================================== *)
(** ** db.c: [json_escape] *)
(* ===================================================================== *)

Module Json.

Definition quote : ascii := ascii_of_nat 34.
Definition backslash : ascii := ascii_of_nat 92.
Definition newline : ascii := ascii_of_nat 10.

(** The loop of [json_escape] from write position [i], with [bound] the
    value of [size - 2]: what is written to [dest] before the final NUL. *)
Fixpoint json_escape_from (bound i : Z) (src : string) : string :=
  match src with
  | EmptyString => EmptyString
  | String c rest =>
      if (i <? bound)%Z then
        if Ascii.eqb c quote then
          String backslash (String quote (json_escape_from bound (i + 2) rest))
        else if Ascii.eqb c backslash then
          String backslash
                 (String backslash (json_escape_from bound (i + 2) rest))
        else if Ascii.eqb c newline then
          String backslash (String "n" (json_escape_from bound (i + 2) rest))
        else String c (json_escape_from bound (i + 1) rest)
      else EmptyString
  end.

(** [json_escape(dest, src, size)]; [size] is a [size_t], so [size - 2]
    wraps around below 2. *)
Definition json_escape (src : string) (size : Z) : string :=
  json_escape_from ((size - 2) mod 2 ^ 64) 0 src.

(** A text made of whole escape units only: plain characters other than
    the quote, the backslash and the newline, and the pairs backslash-quote,
    backslash-backslash and backslash-n. *)
Inductive escaped : string -> Prop :=
| escaped_nil : escaped EmptyString
| escaped_plain c s :
    c <> quote -> c <> backslash -> c <> newline ->
    escaped s -> escaped (String c s)
| escaped_pair c s :
    c = quote \/ c = backslash \/ c = "n"%char ->
    escaped s -> escaped (String backslash (String c s)).

(** The escape of one character, without any bound. *)
Definition escape_char (c : ascii) : string :=
  if Ascii.eqb c quote then String backslash (String quote EmptyString)
  else if Ascii.eqb c backslash
       then String backslash (String backslash EmptyString)
  else if Ascii.eqb c newline then String backslash (String "n" EmptyString)
  else String c EmptyString.

Fixpoint escape_all (s : string) : string :=
  match s with
  | EmptyString => EmptyString
  | String c s' => escape_char c ++ escape_all s'
  end.

End Json.

(* ===================================================================== *)
(** ** Reading a text file line by line *)
(* ===================================================================== *)

Module Stdio.

Definition newline : ascii := ascii_of_nat 10.

(** The text cut where successive [fgets] calls cut it: a line ends after
    a newline, or when [room] (the characters the buffer still takes) is
    used up.  The last element is what follows the last cut, empty at the
    end of the file. *)
Fixpoint fgets_chunks (max room : nat) (s : string) : list string :=
  match s with
  | EmptyString => [EmptyString]
  | String c s' =>
      if Ascii.eqb c newline || (room <=? 1)%nat
      then String c EmptyString :: fgets_chunks max max s'
      else match fgets_chunks max (room - 1) s' with
           | l :: ls => String c l :: ls
           | [] => [String c EmptyString]
           end
  end.

(** The lines [while (fgets(line, size, f))] sees: [size - 1] characters
    at most each, the newline included. *)
Definition fgets_lines (size : nat) (s : string) : list string :=
  List.filter (fun l => negb (String.eqb l EmptyString))
              (fgets_chunks (size - 1) (size - 1) s).

End Stdio.

(* ===================================================================== *)
(** ** config.c *)
(* ===================================================================== *)

Module Config.
Import Web.

(** The body of the [while (fgets(line, sizeof(line), f))] loop of
    [config_load] for one line. *)
Definition load_line (cfg : AppConfig) (line : string) : AppConfig :=
  match CSearch.split_at "=" line with
  | None => cfg
  | Some (key, val) =>
      let val := CSearch.until_newline val in
      if String.eqb key "TRANSCODE_BACKEND" then
        {| app_backend := CString.truncate 31 val; app_codec := app_codec cfg |}
      else if String.eqb key "TRANSCODE_CODEC" then
        {| app_backend := app_backend cfg; app_codec := CString.truncate 31 val |}
      else cfg
  end.

Definition defaults : AppConfig :=
  {| app_backend := "software"; app_codec := "h264" |}.

(** [config_load]: [file] is the content of [zaplink.conf], [None] when it
    cannot be opened; the result is the new [app_config]. *)
Definition config_load (file : option string) : AppConfig :=
  match file with
  | None => defaults
  | Some text => fold_left load_line (Stdio.fgets_lines 128 text) defaults
  end.

(** [config_save]: the text written to [zaplink.conf]. *)
Definition config_save (cfg : AppConfig) : string :=
  "TRANSCODE_BACKEND=" ++ app_backend cfg ++ String Stdio.newline
    ("TRANSCODE_CODEC=" ++ app_codec cfg ++ String Stdio.newline EmptyString).

End Config.

(* ===================================================================== *)
(** ** transcode.c: [send_headers] and [transcode_source] *)
(* ===================================================================== *)

Module Relay.
Import Transcode.

Definition crlf : string :=
  String (ascii_of_nat 13) (String (ascii_of_nat 10) EmptyString).

(** The response head [send_headers] formats into its [char[1024]]. *)
Definition headers (content_type : string) : string :=
  CString.truncate 1023
    ("HTTP/1.1 200 OK" ++ crlf ++
     "Content-Type: " ++ content_type ++ crlf ++
     "Connection: close" ++ crlf ++ crlf).

(** What the call meets outside: whether [pipe] succeeds, what [fork]
    returns in the parent, what the successive [read] calls on the pipe
    deliver (an empty text, or the end of the list, is a [read] that returns
    0 or -1), and what the successive [write] calls on the client socket
    return (past the end of the list: everything was written). *)
Record Outside := mkOutside {
  pipe_ok : bool;
  fork_result : Z;
  reads : list string;
  write_results : list Z
}.

Inductive Event :=
| ev_pipe
| ev_fork (child_argv : list string)
| ev_close_write_end
| ev_client_write (data : string) (result : Z)
| ev_kill (pid : Z) (sig : Os.Signal)
| ev_close_read_end
| ev_waitpid (pid : Z).

Definition write_result (data : string) (results : list Z) : Z :=
  match results with
  | r :: _ => r
  | [] => Z.of_nat (String.length data)
  end.

(** The relay loop: [while ((n = read(...)) > 0) if (write(...) < 0) break;] *)
Fixpoint relay_loop (reads : list string) (results : list Z) : list Event :=
  match reads with
  | [] => []
  | chunk :: reads' =>
      if (String.length chunk =? 0)%nat then []
      else
        let r := write_result chunk results in
        ev_client_write chunk r
        :: (if (r <? 0)%Z then [] else relay_loop reads' (tail results))
  end.

(** [transcode_source]: the calls it makes in the calling process, and its
    return value.  Where [fork] returns 0 the code is the child, which goes
    on to [execvp] the encoder and never returns to the caller: [None]. *)
Definition transcode_source (out : Outside) (input_source : string)
    (config : TranscodeConfig) : list Event * option Z :=
  if negb (pipe_ok out) then ([ev_pipe], Some (-1))
  else
    let child := build_ffmpeg_args input_source config in
    let pid := fork_result out in
    if (pid <? 0)%Z then ([ev_pipe; ev_fork child], Some (-1))
    else if (pid =? 0)%Z then ([ev_pipe; ev_fork child], None)
    else
      let ctype :=
        if decide (codec config = TRANSCODE_CODEC_AV1) then "video/webm"
        else "video/mp4" in
      let head := headers ctype in
      (([ev_pipe; ev_fork child; ev_close_write_end;
         ev_client_write head (write_result head (write_results out))]
        ++ relay_loop (reads out) (tail (write_results out))
        ++ [ev_kill pid Os.SIGTERM; ev_close_read_end; ev_waitpid pid])%list,
       Some 0).

(** [transcode_stream]: the same on the live-proxy URL of a channel. *)
Definition transcode_stream (out : Outside) (core_url channel_id : string)
    (config : TranscodeConfig) : list Event * option Z :=
  transcode_source out (transcode_stream_input core_url channel_id) config.



Definition is_child_end (pid : Z) (e : Event) : bool :=
  match e with
  | ev_kill p _ => (p =? pid)%Z
  | ev_waitpid p => (p =? pid)%Z
  | _ => false
  end.

End Relay.

(* ===================================================================== *)
(** ** web.c: [get_mime_type] and [serve_file] *)
(* ===================================================================== *)

Module Static.
Import Web.

(** [PUBLIC_DIR] of config.h. *)
Definition PUBLIC_DIR : string := "./public".

(** [strrchr(s, c)]: the text from the last [c] on. *)
Fixpoint strrchr (c : ascii) (s : string) : option string :=
  match s with
  | EmptyString => None
  | String x s' =>
      match strrchr c s' with
      | Some t => Some t
      | None => if Ascii.eqb x c then Some s else None
      end
  end.

Definition get_mime_type (path : string) : string :=
  match strrchr "." path with
  | None => "application/octet-stream"
  | Some ext =>
      if String.eqb ext ".html" then "text/html"
      else if String.eqb ext ".css" then "text/css"
      else if String.eqb ext ".js" then "application/javascript"
      else if String.eqb ext ".json" then "application/json"
      else if String.eqb ext ".png" then "image/png"
      else if String.eqb ext ".jpg" then "image/jpeg"
      else if String.eqb ext ".svg" then "image/svg+xml"
      else if String.eqb ext ".ico" then "image/x-icon"
      else "application/octet-stream"
  end.

(** The files under the server's working directory: whether [stat] finds a
    directory at a path, and what [open] and the reads after it deliver
    ([None]: [open] fails). *)
Record Fs := mkFs {
  is_dir : string -> bool;
  content : string -> option string
}.

(** The text cut into the blocks that reads of [size] bytes deliver; the
    last element is what follows the last full block. *)
Fixpoint blocks_from (size room : nat) (s : string) : list string :=
  match s with
  | EmptyString => [EmptyString]
  | String c s' =>
      if (room <=? 1)%nat
      then String c EmptyString :: blocks_from size size s'
      else match blocks_from size (room - 1) s' with
           | l :: ls => String c l :: ls
           | [] => [String c EmptyString]
           end
  end.

Definition blocks (size : nat) (s : string) : list string :=
  List.filter (fun l => negb (String.eqb l EmptyString))
              (blocks_from size size s).

(** [strncat(dest, src, n)] *)
Definition strncat (dest src : string) (n : nat) : string :=
  dest ++ CString.truncate n src.

(** What [serve_file] does: the paths it passes to [open], in order, and
    what it sends to the client. *)
Record Served := mkServed {
  opened : list string;
  sent : list Action
}.

Definition text_reply (status_code : Z) (status_text msg : string)
  : list Action :=
  [send_headers status_code status_text "text/plain" (strlen msg); write msg].

Definition file_reply (full_path data : string) : list Action :=
  send_headers 200 "OK" (get_mime_type full_path) (strlen data)
  :: map write (blocks 4096 data).

Definition looks_like_asset (path : string) : bool :=
  CSearch.contains ".js" path || CSearch.contains ".css" path
  || CSearch.contains ".png" path || CSearch.contains ".jpg" path.

Definition serve_file (fs : Fs) (path : string) : Served :=
  if CSearch.contains ".." path then
    {| opened := []; sent := text_reply 403 "Forbidden" "Forbidden" |}
  else
    let full_path := CString.truncate 511 (PUBLIC_DIR ++ path) in
    let full_path :=
      match CSearch.split_at "?" full_path with
      | Some (before, _) => before
      | None => full_path
      end in
    let full_path :=
      if is_dir fs full_path
      then strncat full_path "/index.html" (512 - String.length full_path - 1)
      else full_path in
    match content fs full_path with
    | Some data =>
        {| opened := [full_path]; sent := file_reply full_path data |}
    | None =>
        if looks_like_asset path then
          {| opened := [full_path];
             sent := text_reply 404 "Not Found" "404 Not Found" |}
        else
          let index := CString.truncate 511 (PUBLIC_DIR ++ "/index.html") in
          match content fs index with
          | Some data =>
              {| opened := [full_path; index]; sent := file_reply index data |}
          | None =>
              {| opened := [full_path; index];
                 sent := text_reply 404 "Not Found" "404 Not Found" |}
          end
    end.

(** A path whose text starts with the name of the public directory and
    holds no [..]; and a path below the public directory: the directory
    name, a slash, and no [..] after it. *)
Definition public_prefixed (p : string) : Prop :=
  CString.starts_with PUBLIC_DIR p = true /\ CSearch.contains ".." p = false.

Definition inside_public (p : string) : Prop :=
  CString.starts_with (PUBLIC_DIR ++ "/") p = true
  /\ CSearch.contains ".." p = false.

End Static.

(* ===================================================================== *)
(** ** web.c: the [/playlist.m3u] branch of [client_handler] *)
(* ===================================================================== *)

Module Playlist.
Import Web.

(** The four variables the query fills: [backend[32]], [codec[32]],
    [bitrate[16]] and [ac6]. *)
Record Settings := mkSettings {
  backend : string;
  codec : string;
  bitrate : string;
  ac6 : Z
}.

Definition no_settings : Settings :=
  {| backend := EmptyString; codec := EmptyString; bitrate := EmptyString;
     ac6 := 0 |}.

(** One round of the [strtok(query, "&")] loop. *)
Definition read_param (st : Settings) (param : string) : Settings :=
  if CString.starts_with "backend=" param then
    {| backend := CString.truncate 31 (CString.advance 8 param);
       codec := codec st; bitrate := bitrate st; ac6 := ac6 st |}
  else if CString.starts_with "codec=" param then
    {| backend := backend st;
       codec := CString.truncate 31 (CString.advance 6 param);
       bitrate := bitrate st; ac6 := ac6 st |}
  else if CString.starts_with "bitrate=" param then
    {| backend := backend st; codec := codec st;
       bitrate := CString.truncate 15 (CString.advance 8 param);
       ac6 := ac6 st |}
  else if CString.starts_with "ac6=" param then
    {| backend := backend st; codec := codec st; bitrate := bitrate st;
       ac6 := CSearch.atoi (CString.advance 4 param) |}
  else st.

(** The settings read from the request path: what follows the first [?],
    cut at every [&]. *)
Definition query_settings (path : string) : Settings :=
  match CSearch.split_at "?" path with
  | Some (_, query) =>
      fold_left read_param (CString.strtok_all "&" query) no_settings
  | None => no_settings
  end.

(** [transcode_path]: the settings as path segments, by [strcat]. *)
Definition transcode_path (st : Settings) : string :=
  (if (String.length (backend st) =? 0)%nat then EmptyString
   else "/" ++ backend st)
  ++ (if (String.length (codec st) =? 0)%nat then EmptyString
      else "/" ++ codec st)
  ++ (if (String.length (bitrate st) =? 0)%nat then EmptyString
      else "/b" ++ bitrate st)
  ++ (if (ac6 st =? 0)%Z then EmptyString else "/ac6").

(** The request path of the URL written for a channel: what follows
    ["http://%s"] in the entry's format, ["/transcode%s/%s"]. *)
Definition channel_path (st : Settings) (number : string) : string :=
  "/transcode" ++ transcode_path st ++ "/" ++ number.

(** The entry formatted for one channel. *)
Definition m3u_entry (host : string) (st : Settings)
    (name number : string) : string :=
  "#EXTINF:-1 tvg-id=" ++ dq ++ number ++ dq ++ " tvg-name=" ++ dq ++ name
  ++ dq ++ "," ++ name ++ String (ascii_of_nat 10)
     ("http://" ++ host ++ channel_path st number
      ++ String (ascii_of_nat 10) EmptyString).


Fixpoint segments (tokens : list string) : string :=
  match tokens with
  | [] => EmptyString
  | t :: ts => "/" ++ t ++ segments ts
  end.





(** What the three [strncpy] calls keep true of the query's variables. *)
Definition settings_fit (st : Settings) : Prop :=
  (String.length (backend st) <= 31)%nat
  /\ (String.length (codec st) <= 31)%nat
  /\ (String.length (bitrate st) <= 15)%nat.

End Playlist.

(* ===================================================================== *)
(** ** web.c: the [/api/] routes, and the two db.c queries they use *)
(* ===================================================================== *)

Module Api.
Import Web Scheduler.

(** The [if / else if] chain on the path inside the [/api/] branch. *)
Inductive Route :=
| api_status
| api_config
| api_recordings
| api_recordings_item
| api_timers
| api_timers_item
| api_play
| api_version
| api_unknown.

Definition api_route (path : string) : Route :=
  if String.eqb path "/api/status" then api_status
  else if String.eqb path "/api/config" then api_config
  else if String.eqb path "/api/recordings" then api_recordings
  else if CString.starts_with "/api/recordings/" path then api_recordings_item
  else if String.eqb path "/api/timers" then api_timers
  else if CString.starts_with "/api/timers/" path then api_timers_item
  else if CString.starts_with "/api/play/" path then api_play
  else if String.eqb path "/api/version" then api_version
  else api_unknown.

(** [db_get_recording_path]: [SELECT file_path FROM recordings WHERE id = ?] *)
Definition db_get_recording_path (i : Z) (d : Db.Database) : option string :=
  if Db.usable d then
    match List.find (fun r => (Db.rec_id r =? i)%Z) (Db.recordings d) with
    | Some r => Some (Db.rec_file_path r)
    | None => None
    end
  else None.

(** [db_delete_recording]: [DELETE FROM recordings WHERE id = %d]; 1 when
    the statement ran, 0 otherwise. *)
Definition db_delete_recording (i : Z) (d : Db.Database) : Z * Db.Database :=
  if Db.usable d then
    (1,
     {| Db.usable := Db.usable d;
        Db.timers := Db.timers d;
        Db.recordings :=
          List.filter (fun r => negb (Db.rec_id r =? i)%Z) (Db.recordings d);
        Db.next_rowid := Db.next_rowid d |})
  else (0, d).

(** What the routes read and write: the scheduler's world (slot table,
    database, processes), the global [app_config], the file
    [zaplink.conf] ([None]: absent) and whether it can be opened for
    writing, and the files unlinked so far. *)
Record Server := mkServer {
  world : World;
  app_config : AppConfig;
  config_file : option string;
  config_writable : bool;
  unlinked : list string
}.

Definition with_world (w : World) (s : Server) : Server :=
  {| world := w; app_config := app_config s; config_file := config_file s;
     config_writable := config_writable s; unlinked := unlinked s |}.

(** The body of a successful call: an object whose member [success] is
    [true]. *)
Definition success : string := "{" ++ dq ++ "success" ++ dq ++ ":true}".

(** A route leaves a status and a body, [None] for [json == NULL]. *)
Definition Outcome : Type := Z * option string.

(** [/api/recordings/<id>/stop] (POST) and [/api/recordings/<id>]
    (DELETE). *)
Definition recordings_item (method path : string) (s : Server)
  : Outcome * Server :=
  let tail := CString.advance 16 path in
  match CSearch.before_strstr "/stop" tail, String.eqb method "POST" with
  | Some text, true =>
      let r := stop_recording (CSearch.atoi text) (world s) in
      (if (fst r =? 0)%Z
       then (404, Some (json_error "Recording not found or not active"))
       else (200, Some success),
       with_world (snd r) s)
  | _, _ =>
      if String.eqb method "DELETE" then
        let i := CSearch.atoi tail in
        let d := db (world s) in
        let gone := match db_get_recording_path i d with
                    | Some file => [file]
                    | None => []
                    end in
        let r := db_delete_recording i d in
        (if (fst r =? 0)%Z then (500, None) else (200, Some success),
         {| world := {| active_recordings := active_recordings (world s);
                        db := snd r; os := os (world s);
                        calls := calls (world s) |};
            app_config := app_config s; config_file := config_file s;
            config_writable := config_writable s;
            unlinked := unlinked s ++ gone |})
      else ((200, None), s)
  end.

(** The two keys the configuration body is searched for, and the blank
    line before the body. *)
Definition backend_key : string :=
  Eval cbv in (dq ++ "backend" ++ dq ++ ":" ++ dq).
Definition codec_key : string :=
  Eval cbv in (dq ++ "codec" ++ dq ++ ":" ++ dq).
Definition blank_line : string :=
  Eval cbv in (Relay.crlf ++ Relay.crlf).

(** [strstr(body, key)], skip the key, [strchr] for a double quote: the
    text between the key and the next double quote. *)
Definition json_field (key body : string) : option string :=
  match CSearch.strstr key body with
  | Some found =>
      match CSearch.split_at (ascii_of_nat 34)
                             (CString.advance (String.length key) found) with
      | Some (value, _) => Some value
      | None => None
      end
  | None => None
  end.

(** [strstr] for the blank line, then [+ 4]. *)
Definition body_of (buffer : string) : option string :=
  option_map (CString.advance 4) (CSearch.strstr blank_line buffer).

(** The two [strncpy] calls of the POST branch. *)
Definition post_config (body : string) (cfg : AppConfig) : AppConfig :=
  let cfg1 :=
    match json_field backend_key body with
    | Some v => {| app_backend := CString.truncate 31 v;
                   app_codec := app_codec cfg |}
    | None => cfg
    end in
  match json_field codec_key body with
  | Some v => {| app_backend := app_backend cfg1;
                 app_codec := CString.truncate 31 v |}
  | None => cfg1
  end.

(** The object with the members [backend] and [codec], formatted into
    [conf_json[512]]. *)
Definition config_json (cfg : AppConfig) : string :=
  CString.truncate 511
    ("{" ++ backend_key ++ app_backend cfg ++ dq ++ ","
         ++ codec_key ++ app_codec cfg ++ dq ++ "}").

(** [/api/config]: POST rewrites [app_config] from the body and saves it,
    any other method reports it. *)
Definition config_route (method buffer : string) (s : Server)
  : Outcome * Server :=
  if String.eqb method "POST" then
    match body_of buffer with
    | Some body =>
        let cfg := post_config body (app_config s) in
        ((200, Some success),
         {| world := world s; app_config := cfg;
            config_file := if config_writable s
                           then Some (Config.config_save cfg)
                           else config_file s;
            config_writable := config_writable s;
            unlinked := unlinked s |})
    | None => ((200, None), s)
    end
  else ((200, Some (config_json (app_config s))), s).


(** [/api/status]: the loop that writes the identities into
    [ids_str[256]], each through [num[16]] with a comma unless it is the
    last, by [strncat] bounded by the room left; then the closing
    bracket. *)
Fixpoint ids_loop (ids : list Z) (ids_str : string) : string :=
  match ids with
  | [] => ids_str
  | i :: rest =>
      let num := CString.truncate 15
                   (CString.decimal i ++ match rest with
                                         | [] => EmptyString
                                         | _ => ","
                                         end) in
      ids_loop rest
        (Static.strncat ids_str num (255 - String.length ids_str))
  end.

Definition ids_str (ids : list Z) : string :=
  let s := ids_loop ids "[" in
  Static.strncat s "]" (255 - String.length s).





(** [/api/play/<id>/...]: the configuration before any option is read,
    and one round of the option loop (unknown options are skipped). *)
Definition play_start : Transcode.TranscodeConfig :=
  {| Transcode.backend := Transcode.TRANSCODE_BACKEND_SOFTWARE;
     Transcode.codec := Transcode.TRANSCODE_CODEC_H264;
     Transcode.bitrate_kbps := 0; Transcode.surround51 := 0 |}.

Definition play_token (t : Transcode.TranscodeConfig) (token : string)
  : Transcode.TranscodeConfig :=
  let with_codec c :=
    {| Transcode.backend := Transcode.backend t; Transcode.codec := c;
       Transcode.bitrate_kbps := Transcode.bitrate_kbps t;
       Transcode.surround51 := Transcode.surround51 t |} in
  let with_backend b :=
    {| Transcode.backend := b; Transcode.codec := Transcode.codec t;
       Transcode.bitrate_kbps := Transcode.bitrate_kbps t;
       Transcode.surround51 := Transcode.surround51 t |} in
  if String.eqb token "h264" then with_codec Transcode.TRANSCODE_CODEC_H264
  else if String.eqb token "hevc" then with_codec Transcode.TRANSCODE_CODEC_HEVC
  else if String.eqb token "av1" then with_codec Transcode.TRANSCODE_CODEC_AV1
  else if String.eqb token "copy" then with_codec Transcode.TRANSCODE_CODEC_COPY
  else if String.eqb token "qsv" then with_backend Transcode.TRANSCODE_BACKEND_QSV
  else if String.eqb token "nvenc"
  then with_backend Transcode.TRANSCODE_BACKEND_NVENC
  else if String.eqb token "vaapi"
  then with_backend Transcode.TRANSCODE_BACKEND_VAAPI
  else if String.eqb token "ac6" then
    {| Transcode.backend := Transcode.backend t;
       Transcode.codec := Transcode.codec t;
       Transcode.bitrate_kbps := Transcode.bitrate_kbps t;
       Transcode.surround51 := 1 |}
  else if is_bitrate_token token then
    {| Transcode.backend := Transcode.backend t;
       Transcode.codec := Transcode.codec t;
       Transcode.bitrate_kbps := CString.atoi (CString.advance 1 token);
       Transcode.surround51 := Transcode.surround51 t |}
  else t.

(** What the play route ends in: the recording's file handed to
    [transcode_source] with the configuration read (the socket is closed
    after it), or a reply. *)
Inductive Played :=
| play_source (file : string) (config : Transcode.TranscodeConfig)
| play_reply (o : Outcome).

Definition play_route (path : string) (d : Db.Database) : Played :=
  let tokens := CString.strtok_all "/" (CString.advance 10 path) in
  let first :=
    match tokens with
    | String c token :: rest =>
        if CString.isdigit c
        then (CString.atoi (String c token), rest)
        else (0, tokens)
    | _ => (0, tokens)
    end in
  let config := fold_left play_token (snd first) play_start in
  if (0 <? fst first)%Z then
    match db_get_recording_path (fst first) d with
    | Some file => play_source file config
    | None => play_reply (404, Some (json_error "Recording not found"))
    end
  else play_reply (400, Some (json_error "Invalid ID")).

End Api.

(* ===================================================================== *)
(** ** channels.h / channels.c *)
(* ===================================================================== *)

Module Channels.

(** [typedef struct { ... } Channel;] *)
Record Channel := mkChannel {
  name : string;
  number : string;
  service_id : string;
  frequency : string
}.

(** [Channel current = {0}] and [memset(&current, 0, sizeof(current))] *)
Definition blank : Channel :=
  {| name := EmptyString; number := EmptyString;
     service_id := EmptyString; frequency := EmptyString |}.

(** The second loop of [trim]: trailing white space is cut, the first
    character is never reached ([end > str]). *)
Fixpoint strip_trailing (s : string) : string :=
  match s with
  | EmptyString => EmptyString
  | String c s' =>
      match strip_trailing s' with
      | EmptyString =>
          if CSearch.isspace c then EmptyString else String c EmptyString
      | t => String c t
      end
  end.

(** [trim] *)
Definition trim (s : string) : string :=
  match CSearch.skip_spaces s with
  | EmptyString => EmptyString
  | String c s' => String c (strip_trailing s')
  end.

(** The variables of the reading loop of [channels_load]. *)
Record Reader := mkReader {
  channels : list Channel;
  current : Channel;
  in_channel : bool
}.

(** [if (in_channel && strlen(current.number) > 0) channels[num_channels++]
    = current;]  (the array is doubled when full). *)
Definition save (st : Reader) : list Channel :=
  if in_channel st && (0 <? String.length (number (current st)))%nat
  then channels st ++ [current st]
  else channels st.

(** The name between the brackets: kept when it has 1 to 127
    characters. *)
Definition block_name (trimmed : string) : string :=
  match CSearch.split_at "]" trimmed with
  | Some (before, _) =>
      let len := (Z.of_nat (String.length before) - 1)%Z in
      if (0 <? len)%Z && (len <? 128)%Z
      then CString.advance 1 before
      else EmptyString
  | None => EmptyString
  end.

(** The body of the [while (fgets(line, sizeof(line), f))] loop. *)
Definition read_line (st : Reader) (line : string) : Reader :=
  let trimmed := trim line in
  match trimmed with
  | String "[" _ =>
      {| channels := save st;
         current := {| name := block_name trimmed; number := EmptyString;
                       service_id := EmptyString;
                       frequency := EmptyString |};
         in_channel := true |}
  | _ =>
      if in_channel st then
        match CSearch.split_at "=" trimmed with
        | Some (k, v) =>
            let key := trim k in
            let val := trim v in
            let c := current st in
            if String.eqb key "VCHANNEL" then
              {| channels := channels st;
                 current := {| name := name c;
                               number := CString.truncate 15 val;
                               service_id := service_id c;
                               frequency := frequency c |};
                 in_channel := in_channel st |}
            else if String.eqb key "SERVICE_ID" then
              {| channels := channels st;
                 current := {| name := name c; number := number c;
                               service_id := CString.truncate 15 val;
                               frequency := frequency c |};
                 in_channel := in_channel st |}
            else if String.eqb key "FREQUENCY" then
              {| channels := channels st;
                 current := {| name := name c; number := number c;
                               service_id := service_id c;
                               frequency := CString.truncate 15 val |};
                 in_channel := in_channel st |}
            else st
        | None => st
        end
      else st
  end.

(** The channels in file order: the loop over the lines, then the last
    channel. *)
Definition read_channels (text : string) : list Channel :=
  save (fold_left read_line (Stdio.fgets_lines 512 text)
          {| channels := []; current := blank; in_channel := false |}).

(** One [%d] of [sscanf] into an [int]: white space, an optional sign, at
    least one digit; the value stored and the text left.  The value is
    converted as [strtol] does and narrowed to [int] when stored. *)
Fixpoint drop_digits (s : string) : string :=
  match s with
  | String c s' => if CString.isdigit c then drop_digits s' else s
  | EmptyString => s
  end.

Definition scan_digits (sign : Z) (s : string) : option (Z * string) :=
  match s with
  | String c _ =>
      if CString.isdigit c
      then Some (CString.to_int
                   (CString.to_long (sign * CString.atoi_digits 0 s)),
                 drop_digits s)
      else None
  | EmptyString => None
  end.

Definition scan_int (s : string) : option (Z * string) :=
  match CSearch.skip_spaces s with
  | String "-" s' => scan_digits (-1) s'
  | String "+" s' => scan_digits 1 s'
  | s' => scan_digits 1 s'
  end.

(** [sscanf(number, "%d.%d", &maj, &min)] on two variables that hold
    [prior]: a number that is converted is stored, a variable that is not
    reached keeps what it held. *)
Definition sscanf_number (prior : Z * Z) (s : string) : Z * Z :=
  match scan_int s with
  | Some (major, String "." rest) =>
      match scan_int rest with
      | Some (minor, _) => (major, minor)
      | None => (major, snd prior)
      end
  | Some (major, _) => (major, snd prior)
  | None => prior
  end.

(** The two numbers of a text in which both are converted. *)
Definition scan_number (s : string) : option (Z * Z) :=
  match scan_int s with
  | Some (major, String "." rest) =>
      match scan_int rest with
      | Some (minor, _) => Some (major, minor)
      | None => None
      end
  | _ => None
  end.

(** [maj1 > maj2 || (maj1 == maj2 && min1 > min2)] *)
Definition greater (k1 k2 : Z * Z) : bool :=
  (fst k2 <? fst k1)%Z || ((fst k1 =? fst k2)%Z && (snd k2 <? snd k1)%Z).

(** What [maj1, min1] and [maj2, min2], declared without a value in the
    body of the inner loop, hold before the two [sscanf] calls of the
    comparison at index [j]. *)
Definition Junk : Type := nat -> (Z * Z) * (Z * Z).

(** One run of the inner loop, from index [j] for [m] comparisons: the
    element carried along is the head of the list, the elements already
    passed are put back in front. *)
Fixpoint bubble (junk : Junk) (j m : nat) (l : list Channel) : list Channel :=
  match m, l with
  | S m', a :: b :: r =>
      let k1 := sscanf_number (fst (junk j)) (number a) in
      let k2 := sscanf_number (snd (junk j)) (number b) in
      if greater k1 k2
      then b :: bubble junk (S j) m' (a :: r)
      else a :: bubble junk (S j) m' (b :: r)
  | _, _ => l
  end.

(** The outer loop, [i = 0 .. n - 2], each round running the inner loop
    to [n - i - 1]; [junk i] is what the variables hold in round [i]. *)
Definition sort_channels (junk : nat -> Junk) (l : list Channel)
  : list Channel :=
  let n := length l in
  fold_left (fun acc i => bubble (junk i) 0 (n - i - 1) acc)
            (seq 0 (n - 1)) l.

(** [channels_load]: [None] is the [NULL] returned when the file cannot
    be opened; otherwise the array, whatever the numbers look like. *)
Definition channels_load (junk : nat -> Junk) (file : option string)
  : option (list Channel) :=
  match file with
  | None => None
  | Some text => Some (sort_channels junk (read_channels text))
  end.

(** The order of the comparison, on the pairs of [int]s it reads, and
    between two channels whose numbers both read as such a pair. *)
Definition key_le (k1 k2 : Z * Z) : Prop :=
  (fst k1 < fst k2)%Z \/ (fst k1 = fst k2 /\ (snd k1 <= snd k2)%Z).

Definition in_order (a b : Channel) : Prop :=
  match scan_number (number a), scan_number (number b) with
  | Some ka, Some kb => key_le ka kb
  | _, _ => False
  end.

(** What the reading loop keeps true of every channel it stores. *)
Definition well_formed (c : Channel) : Prop :=
  (0 < String.length (number c) <= 15)%nat
  /\ (String.length (name c) <= 127)%nat
  /\ (String.length (service_id c) <= 15)%nat
  /\ (String.length (frequency c) <= 15)%nat.

(** What holds of [current] while a block is read. *)
Definition fields_fit (c : Channel) : Prop :=
  (String.length (number c) <= 15)%nat
  /\ (String.length (name c) <= 127)%nat
  /\ (String.length (service_id c) <= 15)%nat
  /\ (String.length (frequency c) <= 15)%nat.

End Channels.

(* ===================================================================== *)
(** ** db.c: [append_str] and [query_to_json] *)
(* ===================================================================== *)

Module JsonRows.

(** The growing text: the buffer with its capacity; the length the C
    code keeps beside it is the length of the text. *)
Record Buffer := mkBuffer {
  cap : Z;
  text : string
}.

Definition len (b : Buffer) : Z := Z.of_nat (String.length (text b)).

(** The loop that doubles the capacity while [len + slen + 1] exceeds
    it, for at most [fuel] rounds; [None] when the capacity is still too
    small then. *)
Fixpoint grow (fuel : nat) (capacity need : Z) : option Z :=
  if (need >? capacity)%Z then
    match fuel with
    | O => None
    | S fuel' => grow fuel' (capacity * 2) need
    end
  else Some capacity.

(** [append_str]: as many rounds as there are bytes needed are allowed
    for, which is more than the loop ever takes. *)
Definition append_str (b : Buffer) (str : string) : option Buffer :=
  let need := (len b + Z.of_nat (String.length str) + 1)%Z in
  match grow (Z.to_nat need) (cap b) need with
  | Some capacity => Some {| cap := capacity; text := text b ++ str |}
  | None => None
  end.

(** A result row: the name of each column with its text, [None] for a
    NULL. *)
Definition Row : Type := list (string * option string).

(** One member, formatted into [buf[4096]] from the name and the value
    escaped into [escaped[2048]]. *)
Definition member (col : string * option string) : string :=
  CString.truncate 4095
    (Web.dq ++ fst col ++ Web.dq ++ ":" ++ Web.dq
       ++ Json.json_escape (default EmptyString (snd col)) 2048 ++ Web.dq).

(** The texts appended for the columns of a row, and for the rows. *)
Fixpoint members (first : bool) (cols : Row) : list string :=
  match cols with
  | [] => []
  | col :: rest =>
      (if first then [] else [","]) ++ member col :: members false rest
  end.

Fixpoint objects (first : bool) (rows : list Row) : list string :=
  match rows with
  | [] => []
  | row :: rest =>
      (if first then [] else [","])
      ++ "{" :: members true row ++ "}" :: objects false rest
  end.

Definition append_all (pieces : list string) (b : Buffer) : option Buffer :=
  fold_left (fun acc piece =>
               match acc with
               | Some b' => append_str b' piece
               | None => None
               end)
            pieces (Some b).

(** [query_to_json]: [rows] is what the statement yields, [None] when it
    cannot be prepared. *)
Definition query_to_json (rows : option (list Row)) : option Buffer :=
  match rows with
  | None => Some {| cap := 3; text := "[]" |}
  | Some rows =>
      append_all (objects true rows ++ ["]"]) {| cap := 4096; text := "[" |}
  end.

End JsonRows.

(* ===================================================================== *)
(** * Properties of the encoder argument builder *)
(* ===================================================================== *)

Section ArgumentBuilder.
Import Transcode ArgVector.
Local Open Scope list_scope.

Lemma adjacent_here a b l : adjacent a b (a :: b :: l) = true.
Proof. simpl. by rewrite !String.eqb_refl. Qed.

Lemma adjacent_later a b x l : adjacent a b l = true -> adjacent a b (x :: l) = true.
Proof.
  intros H. destruct l as [|y l]; [discriminate|].
  change (adjacent a b (x :: y :: l))
    with ((String.eqb x a && String.eqb y b) || adjacent a b (y :: l)).
  rewrite H. apply orb_true_r.
Qed.

Lemma adjacent_split a b l :
  adjacent a b l = true <-> exists l1 l2, l = l1 ++ a :: b :: l2.
Proof.
  split.
  - induction l as [|x l IH]; [discriminate|].
    destruct l as [|y l]; [discriminate|].
    change (adjacent a b (x :: y :: l))
      with ((String.eqb x a && String.eqb y b) || adjacent a b (y :: l)).
    intros [H|H]%orb_true_iff.
    + apply andb_true_iff in H as [Hx Hy].
      apply String.eqb_eq in Hx, Hy. subst. by exists [], l.
    + destruct (IH H) as (l1 & l2 & ->). by exists (x :: l1), l2.
  - intros (l1 & l2 & ->). induction l1 as [|x l1 IH].
    + apply adjacent_here.
    + apply adjacent_later, IH.
Qed.

(** The vector as a function of the source, the backend, the codec and the
    truth value of the surround flag alone. *)
Lemma build_ffmpeg_args_shape input_url config :
  build_ffmpeg_args input_url config =
  build_ffmpeg_args input_url
    {| backend := backend config; codec := codec config; bitrate_kbps := 0;
       surround51 := if c_true (surround51 config) then 1 else 0 |}.
Proof.
  destruct config as [b c br s]. unfold build_ffmpeg_args. simpl.
  destruct (c_true s); reflexivity.
Qed.

(** X1.  The vector never outgrows the 64 pointers [build_ffmpeg_args]
    allocates for it, the terminating [NULL] included. *)
Theorem build_ffmpeg_args_fits input_url config :
  (length (build_ffmpeg_args input_url config) < 64)%nat.
Proof.
  rewrite (build_ffmpeg_args_shape input_url config).
  destruct config as [b c br s]. cbn [backend codec surround51 bitrate_kbps].
  destruct (c_true s), b, c; unfold build_ffmpeg_args; simpl; lia.
Qed.

(** C5.  Two configurations that agree on backend, codec and surround flag
    give the same argument vector for every input source, whatever their
    [bitrate_kbps]: the field is never read. *)
Theorem bitrate_kbps_never_consulted input_url (cfg1 cfg2 : TranscodeConfig) :
  backend cfg1 = backend cfg2 ->
  codec cfg1 = codec cfg2 ->
  surround51 cfg1 = surround51 cfg2 ->
  build_ffmpeg_args input_url cfg1 = build_ffmpeg_args input_url cfg2.
Proof.
  intros Hb Hc Hs.
  rewrite (build_ffmpeg_args_shape _ cfg1), (build_ffmpeg_args_shape _ cfg2).
  by rewrite Hb, Hc, Hs.
Qed.

Lemma bitrate_kbps_never_consulted_witness :
  build_ffmpeg_args "http://127.0.0.1:18392/stream/5.1"
    (mkTranscodeConfig TRANSCODE_BACKEND_NVENC TRANSCODE_CODEC_HEVC 0 1)
  = build_ffmpeg_args "http://127.0.0.1:18392/stream/5.1"
    (mkTranscodeConfig TRANSCODE_BACKEND_NVENC TRANSCODE_CODEC_HEVC 8000 1).
Proof.
  apply (bitrate_kbps_never_consulted _
           (mkTranscodeConfig TRANSCODE_BACKEND_NVENC TRANSCODE_CODEC_HEVC 0 1)
           (mkTranscodeConfig TRANSCODE_BACKEND_NVENC TRANSCODE_CODEC_HEVC 8000 1));
    reflexivity.
Defined.

(** C6, as stated, fails for stream copy: with codec = copy the builder
    adds no audio argument at all, so neither the AAC encoder nor the
    stereo downmix is in the vector. *)
Lemma audio_rule_fails_for_copy :
  let config := mkTranscodeConfig TRANSCODE_BACKEND_SOFTWARE TRANSCODE_CODEC_COPY 0 0 in
  let args := build_ffmpeg_args "http://127.0.0.1:18392/stream/5.1" config in
  audio_rule args config = false
  /\ adjacent "-c:a" "aac" args = false
  /\ adjacent "-ac" "2" args = false
  /\ args = ["ffmpeg"; "-re"; "-i"; "http://127.0.0.1:18392/stream/5.1";
             "-c:v"; "copy"; "-f"; "mp4"; "-movflags";
             "frag_keyframe+empty_moov+default_base_moof"; "pipe:1"].
Proof. repeat split; reflexivity. Qed.

(** C6, amended.  For every configuration whose codec is not copy, the
    vector selects Opus when codec = av1 and AAC otherwise, and carries the
    5.1 remap filter with the surround bitrate when the surround flag is
    set, a downmix to 2 channels with the stereo bitrate otherwise; the
    audio block sits between the video arguments and the container
    arguments.  With codec = copy the vector is the device initialisation,
    the input, the video stream-copy directive and the container only. *)
Theorem audio_selection input_url (config : TranscodeConfig) :
  (codec config <> TRANSCODE_CODEC_COPY ->
     audio_rule (build_ffmpeg_args input_url config) config = true
     /\ exists video,
          build_ffmpeg_args input_url config =
            video
            ++ (if c_true (surround51 config)
                then ["-af"; "channelmap=channel_layout=5.1";
                      "-c:a"; audio_encoder (codec config)]
                     ++ (if decide (codec config = TRANSCODE_CODEC_AV1)
                         then ["-mapping_family"; "1"] else [])
                     ++ ["-b:a"; surround_bitrate (codec config)]
                else ["-ac"; "2"; "-c:a"; audio_encoder (codec config);
                      "-b:a"; default_audio_bitrate])
            ++ container (codec config))
  /\ (codec config = TRANSCODE_CODEC_COPY ->
        build_ffmpeg_args input_url config =
          ["ffmpeg"] ++ device_init (backend config)
          ++ ["-re"; "-i"; input_url; "-c:v"; "copy"]
          ++ container (codec config)).
Proof.
  rewrite (build_ffmpeg_args_shape input_url config).
  destruct config as [b c br s]. unfold audio_rule.
  cbn [backend codec surround51 bitrate_kbps].
  destruct (c_true s), b, c;
    (split; [intros Hc; try congruence; split | intros Hc; try discriminate Hc]).
  all: unfold build_ffmpeg_args; simpl.
  all: try by rewrite ?andb_false_r.
  all: try (match goal with
            | |- exists video, ?l = _ =>
                first
                  [ exists (take (length l - 13) l); reflexivity
                  | exists (take (length l - 11) l); reflexivity
                  | exists (take (length l - 9) l); reflexivity ]
            end).
Qed.

Lemma audio_selection_witness :
  let config := mkTranscodeConfig TRANSCODE_BACKEND_QSV TRANSCODE_CODEC_AV1 0 1 in
  audio_rule (build_ffmpeg_args "recordings/News-1.mp4" config) config = true.
Proof.
  intros config.
  destruct (audio_selection "recordings/News-1.mp4" config) as [H _].
  apply H. discriminate.
Defined.

(** C7.  For backend = vaapi, codec = hevc and the surround flag set, the
    vector holds, in this order, the vaapi format/upload filter, the encoder
    name [hevc_vaapi], the pair [-qp 23], the 5.1 channel-layout remap
    filter and the AAC surround bitrate; and for quick-sync and vaapi the
    device-initialisation pair comes before the [-i] input pair. *)
Theorem vaapi_hevc_surround_order input_url (config : TranscodeConfig) :
  (backend config = TRANSCODE_BACKEND_VAAPI ->
   codec config = TRANSCODE_CODEC_HEVC ->
   surround51 config <> 0 ->
   exists l0 l1 l2 l3 l4 l5,
     build_ffmpeg_args input_url config =
       l0 ++ ["format=nv12,hwupload"] ++ l1 ++ ["hevc_vaapi"] ++ l2
       ++ ["-qp"; "23"] ++ l3 ++ ["channelmap=channel_layout=5.1"] ++ l4
       ++ [default_aac_surround_bitrate] ++ l5)
  /\ (backend config = TRANSCODE_BACKEND_QSV
      \/ backend config = TRANSCODE_BACKEND_VAAPI ->
      exists device rest,
        build_ffmpeg_args input_url config =
          ["ffmpeg"] ++ ["-init_hw_device"; device]
          ++ ["-filter_hw_device"; match backend config with
                                   | TRANSCODE_BACKEND_QSV => "hw"
                                   | _ => "gpu"
                                   end]
          ++ ["-re"] ++ ["-i"; input_url] ++ rest).
Proof.
  destruct config as [b c br s]; simpl. split.
  - intros -> -> Hs.
    assert (c_true s = true) as Ht.
    { unfold c_true. by apply negb_true_iff, Z.eqb_neq. }
    unfold build_ffmpeg_args; simpl. rewrite Ht; simpl.
    exists ["ffmpeg"; "-init_hw_device"; "vaapi=gpu:/dev/dri/renderD128";
            "-filter_hw_device"; "gpu"; "-re"; "-i"; input_url; "-vf"],
           ["-c:v"], [], ["-af"], ["-c:a"; "aac"; "-b:a"],
           ["-f"; "mp4"; "-movflags";
            "frag_keyframe+empty_moov+default_base_moof"; "pipe:1"].
    reflexivity.
  - intros Hb.
    rewrite (build_ffmpeg_args_shape input_url (mkTranscodeConfig b c br s)).
    cbn [backend codec surround51 bitrate_kbps].
    destruct Hb as [-> | ->]; destruct c, (c_true s);
      unfold build_ffmpeg_args; simpl; eexists _, _; reflexivity.
Qed.

Lemma vaapi_hevc_surround_order_witness :
  let config := mkTranscodeConfig TRANSCODE_BACKEND_VAAPI TRANSCODE_CODEC_HEVC 0 1 in
  (exists l0 l1 l2 l3 l4 l5,
     build_ffmpeg_args "http://127.0.0.1:18392/stream/5.1" config =
       l0 ++ ["format=nv12,hwupload"] ++ l1 ++ ["hevc_vaapi"] ++ l2
       ++ ["-qp"; "23"] ++ l3 ++ ["channelmap=channel_layout=5.1"] ++ l4
       ++ [default_aac_surround_bitrate] ++ l5)
  /\ (exists device rest,
        build_ffmpeg_args "http://127.0.0.1:18392/stream/5.1" config =
          ["ffmpeg"] ++ ["-init_hw_device"; device]
          ++ ["-filter_hw_device"; "gpu"]
          ++ ["-re"] ++ ["-i"; "http://127.0.0.1:18392/stream/5.1"] ++ rest).
Proof.
  intros config.
  destruct (vaapi_hevc_surround_order "http://127.0.0.1:18392/stream/5.1" config)
    as [H1 H2].
  split.
  - apply H1; [reflexivity | reflexivity | simpl; lia].
  - apply H2. right. reflexivity.
Defined.

(** C8.  The builder is a function of its inputs: equal sources with
    configurations that agree on backend, codec and the truth value of the
    surround flag give equal vectors; in particular two calls on identical
    inputs do. *)
Theorem build_ffmpeg_args_deterministic
    (src1 src2 : string) (cfg1 cfg2 : TranscodeConfig) :
  src1 = src2 ->
  backend cfg1 = backend cfg2 ->
  codec cfg1 = codec cfg2 ->
  c_true (surround51 cfg1) = c_true (surround51 cfg2) ->
  build_ffmpeg_args src1 cfg1 = build_ffmpeg_args src2 cfg2.
Proof.
  intros -> Hb Hc Hs.
  rewrite (build_ffmpeg_args_shape _ cfg1), (build_ffmpeg_args_shape _ cfg2).
  by rewrite Hb, Hc, Hs.
Qed.

Lemma build_ffmpeg_args_deterministic_witness :
  build_ffmpeg_args "recordings/News-1.mp4"
    (mkTranscodeConfig TRANSCODE_BACKEND_QSV TRANSCODE_CODEC_H264 0 1)
  = build_ffmpeg_args "recordings/News-1.mp4"
    (mkTranscodeConfig TRANSCODE_BACKEND_QSV TRANSCODE_CODEC_H264 0 1).
Proof.
  apply (build_ffmpeg_args_deterministic
           "recordings/News-1.mp4" "recordings/News-1.mp4"
           (mkTranscodeConfig TRANSCODE_BACKEND_QSV TRANSCODE_CODEC_H264 0 1)
           (mkTranscodeConfig TRANSCODE_BACKEND_QSV TRANSCODE_CODEC_H264 0 1));
    reflexivity.
Defined.

End ArgumentBuilder.

(* ===================================================================== *)
(** * Properties of the stream dispatcher *)
(* ===================================================================== *)

Section Dispatcher.
Import Transcode Web.
Local Open Scope list_scope.

Lemma get_core_base_url_None core_url :
  Discovery.get_core_base_url core_url = None <-> core_url = EmptyString.
Proof.
  unfold Discovery.get_core_base_url. destruct core_url; simpl; split;
    congruence.
Qed.

Lemma get_core_base_url_Some core_url core :
  Discovery.get_core_base_url core_url = Some core ->
  core = core_url /\ core <> EmptyString.
Proof.
  unfold Discovery.get_core_base_url. destruct core_url; simpl; [discriminate|].
  intros [= <-]. split; [reflexivity | discriminate].
Qed.

(** A path cannot start with two different literals that differ in their
    second character. *)
Lemma prefix_inv c lit s :
  String.prefix (String c lit) s = true ->
  exists s', s = String c s' /\ String.prefix lit s' = true.
Proof.
  destruct s as [|a s]; simpl; [discriminate|].
  destruct (ascii_dec c a) as [<-|]; [|discriminate]. eauto.
Qed.

Lemma stream_not_api path :
  CString.starts_with "/stream/" path = true ->
  CString.starts_with "/api/" path = false.
Proof.
  unfold CString.starts_with. intros H.
  apply prefix_inv in H as (s1 & -> & H).
  apply prefix_inv in H as (s2 & -> & _). reflexivity.
Qed.

Lemma transcode_not_api_stream path :
  CString.starts_with "/transcode/" path = true ->
  CString.starts_with "/api/" path = false
  /\ CString.starts_with "/stream/" path = false.
Proof.
  unfold CString.starts_with. intros H.
  apply prefix_inv in H as (s1 & -> & H).
  apply prefix_inv in H as (s2 & -> & _). split; reflexivity.
Qed.

(** C9.  A live-view ([/stream/]) or ad-hoc transcode ([/transcode/])
    request that arrives while the discovery lookup returns absent is
    answered at once with 503 Service Unavailable and nothing else: no relay
    is invoked.  Whatever the state of discovery, every relay the two
    branches invoke is given a non-empty backend address, and 503 is sent in
    no other case. *)
Theorem undiscovered_backend_is_service_unavailable
    (core_url : string) (app_config : AppConfig) (path : string) :
  CString.starts_with "/stream/" path = true
  \/ CString.starts_with "/transcode/" path = true ->
  (Discovery.get_core_base_url core_url = None ->
     client_handler core_url app_config path = handled service_unavailable)
  /\ (forall actions,
        client_handler core_url app_config path = handled actions ->
        (forall core channel config,
            In (transcode_stream core channel config) actions ->
            Discovery.get_core_base_url core_url = Some core
            /\ core <> EmptyString
            /\ transcode_stream_input core channel <> EmptyString)
        /\ (forall text ctype len,
              In (send_headers 503 text ctype len) actions ->
              Discovery.get_core_base_url core_url = None)).
Proof.
  intros Hroute.
  assert (client_handler core_url app_config path =
          handled (if CString.starts_with "/stream/" path
                   then handle_stream core_url app_config path
                   else handle_transcode core_url path)) as Hh.
  { unfold client_handler. destruct Hroute as [H|H].
    - by rewrite (stream_not_api _ H), H.
    - destruct (transcode_not_api_stream _ H) as [-> ->]. by rewrite H. }
  rewrite Hh. clear Hh Hroute. split.
  - intros Hnone.
    unfold handle_stream, handle_transcode. rewrite Hnone.
    by destruct (CString.starts_with "/stream/" path).
  - intros actions [= <-].
    assert (forall core channel,
               core <> EmptyString ->
               transcode_stream_input core channel <> EmptyString) as Hinput.
    { intros [|c core] channel Hne; [congruence|]. discriminate. }
    unfold handle_stream, handle_transcode.
    destruct (Discovery.get_core_base_url core_url) as [core0|] eqn:Hcore.
    + destruct (get_core_base_url_Some _ _ Hcore) as [-> Hne].
      destruct (CString.starts_with "/stream/" path);
        [|destruct (String.length _ =? 0)%nat];
        (split; [intros core channel config Hin | intros text ctype len Hin]);
        simpl in Hin;
        repeat (destruct Hin as [Hin|Hin]; try discriminate Hin);
        try contradiction;
        injection Hin as <- <- <-; auto.
    + destruct (CString.starts_with "/stream/" path);
        (split; [intros core channel config Hin | intros text ctype len Hin]);
        simpl in Hin;
        repeat (destruct Hin as [Hin|Hin]; try discriminate Hin);
        try contradiction; reflexivity.
Qed.

Lemma undiscovered_backend_is_service_unavailable_witness :
  client_handler EmptyString (mkAppConfig "vaapi" "hevc") "/transcode/qsv/av1/5.1"
  = handled service_unavailable.
Proof.
  destruct (undiscovered_backend_is_service_unavailable
              EmptyString (mkAppConfig "vaapi" "hevc") "/transcode/qsv/av1/5.1")
    as [H _].
  - right. reflexivity.
  - apply H. reflexivity.
Defined.

End Dispatcher.

(* ===================================================================== *)
(** * Properties of the slot table and the scheduler *)
(* ===================================================================== *)

Section SchedulerSteps.
Import Scheduler SlotTable.
Local Open Scope list_scope.
Local Open Scope sched_scope.

(** The monad's equations. *)
Lemma bind_run {A B} (m : M A) (k : A -> M B) w :
  bind m k w = k (fst (m w)) (snd (m w)).
Proof. reflexivity. Qed.

Lemma for_each_cons {A} (x : A) l body w :
  for_each (x :: l) body w = for_each l body (snd (body x w)).
Proof. reflexivity. Qed.

(** A property of worlds kept by every round of a loop is kept by the
    loop. *)
Lemma for_each_preserves {A} (P : World -> Prop) (l : list A) body :
  (forall x w, P w -> P (snd (body x w))) ->
  forall w, P w -> P (snd (for_each l body w)).
Proof.
  intros Hbody. induction l as [|x l IH]; intros w Hw; [exact Hw|].
  rewrite for_each_cons. apply IH, Hbody, Hw.
Qed.

(** *** The second loop, slot by slot *)

Lemma check_slot_empty now_ms j w :
  (forall a, active_recordings w !! j = Some a -> pid a = 0) ->
  check_slot now_ms j w = (tt, w).
Proof.
  intros H. unfold check_slot, bind, read_slots, ret. simpl.
  destruct (active_recordings w !! j) as [a|] eqn:Hj; [|reflexivity].
  by rewrite (H a eq_refl).
Qed.

(** What the expiry branch does, exactly: SIGTERM, a blocking wait, the
    slot's [pid] and [timer_id] cleared, and then one [db_delete_timer]
    whose argument is read back from the slot just cleared. *)
Lemma check_slot_expired now_ms j w a :
  active_recordings w !! j = Some a ->
  pid a <> 0 ->
  end_time a <= now_ms ->
  check_slot now_ms j w =
    (tt,
     {| active_recordings :=
          alter (with_timer_id 0) j (alter (with_pid 0) j (active_recordings w));
        db := snd (Db.db_delete_timer 0 (db w));
        os := snd (Os.waitpid (pid a) Os.WAIT_BLOCK
                     (snd (Os.kill (pid a) Os.SIGTERM (os w))));
        calls := calls w ++ [call_kill (pid a) Os.SIGTERM;
                             call_waitpid (pid a) Os.WAIT_BLOCK;
                             call_db_delete_timer 0] |}).
Proof.
  intros Hj Hp He. unfold check_slot. rewrite bind_run. simpl.
  rewrite Hj. apply Z.eqb_neq in Hp. rewrite Hp.
  apply Z.leb_le in He. rewrite He.
  unfold bind, kill, waitpid, set_pid, set_timer_id, db_delete_timer,
    called, on_os, on_db, write_slots, read_slots, ret. simpl.
  rewrite !list_lookup_alter, Hj.
  destruct (decide (j = j)); [|done]. simpl.
  by rewrite <- !app_assoc.
Qed.

(** What the liveness branch does. *)
Lemma check_slot_running now_ms j w a :
  active_recordings w !! j = Some a ->
  pid a <> 0 ->
  now_ms < end_time a ->
  check_slot now_ms j w =
    (tt,
     {| active_recordings :=
          if (fst (Os.waitpid (pid a) Os.WNOHANG (os w)) =? 0)%Z
          then active_recordings w
          else alter (with_timer_id 0) j
                 (alter (with_pid 0) j (active_recordings w));
        db := db w;
        os := snd (Os.waitpid (pid a) Os.WNOHANG (os w));
        calls := calls w ++ [call_waitpid (pid a) Os.WNOHANG] |}).
Proof.
  intros Hj Hp He. unfold check_slot. rewrite bind_run. simpl.
  rewrite Hj. apply Z.eqb_neq in Hp. rewrite Hp.
  assert ((end_time a <=? now_ms)%Z = false) as -> by (apply Z.leb_gt; lia).
  unfold bind, waitpid, set_pid, set_timer_id, called, on_os, write_slots,
    ret. simpl.
  by destruct (fst (Os.waitpid (pid a) Os.WNOHANG (os w)) =? 0)%Z.
Qed.

(** The table after one round of the second loop: untouched, or slot [j],
    which held a process, cleared. *)
Lemma check_slot_slots now_ms j w :
  active_recordings (snd (check_slot now_ms j w)) = active_recordings w
  \/ (occupied_at j w
      /\ active_recordings (snd (check_slot now_ms j w)) =
           alter (with_timer_id 0) j (alter (with_pid 0) j (active_recordings w))).
Proof.
  destruct (active_recordings w !! j) as [a|] eqn:Hj.
  2: { left. rewrite check_slot_empty; [done|]. intros a. by rewrite Hj. }
  destruct (decide (pid a = 0)) as [Hp|Hp].
  { left. rewrite check_slot_empty; [done|]. intros a'. rewrite Hj. congruence. }
  destruct (decide (end_time a <= now_ms)) as [He|He].
  - right. split; [by exists a|]. by rewrite (check_slot_expired _ _ _ a).
  - rewrite (check_slot_running _ _ _ a) by (done || lia). simpl.
    destruct (_ =? 0)%Z; [by left|]. right. split; [by exists a|done].
Qed.

(** *** The first loop, timer by timer *)

Lemma has_timer_true t slots :
  has_timer t slots = true <->
  exists j a, slots !! j = Some a /\ timer_id a = t.
Proof.
  unfold has_timer. rewrite existsb_exists. split.
  - intros (a & Hin & Ha). apply Z.eqb_eq in Ha.
    apply list_elem_of_In, list_elem_of_lookup in Hin as [j Hj]. eauto.
  - intros (j & a & Hj & Ha). exists a. split.
    + apply list_elem_of_In, list_elem_of_lookup. eauto.
    + by apply Z.eqb_eq.
Qed.

Lemma has_timer_false t slots :
  has_timer t slots = false ->
  forall j a, slots !! j = Some a -> timer_id a <> t.
Proof.
  intros Hf j a Hj Ha.
  assert (has_timer t slots = true) by (apply has_timer_true; eauto).
  congruence.
Qed.

(** A timer whose identity some slot carries is passed over: nothing is
    called, nothing changes. *)
Lemma start_recording_active now_ms t w :
  has_timer (Db.id t) (active_recordings w) = true ->
  start_recording now_ms t w = (tt, w).
Proof.
  intros H. unfold start_recording. rewrite bind_run.
  unfold is_active, bind, read_slots, ret. simpl.
  by rewrite H.
Qed.

(** What the first loop does for a timer no slot carries. *)
Lemma start_recording_inactive now_ms t w :
  has_timer (Db.id t) (active_recordings w) = false ->
  let filename := recording_filename (Db.title t) now_ms in
  let rec_id :=
    fst (Db.db_add_recording_entry (Db.title t) (Db.channel_num t) now_ms 0
                                   filename (db w)) in
  let p := fst (Os.fork (ffmpeg_argv (Db.channel_num t) filename) (os w)) in
  start_recording now_ms t w =
    if (rec_id =? -1)%Z then
      (tt, {| active_recordings := active_recordings w;
              db := snd (Db.db_add_recording_entry (Db.title t)
                           (Db.channel_num t) now_ms 0 filename (db w));
              os := os w;
              calls := calls (after_failed_insert now_ms t w) |})
    else if (0 <? p)%Z then
      populate t rec_id p filename (after_fork now_ms t w)
    else (tt, after_fork now_ms t w).
Proof.
  intros H filename rec_id p. unfold start_recording. rewrite bind_run.
  unfold is_active at 1. unfold bind at 1. unfold read_slots, ret. simpl.
  rewrite H.
  unfold bind, mkdir, db_add_recording_entry, fork, called, on_db, on_os, ret.
  simpl. fold filename. fold rec_id.
  destruct (rec_id =? -1)%Z.
  - unfold after_failed_insert. simpl. by rewrite <- !app_assoc.
  - unfold after_fork. fold filename. simpl.
    rewrite <- !app_assoc. simpl. subst p.
    by destruct (0 <? _)%Z.
Qed.

(** [populate] writes the first slot without a process, if there is one. *)
Lemma populate_run t rec_id p filename w :
  populate t rec_id p filename w =
    (tt,
     match list_find (fun a => pid a = 0) (active_recordings w) with
     | Some (j, _) =>
         {| active_recordings :=
              <[j := {| timer_id := Db.id t; recording_id := rec_id; pid := p;
                        end_time := Db.end_time t;
                        path := CString.truncate 255 filename |}]>
                (active_recordings w);
            db := db w; os := os w; calls := calls w |}
     | None => w
     end).
Proof.
  unfold populate, bind, read_slots, write_slots, ret. simpl.
  by destruct (list_find _ _) as [[j a]|].
Qed.

(** The table after one round of the first loop: untouched, or the first
    free slot written with a live process for a timer that no slot
    carried. *)
Lemma start_recording_slots now_ms t w :
  active_recordings (snd (start_recording now_ms t w)) = active_recordings w
  \/ (has_timer (Db.id t) (active_recordings w) = false
      /\ exists j a new,
           list_find (fun a => pid a = 0) (active_recordings w) = Some (j, a)
           /\ timer_id new = Db.id t /\ 0 < pid new
           /\ active_recordings (snd (start_recording now_ms t w)) =
                <[j := new]> (active_recordings w)).
Proof.
  destruct (has_timer (Db.id t) (active_recordings w)) eqn:Hact.
  { left. by rewrite start_recording_active. }
  rewrite (start_recording_inactive _ _ _ Hact).
  destruct (_ =? -1)%Z; [by left|].
  destruct (0 <? _)%Z eqn:Hp; [|by left].
  rewrite populate_run. simpl.
  destruct (list_find _ _) as [[j a]|] eqn:Hfind; [|by left].
  right. split; [done|].
  match goal with
  | |- context [ <[j := ?new]> _ ] => exists j, a, new
  end.
  split; [done|]. split; [reflexivity|]. split; [|reflexivity].
  simpl. by apply Z.ltb_lt.
Qed.

(** *** Manual stop *)

Lemma stop_recording_found recording w j a :
  list_find (fun a => recording_id a = recording /\ pid a <> 0)
            (active_recordings w) = Some (j, a) ->
  stop_recording recording w =
    (1,
     {| active_recordings := alter (with_pid 0) j (active_recordings w);
        db := db w;
        os := snd (Os.waitpid (pid a) Os.WAIT_BLOCK
                     (snd (Os.kill (pid a) Os.SIGTERM (os w))));
        calls := calls w ++ [call_kill (pid a) Os.SIGTERM;
                             call_waitpid (pid a) Os.WAIT_BLOCK] |}).
Proof.
  intros H. unfold stop_recording. rewrite bind_run.
  unfold read_slots at 1. simpl. rewrite H.
  unfold bind, kill, waitpid, set_pid, called, on_os, write_slots, ret. simpl.
  by rewrite <- !app_assoc.
Qed.

Lemma stop_recording_not_found recording w :
  list_find (fun a => recording_id a = recording /\ pid a <> 0)
            (active_recordings w) = None ->
  stop_recording recording w = (0, w).
Proof.
  intros H. unfold stop_recording. rewrite bind_run.
  unfold read_slots at 1. simpl. by rewrite H.
Qed.

(** *** The passes *)

Lemma due_timer_scan_run now_ms w :
  due_timer_scan now_ms w =
    let w1 := {| active_recordings := active_recordings w; db := db w;
                 os := os w;
                 calls := calls w ++ [call_db_get_pending_timers now_ms] |} in
    match Db.db_get_pending_timers now_ms (db w) with
    | Some timers => for_each timers (start_recording now_ms) w1
    | None => (tt, w1)
    end.
Proof.
  unfold due_timer_scan, db_get_pending_timers, bind, called, on_db. simpl.
  destruct w as [slots d s c]; simpl.
  by destruct (Db.db_get_pending_timers now_ms d).
Qed.

Lemma scheduler_pass_run now_sec w :
  scheduler_pass now_sec w =
    finished_scan (now_sec * 1000)
      (snd (due_timer_scan (now_sec * 1000) w)).
Proof. reflexivity. Qed.

(** A property of the table alone that every round of both loops keeps is
    kept by a whole pass. *)
Lemma scheduler_pass_preserves (P : list ActiveRecording -> Prop) :
  (forall now_ms t w, P (active_recordings w) ->
                      P (active_recordings (snd (start_recording now_ms t w)))) ->
  (forall now_ms j w, P (active_recordings w) ->
                      P (active_recordings (snd (check_slot now_ms j w)))) ->
  forall now_sec w, P (active_recordings w) ->
                    P (active_recordings (snd (scheduler_pass now_sec w))).
Proof.
  intros Hstart Hcheck now_sec w Hw. rewrite scheduler_pass_run.
  apply (for_each_preserves (fun w => P (active_recordings w))); [by auto|].
  rewrite due_timer_scan_run. cbv zeta.
  destruct (Db.db_get_pending_timers _ _) as [timers|]; [|exact Hw].
  apply (for_each_preserves (fun w => P (active_recordings w))); [by auto|].
  exact Hw.
Qed.

(** *** No timer in two occupied slots *)

(** Clearing slots keeps the invariant: every occupied slot of the new
    table was occupied, by the same timer, in the old one. *)
Lemma no_shared_timer_cleared (l l' : list ActiveRecording) :
  no_shared_timer l ->
  (forall i a', l' !! i = Some a' -> pid a' <> 0 ->
                exists a, l !! i = Some a /\ pid a <> 0
                          /\ timer_id a = timer_id a') ->
  no_shared_timer l'.
Proof.
  intros Hl Hsub i j a b Hij Hi Hj Ha Hb.
  destruct (Hsub _ _ Hi Ha) as (a0 & Hi0 & Ha0 & <-).
  destruct (Hsub _ _ Hj Hb) as (b0 & Hj0 & Hb0 & <-).
  by apply (Hl i j).
Qed.

Lemma cleared_pid (l : list ActiveRecording) j i a' :
  alter (with_pid 0) j l !! i = Some a' -> pid a' <> 0 ->
  l !! i = Some a' /\ i <> j.
Proof.
  rewrite list_lookup_alter. case_decide as Hji; [subst|].
  - destruct (l !! i) as [a|]; simpl; [|done]. intros [= <-]. simpl. lia.
  - intros. split; [done|congruence].
Qed.

Lemma cleared_slot (l : list ActiveRecording) j i a' :
  alter (with_timer_id 0) j (alter (with_pid 0) j l) !! i = Some a' ->
  pid a' <> 0 ->
  l !! i = Some a' /\ i <> j.
Proof.
  rewrite list_lookup_alter. case_decide as Hji; [subst|].
  - rewrite list_lookup_alter_eq.
    destruct (l !! i) as [a|]; simpl; [|done]. intros [= <-]. simpl. lia.
  - rewrite list_lookup_alter_ne by done. intros. split; [done|congruence].
Qed.

Lemma no_shared_timer_written (l : list ActiveRecording) j new :
  no_shared_timer l ->
  has_timer (timer_id new) l = false ->
  no_shared_timer (<[j := new]> l).
Proof.
  intros Hl Hnone i i' a b Hii Hi Hi' Ha Hb.
  apply list_lookup_insert_Some in Hi as [(-> & -> & _)|[Hne Hi]];
    apply list_lookup_insert_Some in Hi' as [(-> & -> & _)|[Hne' Hi']];
    try congruence.
  - intros Heq. by apply (has_timer_false _ _ Hnone _ _ Hi').
  - by apply (has_timer_false _ _ Hnone _ _ Hi).
  - by apply (Hl i i').
Qed.

Lemma start_recording_no_shared_timer now_ms t w :
  no_shared_timer (active_recordings w) ->
  no_shared_timer (active_recordings (snd (start_recording now_ms t w))).
Proof.
  intros Hw.
  destruct (start_recording_slots now_ms t w)
    as [->|(Hnone & j & a & new & _ & Hnew & _ & ->)]; [done|].
  apply no_shared_timer_written; [done|]. by rewrite Hnew.
Qed.

Lemma check_slot_no_shared_timer now_ms j w :
  no_shared_timer (active_recordings w) ->
  no_shared_timer (active_recordings (snd (check_slot now_ms j w))).
Proof.
  intros Hw. destruct (check_slot_slots now_ms j w) as [->|[_ ->]]; [done|].
  apply (no_shared_timer_cleared _ _ Hw). intros i a' Hi Ha'.
  destruct (cleared_slot _ _ _ _ Hi Ha'). eauto.
Qed.

Lemma stop_recording_slots recording w :
  active_recordings (snd (stop_recording recording w)) = active_recordings w
  \/ exists j, active_recordings (snd (stop_recording recording w)) =
                 alter (with_pid 0) j (active_recordings w).
Proof.
  destruct (list_find (fun a => recording_id a = recording /\ pid a <> 0)
                      (active_recordings w)) as [[j a]|] eqn:Hfind.
  - right. exists j. by rewrite (stop_recording_found _ _ _ _ Hfind).
  - left. by rewrite (stop_recording_not_found _ _ Hfind).
Qed.

Lemma stop_recording_no_shared_timer recording w :
  no_shared_timer (active_recordings w) ->
  no_shared_timer (active_recordings (snd (stop_recording recording w))).
Proof.
  intros Hw. destruct (stop_recording_slots recording w) as [->|[j ->]]; [done|].
  apply (no_shared_timer_cleared _ _ Hw). intros i a' Hi Ha'.
  destruct (cleared_pid _ _ _ _ Hi Ha'). eauto.
Qed.

Lemma reachable_no_shared_timer w :
  reachable w -> no_shared_timer (active_recordings w).
Proof.
  induction 1 as [d s|w now_sec _ IH|w now_ms t _ IH|w now_ms j _ IH
                  |w recording _ IH|w d s _ IH].
  - intros i j a b _ Hi _ Ha. apply lookup_replicate_1 in Hi as [-> _].
    by destruct Ha.
  - apply (scheduler_pass_preserves no_shared_timer); [| |done].
    + apply start_recording_no_shared_timer.
    + apply check_slot_no_shared_timer.
  - by apply start_recording_no_shared_timer.
  - by apply check_slot_no_shared_timer.
  - by apply stop_recording_no_shared_timer.
  - done.
Qed.

(** The table always has its sixteen entries, so the loops over
    [0 .. MAX_ACTIVE_RECORDINGS - 1] and the searches over the whole list
    visit the same slots. *)
Lemma start_recording_length now_ms t w :
  length (active_recordings (snd (start_recording now_ms t w)))
  = length (active_recordings w).
Proof.
  destruct (start_recording_slots now_ms t w)
    as [->|(_ & j & a & new & _ & _ & _ & ->)]; [done|].
  by rewrite length_insert.
Qed.

Lemma check_slot_length now_ms j w :
  length (active_recordings (snd (check_slot now_ms j w)))
  = length (active_recordings w).
Proof.
  destruct (check_slot_slots now_ms j w) as [->|[_ ->]]; [done|].
  by rewrite !length_alter.
Qed.

Lemma reachable_length w :
  reachable w -> length (active_recordings w) = MAX_ACTIVE_RECORDINGS.
Proof.
  induction 1 as [d s|w now_sec _ IH|w now_ms t _ IH|w now_ms j _ IH
                  |w recording _ IH|w d s _ IH].
  - apply length_replicate.
  - apply (scheduler_pass_preserves
             (fun l => length l = MAX_ACTIVE_RECORDINGS)); [| |done].
    + intros now_ms t w0 Hw0. by rewrite start_recording_length.
    + intros now_ms j w0 Hw0. by rewrite check_slot_length.
  - by rewrite start_recording_length.
  - by rewrite check_slot_length.
  - destruct (stop_recording_slots recording w) as [->|[j ->]]; [done|].
    by rewrite length_alter.
  - done.
Qed.

(** X2.  In every reachable world the table has its sixteen entries, and
    [get_active_recording_count] never reports more than
    [MAX_ACTIVE_RECORDINGS] recordings. *)
Theorem active_count_bounded w :
  reachable w ->
  length (active_recordings w) = MAX_ACTIVE_RECORDINGS
  /\ 0 <= fst (get_active_recording_count w) <= Z.of_nat MAX_ACTIVE_RECORDINGS.
Proof.
  intros Hw. split; [by apply reachable_length|].
  unfold get_active_recording_count, bind, read_slots, ret. simpl.
  rewrite <- (reachable_length w Hw). split; [lia|].
  apply inj_le, filter_length_le.
Qed.

Lemma active_count_bounded_witness :
  length (active_recordings crowd_after_pass) = 16%nat
  /\ 0 <= fst (get_active_recording_count crowd_after_pass) <= 16.
Proof.
  apply (active_count_bounded crowd_after_pass).
  apply reachable_pass, reachable_start.
Defined.

(** X3.  The liveness branch: for an occupied slot whose scheduled end has
    not come, one non-blocking [waitpid] is made.  If the child has exited
    it is reaped and the slot is emptied: its [pid] and its [timer_id] are
    0 afterwards, its other fields and the other slots are as before.  If
    the child still runs the table is left alone.  In both cases the
    database is untouched: no timer is deleted. *)
Theorem early_exit_is_reaped now_ms j w a p :
  active_recordings w !! j = Some a ->
  pid a <> 0 ->
  now_ms < end_time a ->
  Os.children (os w) !! pid a = Some p ->
  let w' := snd (check_slot now_ms j w) in
  calls w' = calls w ++ [call_waitpid (pid a) Os.WNOHANG]
  /\ db w' = db w
  /\ match Os.status p with
     | Os.Exited =>
         active_recordings w' !! j =
           Some {| timer_id := 0; recording_id := recording_id a; pid := 0;
                   end_time := end_time a; path := path a |}
         /\ (forall i, i <> j ->
                       active_recordings w' !! i = active_recordings w !! i)
         /\ Os.children (os w') = delete (pid a) (Os.children (os w))
     | Os.Running =>
         active_recordings w' = active_recordings w /\ os w' = os w
     end.
Proof.
  intros Hj Hp He Hchild w'. subst w'.
  rewrite (check_slot_running _ _ _ a) by done.
  cbn [snd calls db active_recordings os].
  split; [done|]. split; [done|].
  unfold Os.waitpid. rewrite Hchild.
  destruct (Os.status p); cbn [fst snd].
  - by rewrite Z.eqb_refl.
  - apply Z.eqb_neq in Hp. rewrite Hp. cbn [Os.children].
    split_and!; [|intros i Hi|done].
    + by rewrite list_lookup_alter_eq, list_lookup_alter_eq, Hj.
    + by rewrite !list_lookup_alter_ne.
Qed.

Lemma early_exit_is_reaped_witness :
  let crashed :=
    {| active_recordings := active_recordings scenario_recording;
       db := db scenario_recording;
       os := Os.child_exits 4001 (os scenario_recording);
       calls := calls scenario_recording |} in
  let w' := snd (check_slot (scenario_T * 1000 + 10000) 0 crashed) in
  List.filter occupied (active_recordings w') = []
  /\ Db.timers (db w') = [scenario_timer]
  /\ calls w' = calls scenario_recording ++ [call_waitpid 4001 Os.WNOHANG]
  /\ active_recordings w' !! 0%nat =
       Some {| timer_id := 0; recording_id := 1; pid := 0;
               end_time := scenario_T * 1000 + 600000;
               path := "recordings/Evening_News-1700000000000.mp4" |}.
Proof.
  intros crashed w'.
  destruct (early_exit_is_reaped (scenario_T * 1000 + 10000) 0 crashed
              {| timer_id := 1; recording_id := 1; pid := 4001;
                 end_time := scenario_T * 1000 + 600000;
                 path := "recordings/Evening_News-1700000000000.mp4" |}
              {| Os.argv := ffmpeg_argv "5.1"
                   "recordings/Evening_News-1700000000000.mp4";
                 Os.status := Os.Exited |})
    as (H1 & H2 & H3 & _);
    [vm_compute; reflexivity | discriminate | vm_compute; reflexivity
    | vm_compute; reflexivity |].
  fold w' in H1, H2, H3.
  split; [vm_compute; reflexivity|].
  split; [by rewrite H2|]. split; [exact H1 | exact H3].
Defined.

(** With every slot taken, a due timer that no slot carries still gets
    its directory call, its database row and its [fork]; the child's pid is
    then dropped, as no slot is free to take it. *)
Lemma start_recording_full_table now_ms t w :
  has_timer (Db.id t) (active_recordings w) = false ->
  list_find (fun a => pid a = 0) (active_recordings w) = None ->
  fst (Db.db_add_recording_entry (Db.title t) (Db.channel_num t) now_ms 0
         (recording_filename (Db.title t) now_ms) (db w)) <> -1 ->
  start_recording now_ms t w = (tt, after_fork now_ms t w).
Proof.
  intros Hact Hfull Hrow.
  rewrite (start_recording_inactive _ _ _ Hact).
  apply Z.eqb_neq in Hrow. rewrite Hrow.
  destruct (0 <? _)%Z; [|done].
  rewrite populate_run. unfold after_fork at 1. cbn [active_recordings].
  by rewrite Hfull.
Qed.

(** *** A slot that keeps its timer identity after its process is gone *)

Lemma retains_not_occupied j t w : retains j t w -> ~ occupied_at j w.
Proof. intros (a & Hj & _ & Hp) (a' & Hj' & Hp'). congruence. Qed.

Lemma check_slot_retains now_ms k j t w :
  retains j t w -> retains j t (snd (check_slot now_ms k w)).
Proof.
  intros Hr. unfold retains.
  destruct (check_slot_slots now_ms k w) as [->|[Hocc ->]]; [done|].
  destruct (decide (k = j)) as [->|Hkj].
  - by destruct (retains_not_occupied _ _ _ Hr).
  - by rewrite !list_lookup_alter_ne.
Qed.

Lemma finished_scan_retains now_ms j t w :
  retains j t w -> retains j t (snd (finished_scan now_ms w)).
Proof.
  apply (for_each_preserves (retains j t)). intros k w'.
  apply check_slot_retains.
Qed.

Lemma stop_recording_retains recording j t w :
  retains j t w -> retains j t (snd (stop_recording recording w)).
Proof.
  intros (a & Hj & Ht & Hp). unfold retains.
  destruct (stop_recording_slots recording w) as [->|[k ->]]; [by eauto|].
  destruct (decide (k = j)) as [->|Hkj].
  - rewrite list_lookup_alter_eq, Hj. exists (with_pid 0 a). by simpl.
  - rewrite list_lookup_alter_ne by done. by eauto.
Qed.

Lemma start_recording_retains now_ms tm j t w :
  retains j t w ->
  retains j t (snd (start_recording now_ms tm w))
  \/ occupied_at j (snd (start_recording now_ms tm w)).
Proof.
  intros (a & Hj & Ht & Hp). unfold retains, occupied_at.
  destruct (start_recording_slots now_ms tm w)
    as [->|(_ & k & a' & new & Hfind & _ & Hnew & ->)]; [left; by eauto|].
  destruct (decide (k = j)) as [->|Hkj].
  - right. exists new. split; [|lia].
    apply list_lookup_insert_eq. by apply lookup_lt_Some in Hj.
  - left. exists a. by rewrite list_lookup_insert_ne.
Qed.

Lemma start_recording_occupied now_ms tm j w :
  occupied_at j w -> occupied_at j (snd (start_recording now_ms tm w)).
Proof.
  intros (a & Hj & Hp). unfold occupied_at.
  destruct (start_recording_slots now_ms tm w)
    as [->|(_ & k & a' & new & Hfind & _ & Hnew & ->)]; [by eauto|].
  apply list_find_Some in Hfind as (Hk & Hfree & _).
  exists a. split; [|done]. rewrite list_lookup_insert_ne; [done|].
  intros ->. congruence.
Qed.

(** While the slot keeps the identity, a scan over any list of due timers
    runs exactly as it would without the timers of that identity. *)
Lemma scan_skips_retained now_ms j t timers :
  forall w,
    retains j t w ->
    retains j t (snd (for_each timers (start_recording now_ms) w)) ->
    for_each timers (start_recording now_ms) w =
    for_each (List.filter (fun tm => negb (Db.id tm =? t)%Z) timers)
             (start_recording now_ms) w.
Proof.
  induction timers as [|tm timers IH]; intros w Hr Hend; [done|].
  rewrite for_each_cons in Hend |- *. simpl List.filter.
  destruct (Db.id tm =? t)%Z eqn:Hid; simpl negb; cbv iota.
  - apply Z.eqb_eq in Hid.
    assert (start_recording now_ms tm w = (tt, w)) as Hskip.
    { apply start_recording_active, has_timer_true.
      destruct Hr as (a & Hj & Ht & _). exists j, a. split; congruence. }
    rewrite Hskip in Hend |- *. simpl. by apply IH.
  - rewrite for_each_cons.
    destruct (start_recording_retains now_ms tm j t w Hr) as [Hr'|Hocc].
    + by apply IH.
    + exfalso. apply (retains_not_occupied _ _ _ Hend).
      by apply (for_each_preserves (occupied_at j));
        [intros; apply start_recording_occupied|].
Qed.

(** *** What the passes can do to the timers table *)

Lemma start_recording_timers now_ms t w :
  Db.timers (db (snd (start_recording now_ms t w))) = Db.timers (db w).
Proof.
  destruct (has_timer (Db.id t) (active_recordings w)) eqn:Hact.
  { by rewrite start_recording_active. }
  rewrite (start_recording_inactive _ _ _ Hact).
  assert (forall title ch s e p d,
             Db.timers (snd (Db.db_add_recording_entry title ch s e p d))
             = Db.timers d) as Hadd.
  { intros. unfold Db.db_add_recording_entry. by destruct (Db.usable d). }
  destruct (_ =? -1)%Z; [apply Hadd|].
  destruct (0 <? _)%Z; [|apply Hadd].
  rewrite populate_run. simpl.
  destruct (list_find _ _) as [[j a]|]; apply Hadd.
Qed.

Lemma check_slot_timers now_ms j w :
  Db.timers (db (snd (check_slot now_ms j w))) = Db.timers (db w)
  \/ Db.timers (db (snd (check_slot now_ms j w))) =
       List.filter (fun t => negb (Db.id t =? 0)%Z) (Db.timers (db w)).
Proof.
  destruct (active_recordings w !! j) as [a|] eqn:Hj.
  2: { left. rewrite check_slot_empty; [done|]. intros a. by rewrite Hj. }
  destruct (decide (pid a = 0)) as [Hp|Hp].
  { left. rewrite check_slot_empty; [done|]. intros a'. rewrite Hj. congruence. }
  destruct (decide (end_time a <= now_ms)) as [He|He].
  - rewrite (check_slot_expired _ _ _ a) by done. simpl.
    unfold Db.db_delete_timer. destruct (Db.usable (db w)); [by right|by left].
  - left. by rewrite (check_slot_running _ _ _ a) by (done || lia).
Qed.

(** Whatever the table holds, a pass removes no timer whose identity is
    not 0. *)
Lemma scheduler_pass_keeps_timers now_sec w t :
  In t (Db.timers (db w)) -> Db.id t <> 0 ->
  In t (Db.timers (db (snd (scheduler_pass now_sec w)))).
Proof.
  intros Hin Hid. rewrite scheduler_pass_run.
  apply (for_each_preserves (fun w => In t (Db.timers (db w)))).
  - intros j w0 Hw0.
    destruct (check_slot_timers (now_sec * 1000) j w0) as [->| ->]; [done|].
    apply filter_In. split; [done|]. by apply negb_true_iff, Z.eqb_neq.
  - rewrite due_timer_scan_run. cbv zeta.
    destruct (Db.db_get_pending_timers _ _) as [timers|]; [|done].
    apply (for_each_preserves (fun w => In t (Db.timers (db w)))); [|done].
    intros tm w0 Hw0. by rewrite start_recording_timers.
Qed.

End SchedulerSteps.

Section SchedulerClaims.
Import Scheduler SlotTable.
Local Open Scope list_scope.
Local Open Scope sched_scope.

(** C3.  In every world the server can reach, no timer identity sits in
    two occupied slots; and a due timer whose identity an occupied slot
    already carries is passed over by the first loop: no directory call, no
    database row, no [fork], no change to the table. *)
Theorem no_timer_in_two_slots (w : World) :
  reachable w ->
  no_shared_timer (active_recordings w)
  /\ forall now_ms t j a,
       active_recordings w !! j = Some a -> pid a <> 0 ->
       timer_id a = Db.id t ->
       start_recording now_ms t w = (tt, w).
Proof.
  intros Hw. split; [by apply reachable_no_shared_timer|].
  intros now_ms t j a Hj _ Ha. apply start_recording_active.
  apply has_timer_true. eauto.
Qed.

Lemma no_timer_in_two_slots_witness :
  no_shared_timer (active_recordings crowd_after_pass)
  /\ start_recording (scenario_T * 1000 + 10000) (crowd_timer 3) crowd_after_pass
     = (tt, crowd_after_pass).
Proof.
  destruct (no_timer_in_two_slots crowd_after_pass) as [H1 H2].
  - apply reachable_pass, reachable_start.
  - split; [exact H1|].
    apply (H2 _ (crowd_timer 3) 2%nat
              {| timer_id := 3; recording_id := 3; pid := 4003;
                 end_time := scenario_T * 1000 + 600000;
                 path := "recordings/Show_3-1700000000000.mp4" |});
      [vm_compute; reflexivity | discriminate | reflexivity].
Defined.

(** C4.  [stop_recording] returns 1 exactly when some slot holds the
    recording identity together with a process.  In that case it sends
    SIGTERM to that process, waits for it, and clears the slot's [pid]:
    afterwards the slot's [pid] is 0, its other fields and the other slots
    are as before; these are its only calls.  Otherwise it returns 0 and leaves the world
    as it was.  Either way the database is untouched: no timer is deleted
    and no recording row is written. *)
Theorem stop_recording_found_exactly (recording : Z) (w : World) :
  let found := fst (stop_recording recording w) in
  let w' := snd (stop_recording recording w) in
  (found = 1 <->
     exists j a, active_recordings w !! j = Some a
                 /\ recording_id a = recording /\ pid a <> 0)
  /\ (found = 1 ->
        exists j a,
          active_recordings w !! j = Some a
          /\ recording_id a = recording /\ pid a <> 0
          /\ calls w' = calls w ++ [call_kill (pid a) Os.SIGTERM;
                                    call_waitpid (pid a) Os.WAIT_BLOCK]
          /\ active_recordings w' =
               <[j := {| timer_id := timer_id a;
                         recording_id := recording_id a; pid := 0;
                         end_time := end_time a; path := path a |}]>
                 (active_recordings w)
          /\ active_recordings w' !! j =
               Some {| timer_id := timer_id a;
                       recording_id := recording_id a; pid := 0;
                       end_time := end_time a; path := path a |}
          /\ (forall i, i <> j ->
                        active_recordings w' !! i = active_recordings w !! i))
  /\ (found <> 1 -> found = 0 /\ w' = w)
  /\ db w' = db w.
Proof.
  intros found w'. subst found w'.
  destruct (list_find (fun a => recording_id a = recording /\ pid a <> 0)
                      (active_recordings w)) as [[j a]|] eqn:Hfind.
  - rewrite (stop_recording_found _ _ _ _ Hfind). simpl.
    apply list_find_Some in Hfind as (Hj & [Hr Hp] & _).
    split_and!; [split; eauto | | done | done].
    intros _. exists j, a. split_and!; try done.
    + apply list_eq. intros i. destruct (decide (i = j)) as [->|Hi].
      * rewrite list_lookup_alter_eq, Hj, list_lookup_insert_eq; [done|].
        by apply lookup_lt_Some in Hj.
      * by rewrite list_lookup_alter_ne, list_lookup_insert_ne.
    + by rewrite list_lookup_alter_eq, Hj.
    + intros i Hi. by rewrite list_lookup_alter_ne.
  - rewrite (stop_recording_not_found _ _ Hfind). simpl.
    apply list_find_None in Hfind.
    split_and!; [split; [done|] | done | done | done].
    intros (j & a & Hj & Hr & Hp). exfalso.
    apply list_elem_of_lookup_2 in Hj.
    rewrite Forall_forall in Hfind. by apply (Hfind a Hj).
Qed.

Lemma stop_recording_found_exactly_witness :
  fst (stop_recording 1 scenario_recording) = 1
  /\ fst (stop_recording 2 scenario_recording) = 0
  /\ snd (stop_recording 2 scenario_recording) = scenario_recording
  /\ db (snd (stop_recording 1 scenario_recording)) = db scenario_recording
  /\ (exists j a,
        active_recordings (snd (stop_recording 1 scenario_recording)) !! j
          = Some a
        /\ recording_id a = 1 /\ pid a = 0)
  /\ active_recordings (snd (stop_recording 1 scenario_recording)) !! 0%nat
     = Some {| timer_id := 1; recording_id := 1; pid := 0;
               end_time := scenario_T * 1000 + 600000;
               path := "recordings/Evening_News-1700000000000.mp4" |}.
Proof.
  destruct (stop_recording_found_exactly 1 scenario_recording)
    as (H1 & H2 & _ & H4).
  destruct (stop_recording_found_exactly 2 scenario_recording)
    as (_ & _ & H3 & _).
  split.
  - apply H1. exists 0%nat.
    exists {| timer_id := 1; recording_id := 1; pid := 4001;
              end_time := scenario_T * 1000 + 600000;
              path := "recordings/Evening_News-1700000000000.mp4" |}.
    split; [vm_compute; reflexivity|]. split; [reflexivity | discriminate].
  - destruct H3 as [H3 H3']; [vm_compute; discriminate|].
    split; [exact H3|]. split; [exact H3'|]. split; [exact H4|].
    split; [|vm_compute; reflexivity].
    destruct H2 as (j & a & _ & Hr & _ & _ & _ & Hj & _);
      [vm_compute; reflexivity|].
    exists j. eexists. split; [exact Hj|]. split; [exact Hr | reflexivity].
Defined.

(** C10.  After a successful [stop_recording] of the recording in slot
    [j], started from timer [t], the slot still carries [t] with its [pid]
    cleared.  In any world where slot [j] is in that state, the first loop
    passes over every timer of identity [t] without calling anything,
    whatever the timer's window; a scan after which the slot is still in
    that state ran as if no timer of identity [t] had been due; and the
    state is left only by the first loop writing a new recording into slot
    [j]: the second loop, further stops and outside changes keep it. *)
Theorem stopped_timer_is_not_restarted (recording : Z) (w : World) j a :
  list_find (fun a => recording_id a = recording /\ pid a <> 0)
            (active_recordings w) = Some (j, a) ->
  let t := timer_id a in
  fst (stop_recording recording w) = 1
  /\ retains j t (snd (stop_recording recording w))
  /\ forall w',
       retains j t w' ->
       (forall now_ms tm, Db.id tm = t ->
                          start_recording now_ms tm w' = (tt, w'))
       /\ (forall now_ms timers,
             retains j t (snd (for_each timers (start_recording now_ms) w')) ->
             for_each timers (start_recording now_ms) w' =
             for_each (List.filter (fun tm => negb (Db.id tm =? t)%Z) timers)
                      (start_recording now_ms) w')
       /\ (forall now_ms tm,
             retains j t (snd (start_recording now_ms tm w'))
             \/ occupied_at j (snd (start_recording now_ms tm w')))
       /\ (forall now_ms, retains j t (snd (finished_scan now_ms w')))
       /\ (forall r, retains j t (snd (stop_recording r w')))
       /\ (forall d s,
             retains j t {| active_recordings := active_recordings w';
                            db := d; os := s; calls := calls w' |}).
Proof.
  intros Hfind t. rewrite (stop_recording_found _ _ _ _ Hfind).
  cbn [fst snd active_recordings].
  apply list_find_Some in Hfind as (Hj & _ & _).
  split; [done|]. split.
  { exists (with_pid 0 a). cbn [active_recordings].
    by rewrite list_lookup_alter_eq, Hj. }
  intros w' Hr. split_and!.
  - intros now_ms tm Htm. apply start_recording_active, has_timer_true.
    destruct Hr as (a' & Hj' & Ht & _). exists j, a'. split; congruence.
  - intros now_ms timers. by apply scan_skips_retained.
  - intros now_ms tm. by apply start_recording_retains.
  - intros now_ms. by apply finished_scan_retains.
  - intros r. by apply stop_recording_retains.
  - intros d s. exact Hr.
Qed.

Lemma stopped_timer_is_not_restarted_witness :
  fst (stop_recording 1 scenario_recording) = 1
  /\ retains 0 1 (snd (stop_recording 1 scenario_recording))
  /\ start_recording (scenario_T * 1000 + 10000) scenario_timer
                     (snd (stop_recording 1 scenario_recording))
     = (tt, snd (stop_recording 1 scenario_recording)).
Proof.
  destruct (stopped_timer_is_not_restarted 1 scenario_recording 0%nat
              {| timer_id := 1; recording_id := 1; pid := 4001;
                 end_time := scenario_T * 1000 + 600000;
                 path := "recordings/Evening_News-1700000000000.mp4" |})
    as (H1 & H2 & H3).
  - vm_compute. reflexivity.
  - split; [exact H1|]. split; [exact H2|].
    destruct (H3 _ H2) as [H4 _]. apply H4. reflexivity.
Defined.

(** C1: the pass at the scheduled end of scenario A.  The recording of
    timer 1 runs in slot 0 as process 4001.  The pass sends it SIGTERM,
    waits for it and empties the slot, and then calls [db_delete_timer]
    with 0, the value the slot's [timer_id] was reset to just before: timer
    1 is still in the timers table.  It is out of the due-timer query only
    because its window has closed. *)
Theorem expiry_deletes_timer_zero :
  active_recordings scenario_recording !! 0%nat =
    Some {| timer_id := 1; recording_id := 1; pid := 4001;
            end_time := scenario_T * 1000 + 600000;
            path := "recordings/Evening_News-1700000000000.mp4" |}
  /\ calls scenario_expired =
       calls scenario_recording
       ++ [call_db_get_pending_timers (scenario_T * 1000 + 600000);
           call_kill 4001 Os.SIGTERM;
           call_waitpid 4001 Os.WAIT_BLOCK;
           call_db_delete_timer 0]
  /\ List.filter occupied (active_recordings scenario_expired) = []
  /\ Db.timers (db scenario_expired) = [scenario_timer]
  /\ Db.db_get_pending_timers (scenario_T * 1000 + 600000)
                              (db scenario_expired) = Some [].
Proof. vm_compute. repeat split; reflexivity. Qed.

(** C2: seventeen timers due in one pass over an empty table.  All
    sixteen slots are written; for the seventeenth timer the pass still
    inserts a recording row and forks an encoder, and only then finds no
    slot for it: seventeen children run, and process 4017 is in no slot.
    The next pass does the same again for that timer. *)
Theorem full_table_still_forks :
  length (List.filter occupied (active_recordings crowd_after_pass)) = 16%nat
  /\ length (running_children crowd_after_pass) = 17%nat
  /\ List.filter (fun p => negb (tracked crowd_after_pass p))
                 (running_children crowd_after_pass) = [4017]
  /\ length (Db.recordings (db crowd_after_pass)) = 17%nat
  /\ has_timer 17 (active_recordings crowd_after_pass) = false
  /\ (let again := snd (scheduler_pass (scenario_T + 10) crowd_after_pass) in
      active_recordings again = active_recordings crowd_after_pass
      /\ List.filter (fun p => negb (tracked again p)) (running_children again)
         = [4017; 4018]
      /\ length (Db.recordings (db again)) = 18%nat).
Proof. vm_compute. repeat split; reflexivity. Qed.

End SchedulerClaims.

(* ===================================================================== *)
(** * Properties of discovery *)
(* ===================================================================== *)

Section DiscoveryPriority.
Import Resolver.
Local Open Scope list_scope.

Lemma new_url_not_empty r : new_url r <> EmptyString.
Proof.
  unfold new_url. destruct (decide _); simpl; discriminate.
Qed.

Lemma has_char_app c s1 s2 :
  CSearch.has_char c (s1 ++ s2)%string
  = CSearch.has_char c s1 || CSearch.has_char c s2.
Proof.
  induction s1 as [|x s1 IH]; simpl; [done|].
  by rewrite IH, orb_assoc.
Qed.

Lemma has_char_substring c s : forall n,
  CSearch.has_char c (String.substring 0 n s) = true ->
  CSearch.has_char c s = true.
Proof.
  induction s as [|x s IH]; intros [|n]; simpl; try done.
  intros [H|H]%orb_true_iff; apply orb_true_iff; [by left|].
  right. by apply (IH n).
Qed.

Lemma has_char_cons c x s :
  CSearch.has_char c (String x s) = Ascii.eqb x c || CSearch.has_char c s.
Proof. reflexivity. Qed.

(** The decimal rendering of a number holds digits and a sign only. *)
Lemma string_of_uint_chars c d :
  CSearch.has_char c (NilEmpty.string_of_uint d) = true ->
  CString.isdigit c = true.
Proof.
  induction d; cbn [NilEmpty.string_of_uint]; [done|..];
    rewrite has_char_cons;
    (intros [H|H]%orb_true_iff; [|by apply IHd]);
    apply Ascii.eqb_eq in H; by subst.
Qed.

Lemma decimal_chars c z :
  CSearch.has_char c (CString.decimal z) = true ->
  CString.isdigit c = true \/ c = "-"%char.
Proof.
  assert (forall d, CSearch.has_char c (NilZero.string_of_uint d) = true ->
                    CString.isdigit c = true) as Huint.
  { intros d. unfold NilZero.string_of_uint.
    destruct d; try apply string_of_uint_chars.
    rewrite has_char_cons. intros [H|H]%orb_true_iff; [|done].
    apply Ascii.eqb_eq in H. by subst. }
  unfold CString.decimal, NilZero.string_of_int.
  destruct (Z.to_int z) as [d|d].
  - intros H. left. by apply (Huint d).
  - rewrite has_char_cons. intros [H|H]%orb_true_iff.
    + apply Ascii.eqb_eq in H. by right.
    + left. by apply (Huint d).
Qed.

(** The URL built for an address that is not IPv6 has a bracket only if
    the address text has one. *)
Lemma new_url_no_bracket r :
  proto r <> AVAHI_PROTO_INET6 ->
  CSearch.has_char "[" (address r) = false ->
  CSearch.has_char "[" (new_url r) = false.
Proof.
  intros Hp Ha. unfold new_url. rewrite decide_False by done.
  destruct (CSearch.has_char "[" (CString.truncate 255 _)) eqn:H; [|done].
  unfold CString.truncate in H. apply has_char_substring in H.
  rewrite !has_char_app in H. simpl in H. rewrite Ha in H. simpl in H.
  apply decimal_chars in H as [H|H]; discriminate.
Qed.

(** X4.  Once a backend address is known it stays known, and an IPv4
    address is never given up for an IPv6 one: a callback on a non-empty
    [core_url] leaves it non-empty, and an IPv6 resolution leaves an
    address without a bracket exactly as it was. *)
Theorem discovered_address_is_kept (r : Resolution) (core_url : string) :
  Discovery.get_core_base_url core_url <> None ->
  Discovery.get_core_base_url (resolve_callback r core_url) <> None
  /\ (proto r = AVAHI_PROTO_INET6 ->
      CSearch.has_char "[" core_url = false ->
      resolve_callback r core_url = core_url).
Proof.
  intros Hknown. split.
  - unfold resolve_callback.
    destruct (event r); [|done]. destruct (take_it r core_url); [|done].
    pose proof (new_url_not_empty r) as Hne.
    unfold Discovery.get_core_base_url.
    destruct (new_url r); [done|]. discriminate.
  - intros Hp Hb. unfold resolve_callback, take_it.
    destruct (event r); [|done].
    destruct core_url as [|c u]; [done|]. cbn [String.length Nat.eqb].
    rewrite Hb, bool_decide_true by done. reflexivity.
Qed.

Lemma discovered_address_is_kept_witness :
  Discovery.get_core_base_url
    (resolve_callback
       (mkResolution AVAHI_RESOLVER_FOUND AVAHI_PROTO_INET6 "fe80::1" 18392)
       "http://192.168.1.5:18392") <> None
  /\ resolve_callback
       (mkResolution AVAHI_RESOLVER_FOUND AVAHI_PROTO_INET6 "fe80::1" 18392)
       "http://192.168.1.5:18392" = "http://192.168.1.5:18392".
Proof.
  destruct (discovered_address_is_kept
              (mkResolution AVAHI_RESOLVER_FOUND AVAHI_PROTO_INET6 "fe80::1" 18392)
              "http://192.168.1.5:18392") as [H1 H2].
  - discriminate.
  - split; [exact H1|]. apply H2; reflexivity.
Defined.

Lemma resolve_all_app rs1 rs2 url :
  resolve_all (rs1 ++ rs2) url = resolve_all rs2 (resolve_all rs1 url).
Proof. apply fold_left_app. Qed.

(** An IPv4 address, once held, is followed by IPv4 addresses only. *)
Lemma ipv4_is_kept rs : forall url,
  Forall (fun r => proto r <> AVAHI_PROTO_INET6 ->
                   CSearch.has_char "[" (address r) = false) rs ->
  url <> EmptyString -> CSearch.has_char "[" url = false ->
  resolve_all rs url <> EmptyString
  /\ CSearch.has_char "[" (resolve_all rs url) = false.
Proof.
  induction rs as [|r rs IH]; intros url Hall Hne Hb; [done|].
  inversion Hall as [|? ? Hr Hrs]; subst. simpl.
  apply IH; [done|..]; unfold resolve_callback;
    destruct (event r); try done; destruct (take_it r url) eqn:Ht; try done.
  - apply new_url_not_empty.
  - destruct (decide (proto r = AVAHI_PROTO_INET6)) as [Hp|Hp].
    + exfalso. unfold take_it in Ht. destruct url; [done|].
      cbn [String.length Nat.eqb] in Ht.
      by rewrite Hb, bool_decide_true in Ht.
    + by apply new_url_no_bracket; [|apply Hr].
Qed.

(** X5.  Whatever else is resolved before and after, and in whatever
    order, once one IPv4 resolution has been seen the address held is an
    IPv4 one: non-empty and without a bracket.  (IPv4 address texts carry no
    bracket.) *)
Theorem ipv4_wins_over_ipv6 (before after : list Resolution)
    (r : Resolution) (core_url : string) :
  event r = AVAHI_RESOLVER_FOUND ->
  proto r <> AVAHI_PROTO_INET6 ->
  Forall (fun r => proto r <> AVAHI_PROTO_INET6 ->
                   CSearch.has_char "[" (address r) = false)
         (before ++ r :: after) ->
  let final := resolve_all (before ++ r :: after) core_url in
  Discovery.get_core_base_url final = Some final
  /\ CSearch.has_char "[" final = false.
Proof.
  intros Hev Hp Hall final. subst final.
  apply Forall_app in Hall as [Hbefore Hafter].
  inversion Hafter as [|? ? Hr Hrest]; subst.
  rewrite resolve_all_app. simpl.
  set (url := resolve_all before core_url).
  assert (resolve_callback r url <> EmptyString
          /\ CSearch.has_char "[" (resolve_callback r url) = false)
    as [Hne Hb].
  { unfold resolve_callback. rewrite Hev.
    destruct (take_it r url) eqn:Ht.
    - split; [apply new_url_not_empty | by apply new_url_no_bracket; auto].
    - unfold take_it in Ht. destruct url as [|c u]; [done|].
      cbn [String.length Nat.eqb] in Ht.
      rewrite bool_decide_false in Ht by done. simpl negb in Ht.
      rewrite andb_true_r in Ht.
      destruct (CSearch.has_char "[" (String c u)); [done|]. done. }
  destruct (ipv4_is_kept after _ Hrest Hne Hb) as [Hne' Hb'].
  split; [|done].
  unfold Discovery.get_core_base_url.
  destruct (resolve_all after _); [done|reflexivity].
Qed.

Lemma ipv4_wins_over_ipv6_witness :
  let final :=
    resolve_all
      ([mkResolution AVAHI_RESOLVER_FOUND AVAHI_PROTO_INET6 "fe80::1" 18392]
       ++ mkResolution AVAHI_RESOLVER_FOUND AVAHI_PROTO_INET "192.168.1.5" 18392
       :: [mkResolution AVAHI_RESOLVER_FOUND AVAHI_PROTO_INET6 "fe80::2" 18392])
      EmptyString in
  Discovery.get_core_base_url final = Some final
  /\ CSearch.has_char "[" final = false.
Proof.
  apply (ipv4_wins_over_ipv6
           [mkResolution AVAHI_RESOLVER_FOUND AVAHI_PROTO_INET6 "fe80::1" 18392]
           [mkResolution AVAHI_RESOLVER_FOUND AVAHI_PROTO_INET6 "fe80::2" 18392]
           (mkResolution AVAHI_RESOLVER_FOUND AVAHI_PROTO_INET "192.168.1.5" 18392)
           EmptyString).
  - reflexivity.
  - discriminate.
  - repeat constructor; simpl; intros; try reflexivity; congruence.
Defined.

End DiscoveryPriority.

(* ===================================================================== *)
(** * Properties of the JSON escaping of db.c *)
(* ===================================================================== *)

Section JsonEscape.
Import Json.
Local Open Scope list_scope.

Lemma json_escape_from_length bound src : forall i,
  i <= bound + 1 ->
  i + Z.of_nat (String.length (json_escape_from bound i src)) <= bound + 1.
Proof.
  induction src as [|c rest IH]; intros i Hi; simpl; [lia|].
  destruct (i <? bound)%Z eqn:Hlt; [|simpl; lia].
  apply Z.ltb_lt in Hlt.
  pose proof (IH (i + 1) ltac:(lia)) as IH1.
  pose proof (IH (i + 2) ltac:(lia)) as IH2.
  destruct (Ascii.eqb c quote); [|destruct (Ascii.eqb c backslash);
    [|destruct (Ascii.eqb c newline)]];
    cbn [String.length]; lia.
Qed.

Lemma json_escape_from_escaped bound src : forall i,
  escaped (json_escape_from bound i src).
Proof.
  induction src as [|c rest IH]; intros i; simpl; [constructor|].
  destruct (i <? bound)%Z; [|constructor].
  destruct (Ascii.eqb c quote) eqn:Hq.
  { apply escaped_pair; auto. }
  destruct (Ascii.eqb c backslash) eqn:Hb.
  { apply escaped_pair; auto. }
  destruct (Ascii.eqb c newline) eqn:Hn.
  { apply escaped_pair; auto. }
  apply escaped_plain; auto; by apply Ascii.eqb_neq.
Qed.

Lemma json_escape_from_all bound src : forall i,
  i + 2 * Z.of_nat (String.length src) <= bound ->
  json_escape_from bound i src = escape_all src.
Proof.
  induction src as [|c rest IH]; intros i Hi; [done|].
  cbn [String.length] in Hi. cbn [json_escape_from escape_all].
  assert ((i <? bound)%Z = true) as -> by (apply Z.ltb_lt; lia).
  unfold escape_char.
  destruct (Ascii.eqb c quote); [|destruct (Ascii.eqb c backslash);
    [|destruct (Ascii.eqb c newline)]];
    cbn [String.append]; rewrite IH by lia; reflexivity.
Qed.

(** X6.  For a destination of [size] bytes (2 or more), [json_escape]
    writes at most [size - 1] characters before its NUL, so it stays inside
    the buffer; what it writes is made of whole escape units, so it holds no
    bare quote, backslash or newline, even where the text was cut; and a
    source of at most [(size - 2) / 2] characters is escaped in full. *)
Theorem json_escape_fits_and_is_escaped (src : string) (size : Z) :
  2 <= size < 2 ^ 64 ->
  Z.of_nat (String.length (json_escape src size)) <= size - 1
  /\ escaped (json_escape src size)
  /\ (2 * Z.of_nat (String.length src) <= size - 2 ->
      json_escape src size = escape_all src).
Proof.
  intros Hsize. unfold json_escape.
  rewrite Z.mod_small by lia. split_and!.
  - pose proof (json_escape_from_length (size - 2) src 0 ltac:(lia)). lia.
  - apply json_escape_from_escaped.
  - intros Hlen. apply json_escape_from_all. lia.
Qed.

Lemma json_escape_fits_and_is_escaped_witness :
  let title := String quote "A\B" in
  Z.of_nat (String.length (json_escape title 6)) <= 5
  /\ escaped (json_escape title 6)
  /\ json_escape title 2048 = escape_all title.
Proof.
  intros title.
  destruct (json_escape_fits_and_is_escaped title 6) as (H1 & H2 & _);
    [lia|].
  destruct (json_escape_fits_and_is_escaped title 2048) as (_ & _ & H3);
    [lia|].
  split; [exact H1|]. split; [exact H2|]. apply H3. vm_compute. discriminate.
Defined.

End JsonEscape.

(* ===================================================================== *)
(** * Properties of the configuration file *)
(* ===================================================================== *)

Section ConfigFile.
Import Web Config.
Local Open Scope list_scope.

Lemma append_cons c s t :
  (String c s ++ t)%string = String c (s ++ t)%string.
Proof. reflexivity. Qed.

Lemma append_assoc (a b c : string) :
  ((a ++ b) ++ c)%string = (a ++ (b ++ c))%string.
Proof.
  induction a as [|x a IH]; [done|]. by rewrite !append_cons, IH.
Qed.

Lemma length_append s t :
  String.length (s ++ t)%string = (String.length s + String.length t)%nat.
Proof.
  induction s as [|c s IH]; [done|].
  rewrite append_cons. cbn [String.length]. by rewrite IH.
Qed.

Lemma fgets_chunks_cons max room c s :
  Stdio.fgets_chunks max room (String c s) =
    if Ascii.eqb c Stdio.newline || (room <=? 1)%nat
    then String c EmptyString :: Stdio.fgets_chunks max max s
    else match Stdio.fgets_chunks max (room - 1) s with
         | l :: ls => String c l :: ls
         | [] => [String c EmptyString]
         end.
Proof. reflexivity. Qed.

Lemma fgets_chunks_line max l rest : forall room,
  CSearch.has_char Stdio.newline l = false ->
  (String.length l < room)%nat ->
  Stdio.fgets_chunks max room (l ++ String Stdio.newline rest)%string
  = (l ++ String Stdio.newline EmptyString)%string
    :: Stdio.fgets_chunks max max rest.
Proof.
  induction l as [|c l IH]; intros room Hnl Hlen.
  - reflexivity.
  - rewrite has_char_cons in Hnl. apply orb_false_iff in Hnl as [Hc Hl].
    cbn [String.length] in Hlen.
    rewrite !append_cons, fgets_chunks_cons, Hc.
    assert ((room <=? 1)%nat = false) as -> by (apply Nat.leb_gt; lia).
    cbn [orb]. rewrite IH by (done || lia). reflexivity.
Qed.

Lemma until_newline_line l rest :
  CSearch.has_char Stdio.newline l = false ->
  CSearch.until_newline (l ++ String Stdio.newline rest)%string = l.
Proof.
  induction l as [|c l IH]; intros Hnl.
  - reflexivity.
  - rewrite has_char_cons in Hnl. apply orb_false_iff in Hnl as [Hc Hl].
    rewrite append_cons.
    change (CSearch.until_newline (String c (l ++ String Stdio.newline rest)))
      with (if Ascii.eqb c Stdio.newline then EmptyString
            else String c (CSearch.until_newline
                             (l ++ String Stdio.newline rest))).
    by rewrite Hc, IH.
Qed.

Lemma truncate_short n s :
  (String.length s <= n)%nat -> CString.truncate n s = s.
Proof.
  unfold CString.truncate. revert n.
  induction s as [|c s IH]; intros [|n] Hlen; simpl in *; try done; try lia.
  by rewrite IH by lia.
Qed.

Lemma split_at_key c key val :
  CSearch.has_char c key = false ->
  CSearch.split_at c (key ++ String c val)%string = Some (key, val).
Proof.
  induction key as [|x key IH]; intros Hk.
  - change (CSearch.split_at c (String c val) = Some (EmptyString, val)).
    cbn [CSearch.split_at]. by rewrite Ascii.eqb_refl.
  - rewrite has_char_cons in Hk. apply orb_false_iff in Hk as [Hx Hk].
    rewrite append_cons. cbn [CSearch.split_at]. by rewrite Hx, IH.
Qed.

Lemma load_line_backend cfg b :
  CSearch.has_char Stdio.newline b = false ->
  (String.length b <= 31)%nat ->
  load_line cfg (("TRANSCODE_BACKEND=" ++ b) ++ String Stdio.newline EmptyString)
  = {| app_backend := b; app_codec := app_codec cfg |}.
Proof.
  intros Hb Hlen. unfold load_line.
  change (("TRANSCODE_BACKEND=" ++ b) ++ String Stdio.newline EmptyString)%string
    with ("TRANSCODE_BACKEND" ++ String "=" (b ++ String Stdio.newline EmptyString))%string.
  rewrite split_at_key by reflexivity.
  rewrite until_newline_line by done.
  by rewrite truncate_short.
Qed.

Lemma load_line_codec cfg c :
  CSearch.has_char Stdio.newline c = false ->
  (String.length c <= 31)%nat ->
  load_line cfg (("TRANSCODE_CODEC=" ++ c) ++ String Stdio.newline EmptyString)
  = {| app_backend := app_backend cfg; app_codec := c |}.
Proof.
  intros Hc Hlen. unfold load_line.
  change (("TRANSCODE_CODEC=" ++ c) ++ String Stdio.newline EmptyString)%string
    with ("TRANSCODE_CODEC" ++ String "=" (c ++ String Stdio.newline EmptyString))%string.
  rewrite split_at_key by reflexivity.
  rewrite until_newline_line by done.
  by rewrite truncate_short.
Qed.

Lemma config_load_of_saved (cfg : AppConfig) :
  CSearch.has_char Stdio.newline (app_backend cfg) = false ->
  CSearch.has_char Stdio.newline (app_codec cfg) = false ->
  (String.length (app_backend cfg) <= 31)%nat ->
  (String.length (app_codec cfg) <= 31)%nat ->
  config_load (Some (config_save cfg)) = cfg.
Proof.
  destruct cfg as [b c]. cbn [app_backend app_codec].
  intros Hb Hc Hlb Hlc.
  unfold config_load.
  assert (Stdio.fgets_lines 128 (config_save (mkAppConfig b c))
          = [(("TRANSCODE_BACKEND=" ++ b) ++ String Stdio.newline EmptyString)%string;
             (("TRANSCODE_CODEC=" ++ c) ++ String Stdio.newline EmptyString)%string])
    as ->.
  { unfold Stdio.fgets_lines, config_save. cbn [app_backend app_codec].
    change ("TRANSCODE_BACKEND=" ++ b ++ String Stdio.newline
              ("TRANSCODE_CODEC=" ++ c ++ String Stdio.newline EmptyString))%string
      with (("TRANSCODE_BACKEND=" ++ b) ++ String Stdio.newline
              (("TRANSCODE_CODEC=" ++ c) ++ String Stdio.newline EmptyString))%string.
    rewrite fgets_chunks_line;
      [|done|rewrite length_append; simpl; lia].
    rewrite fgets_chunks_line;
      [|done|rewrite length_append; simpl; lia].
    reflexivity. }
  cbn [fold_left].
  rewrite load_line_backend by done.
  by rewrite load_line_codec by done.
Qed.

(** X7.  What [config_save] writes, [config_load] reads back: for a
    configuration whose two values hold no newline (and fit their 32-byte
    fields), loading the saved file gives the same configuration.  With no
    file, loading gives software / h264. *)
Theorem config_save_then_load (cfg : AppConfig) :
  CSearch.has_char Stdio.newline (app_backend cfg) = false ->
  CSearch.has_char Stdio.newline (app_codec cfg) = false ->
  (String.length (app_backend cfg) <= 31)%nat ->
  (String.length (app_codec cfg) <= 31)%nat ->
  config_load (Some (config_save cfg)) = cfg
  /\ config_load None = {| app_backend := "software"; app_codec := "h264" |}.
Proof.
  intros Hb Hc Hlb Hlc. split; [|reflexivity].
  by apply config_load_of_saved.
Qed.

Lemma config_save_then_load_witness :
  config_load (Some (config_save (mkAppConfig "vaapi" "hevc")))
  = mkAppConfig "vaapi" "hevc".
Proof.
  destruct (config_save_then_load (mkAppConfig "vaapi" "hevc")) as [H _];
    [reflexivity | reflexivity | simpl; lia | simpl; lia |].
  exact H.
Defined.

End ConfigFile.

(* ===================================================================== *)
(** * Properties of the process relay *)
(* ===================================================================== *)

Section ProcessRelay.
Import Transcode Relay.
Local Open Scope list_scope.




End ProcessRelay.

(* ===================================================================== *)
(** * The status queries against manual stop *)
(* ===================================================================== *)

Section StatusQueries.
Import Scheduler SlotTable.
Local Open Scope list_scope.

Lemma occupied_count_cleared (slots : list ActiveRecording) : forall j a,
  slots !! j = Some a -> pid a <> 0 ->
  S (length (List.filter occupied (alter (with_pid 0) j slots)))
  = length (List.filter occupied slots).
Proof.
  induction slots as [|x slots IH]; intros [|j] a Hj Hp; try done.
  - injection Hj as ->. cbn [alter list_alter List.filter].
    apply Z.eqb_neq in Hp. unfold occupied. simpl. rewrite Hp. reflexivity.
  - cbn [alter list_alter List.filter].
    change (list_alter (with_pid 0) j slots) with (alter (with_pid 0) j slots).
    destruct (occupied x); cbn [length]; by rewrite <- (IH j a).
Qed.

Lemma active_ids_In recording (slots : list ActiveRecording) :
  In recording (map recording_id (List.filter occupied slots)) <->
  exists j a, slots !! j = Some a /\ recording_id a = recording /\ pid a <> 0.
Proof.
  rewrite in_map_iff. split.
  - intros (a & Hr & Hin). apply filter_In in Hin as [Hin Hocc].
    apply list_elem_of_In, list_elem_of_lookup in Hin as [j Hj].
    exists j, a. split_and!; [done..|].
    unfold occupied in Hocc. by apply negb_true_iff, Z.eqb_neq in Hocc.
  - intros (j & a & Hj & Hr & Hp). exists a. split; [done|].
    apply filter_In. split.
    + apply list_elem_of_In, list_elem_of_lookup. eauto.
    + unfold occupied. by apply negb_true_iff, Z.eqb_neq.
Qed.

(** [stop_recording] finds exactly the identities listed. *)
Lemma stop_found_iff_listed (recording : Z) (w : World) :
  let found := fst (stop_recording recording w) in
  (found = 1 <-> In recording (fst (get_active_recording_ids w)))
  /\ (found = 0 \/ found = 1).
Proof.
  cbv zeta.
  unfold get_active_recording_ids, bind, read_slots, ret. cbn [fst snd].
  destruct (list_find (fun a => recording_id a = recording /\ pid a <> 0)
                      (active_recordings w)) as [[j a]|] eqn:Hfind.
  - rewrite (stop_recording_found _ _ _ _ Hfind). cbn [fst].
    apply list_find_Some in Hfind as (Hj & [Hr Hp] & _).
    split; [|by right]. split; [intros _|done]. apply active_ids_In. eauto.
  - rewrite (stop_recording_not_found _ _ Hfind). cbn [fst].
    apply list_find_None in Hfind. rewrite Forall_forall in Hfind.
    split; [|by left]. split; [done|]. intros Hin. exfalso.
    apply active_ids_In in Hin as (j & a & Hj & Hr & Hp).
    apply list_elem_of_lookup_2 in Hj. by apply (Hfind a Hj).
Qed.

(** X9.  The status queries and manual stop agree: the count reported is
    the number of identities listed; [stop_recording] accepts exactly the
    identities [get_active_recording_ids] lists; and after a stop the count
    has gone down by what the stop returned, 1 or 0. *)
Theorem stop_recording_agrees_with_status (recording : Z) (w : World) :
  let ids := fst (get_active_recording_ids w) in
  let count := fst (get_active_recording_count w) in
  let found := fst (stop_recording recording w) in
  let w' := snd (stop_recording recording w) in
  count = Z.of_nat (length ids)
  /\ (found = 1 <-> In recording ids)
  /\ (found = 0 \/ found = 1)
  /\ fst (get_active_recording_count w') = count - found
  /\ (forall other, other <> recording ->
                    In other (fst (get_active_recording_ids w')) ->
                    In other ids).
Proof.
  intros ids count found w'. subst ids count found w'.
  unfold get_active_recording_ids, get_active_recording_count, bind,
    read_slots, ret. cbn [fst snd].
  split; [by rewrite length_map|].
  destruct (list_find (fun a => recording_id a = recording /\ pid a <> 0)
                      (active_recordings w)) as [[j a]|] eqn:Hfind.
  - rewrite (stop_recording_found _ _ _ _ Hfind). cbn [fst snd active_recordings].
    apply list_find_Some in Hfind as (Hj & [Hr Hp] & _).
    split_and!.
    + split; [intros _|done]. apply active_ids_In. eauto.
    + by right.
    + rewrite <- (occupied_count_cleared _ j a Hj Hp). lia.
    + intros other _ Hin. apply active_ids_In in Hin as (i & b & Hi & Hb & Hpb).
      apply active_ids_In. destruct (cleared_pid _ _ _ _ Hi Hpb). eauto.
  - rewrite (stop_recording_not_found _ _ Hfind). cbn [fst snd].
    apply list_find_None in Hfind. rewrite Forall_forall in Hfind.
    split_and!.
    + split; [done|]. intros Hin. exfalso.
      apply active_ids_In in Hin as (j & a & Hj & Hr & Hp).
      apply list_elem_of_lookup_2 in Hj. by apply (Hfind a Hj).
    + by left.
    + lia.
    + done.
Qed.

End StatusQueries.

(* ===================================================================== *)
(** * Properties of static file serving *)
(* ===================================================================== *)

Section StaticFiles.
Import Web Static.
Local Open Scope list_scope.

Lemma strrchr_none c s :
  CSearch.has_char c s = false -> strrchr c s = None.
Proof.
  induction s as [|x s IH]; [done|].
  rewrite has_char_cons. intros [Hx Hs]%orb_false_iff.
  cbn [strrchr]. by rewrite IH, Hx.
Qed.

Lemma strrchr_last c stem ext :
  CSearch.has_char c ext = false ->
  strrchr c (stem ++ String c ext)%string = Some (String c ext).
Proof.
  intros Hext. induction stem as [|x stem IH].
  - change (strrchr c (String c ext) = Some (String c ext)).
    cbn [strrchr]. by rewrite strrchr_none, Ascii.eqb_refl.
  - rewrite append_cons. cbn [strrchr]. by rewrite IH.
Qed.

(** X10.  The content type is decided by what follows the last dot of the
    path and by nothing before it; a path without a dot is served as
    [application/octet-stream]. *)
Theorem mime_type_by_last_extension (stem ext : string) :
  CSearch.has_char "." ext = false ->
  get_mime_type (stem ++ String "." ext) = get_mime_type (String "." ext)
  /\ get_mime_type ext = "application/octet-stream".
Proof.
  intros Hext. unfold get_mime_type.
  rewrite strrchr_last by done.
  pose proof (strrchr_last "." EmptyString ext Hext) as H0.
  change (EmptyString ++ String "." ext)%string with (String "." ext) in H0.
  by rewrite H0, strrchr_none.
Qed.

Lemma mime_type_by_last_extension_witness :
  get_mime_type "/js/app.min.js" = "application/javascript"
  /\ get_mime_type "js" = "application/octet-stream".
Proof.
  destruct (mime_type_by_last_extension "/js/app.min" "js") as [H1 H2];
    [reflexivity|].
  split; [|exact H2].
  change "/js/app.min.js" with ("/js/app.min" ++ String "." "js")%string.
  rewrite H1. reflexivity.
Defined.

(** Cutting a text short cannot bring a needle into it. *)
Lemma prefix_app_l needle a b :
  String.prefix needle a = true -> String.prefix needle (a ++ b) = true.
Proof.
  revert a. induction needle as [|x needle IH]; intros a H.
  { by destruct (a ++ b)%string. }
  destruct a as [|y a]; [done|]. rewrite append_cons.
  cbn [String.prefix] in H |- *.
  destruct (ascii_dec x y); [|done]. by apply IH.
Qed.

Lemma contains_app_l needle a b :
  CSearch.contains needle a = true ->
  CSearch.contains needle (a ++ b) = true.
Proof.
  induction a as [|x a IH].
  - cbn [CSearch.contains]. rewrite orb_false_r. intros H.
    destruct needle; [|done].
    destruct b; reflexivity.
  - rewrite append_cons. cbn [CSearch.contains].
    intros [H|H]%orb_true_iff; apply orb_true_iff.
    + left. by apply (prefix_app_l _ (String x a) b).
    + right. by apply IH.
Qed.

Lemma truncate_is_prefix n s :
  exists rest, s = (CString.truncate n s ++ rest)%string.
Proof.
  unfold CString.truncate. revert n.
  induction s as [|c s IH]; intros [|n]; cbn [String.substring].
  - by exists EmptyString.
  - by exists EmptyString.
  - by exists (String c s).
  - destruct (IH n) as [rest Hrest]. exists rest.
    rewrite append_cons. by rewrite <- Hrest.
Qed.

Lemma split_at_is_prefix c s before after :
  CSearch.split_at c s = Some (before, after) ->
  s = (before ++ String c after)%string.
Proof.
  revert before. induction s as [|x s IH]; intros before; [done|].
  cbn [CSearch.split_at].
  destruct (Ascii.eqb x c) eqn:Hx.
  - intros [= <- <-]. apply Ascii.eqb_eq in Hx. by subst.
  - destruct (CSearch.split_at c s) as [[b a]|]; [|done].
    intros [= <- <-]. rewrite append_cons. by rewrite (IH b eq_refl).
Qed.

Lemma no_needle_in_prefix needle t rest :
  CSearch.contains needle (t ++ rest) = false ->
  CSearch.contains needle t = false.
Proof.
  intros H. destruct (CSearch.contains needle t) eqn:Ht; [|done].
  by rewrite (contains_app_l _ _ rest Ht) in H.
Qed.

(** Appending text that starts with a slash cannot join two dots. *)
Lemma dotdot_app_slash a b :
  CSearch.contains ".." (a ++ String "/" b)
  = CSearch.contains ".." a || CSearch.contains ".." (String "/" b).
Proof.
  induction a as [|x a IH]; [reflexivity|].
  rewrite append_cons.
  change (CSearch.contains ".." (String x (a ++ String "/" b)))
    with (String.prefix ".." (String x (a ++ String "/" b))
          || CSearch.contains ".." (a ++ String "/" b)).
  change (CSearch.contains ".." (String x a))
    with (String.prefix ".." (String x a) || CSearch.contains ".." a).
  rewrite IH, orb_assoc. f_equal. f_equal.
  destruct a as [|y a].
  - change (EmptyString ++ String "/" b)%string with (String "/" b).
    cbn [String.prefix]. destruct (ascii_dec "." x); reflexivity.
  - rewrite append_cons. cbn [String.prefix].
    destruct (ascii_dec "." x); [|reflexivity].
    destruct (ascii_dec "." y); [|reflexivity].
    destruct (a ++ String "/" b)%string; destruct a; reflexivity.
Qed.

Lemma append_nil_r s : (s ++ EmptyString)%string = s.
Proof.
  induction s as [|x s IH]; [done|]. by rewrite append_cons, IH.
Qed.

Lemma dotdot_strncat a n :
  CSearch.contains ".." a = false ->
  CSearch.contains ".." (strncat a "/index.html" n) = false.
Proof.
  intros Ha. unfold strncat, CString.truncate.
  destruct n as [|n].
  - change (String.substring 0 0 "/index.html") with EmptyString.
    by rewrite append_nil_r.
  - change (String.substring 0 (S n) "/index.html")
      with (String "/" (String.substring 0 n "index.html")).
    rewrite dotdot_app_slash, Ha. cbn [orb].
    destruct (truncate_is_prefix n "index.html") as [rest Hr].
    apply (no_needle_in_prefix _ _ rest).
    rewrite append_cons. unfold CString.truncate in Hr. by rewrite <- Hr.
Qed.

Lemma public_prefixed_intro r :
  CSearch.contains ".." r = false -> public_prefixed (PUBLIC_DIR ++ r).
Proof.
  intros Hr. split; [|exact Hr].
  unfold CString.starts_with. by apply prefix_app_l.
Qed.

Lemma inside_public_intro r :
  CSearch.contains ".." (String "/" r) = false ->
  inside_public (PUBLIC_DIR ++ String "/" r).
Proof.
  intros Hr. split; [|exact Hr].
  unfold CString.starts_with.
  change (PUBLIC_DIR ++ String "/" r)%string
    with ((PUBLIC_DIR ++ "/") ++ r)%string.
  by apply prefix_app_l.
Qed.

Lemma split_at_cons_ne c x s :
  Ascii.eqb x c = false ->
  CSearch.split_at c (String x s) =
    match CSearch.split_at c s with
    | Some (b, a) => Some (String x b, a)
    | None => None
    end.
Proof. intros H. cbn [CSearch.split_at]. by rewrite H. Qed.

Lemma split_at_public r :
  CSearch.split_at "?" (PUBLIC_DIR ++ r) =
    match CSearch.split_at "?" r with
    | Some (b, a) => Some ((PUBLIC_DIR ++ b)%string, a)
    | None => None
    end.
Proof.
  change (PUBLIC_DIR ++ r)%string
    with (String "." (String "/" (String "p" (String "u" (String "b"
            (String "l" (String "i" (String "c" r)))))))).
  rewrite !split_at_cons_ne by reflexivity.
  by destruct (CSearch.split_at "?" r) as [[b a]|].
Qed.

(** Every path opened is the directory name followed by a text without
    [..], and that text starts with a slash when the request path does. *)
Lemma opened_paths_shape (fs : Fs) (path : string) :
  CSearch.contains ".." path = false ->
  Forall (fun p => exists r,
            p = (PUBLIC_DIR ++ r)%string
            /\ CSearch.contains ".." r = false
            /\ (CString.starts_with "/" path = true ->
                exists r', r = String "/" r'))
         (opened (serve_file fs path)).
Proof.
  intros Hguard. unfold serve_file. rewrite Hguard.
  change (CString.truncate 511 (PUBLIC_DIR ++ path))
    with (PUBLIC_DIR ++ CString.truncate 503 path)%string.
  set (r0 := CString.truncate 503 path).
  assert (CSearch.contains ".." r0 = false) as Hr0.
  { destruct (truncate_is_prefix 503 path) as [rest Hrest].
    apply (no_needle_in_prefix _ _ rest). unfold r0. by rewrite <- Hrest. }
  assert (CString.starts_with "/" path = true ->
          exists r', r0 = String "/" r') as Hs0.
  { unfold CString.starts_with. intros H.
    apply prefix_inv in H as (p' & -> & _).
    by exists (CString.truncate 502 p'). }
  clearbody r0.
  rewrite split_at_public.
  assert (exists r1, match match CSearch.split_at "?" r0 with
                           | Some (b, a) => Some ((PUBLIC_DIR ++ b)%string, a)
                           | None => None
                           end with
                     | Some (before, _) => before
                     | None => (PUBLIC_DIR ++ r0)%string
                     end = (PUBLIC_DIR ++ r1)%string
                     /\ CSearch.contains ".." r1 = false
                     /\ (CString.starts_with "/" path = true ->
                         exists r', r1 = String "/" r'))
    as (r1 & -> & Hr1 & Hs1).
  { destruct (CSearch.split_at "?" r0) as [[b a]|] eqn:Hsplit.
    - exists b. split_and!; [done| |].
      + apply split_at_is_prefix in Hsplit.
        apply (no_needle_in_prefix _ _ (String "?" a)). by rewrite <- Hsplit.
      + intros Hp. destruct (Hs0 Hp) as [r' ->].
        rewrite split_at_cons_ne in Hsplit by reflexivity.
        destruct (CSearch.split_at "?" r') as [[b' a']|]; [|done].
        injection Hsplit as <- <-. by eexists.
    - by exists r0. }
  set (full_path :=
         if is_dir fs (PUBLIC_DIR ++ r1)
         then strncat (PUBLIC_DIR ++ r1) "/index.html"
                (512 - String.length (PUBLIC_DIR ++ r1) - 1)
         else (PUBLIC_DIR ++ r1)%string).
  assert (exists r, full_path = (PUBLIC_DIR ++ r)%string
                    /\ CSearch.contains ".." r = false
                    /\ (CString.starts_with "/" path = true ->
                        exists r', r = String "/" r')) as Hfull.
  { subst full_path. destruct (is_dir fs _); [|by exists r1].
    exists (strncat r1 "/index.html"
              (512 - String.length (PUBLIC_DIR ++ r1) - 1)).
    split_and!.
    - unfold strncat. by rewrite append_assoc.
    - by apply dotdot_strncat.
    - intros Hp. destruct (Hs1 Hp) as [r' ->]. unfold strncat.
      rewrite append_cons. by eexists. }
  clearbody full_path.
  set (index := CString.truncate 511 (PUBLIC_DIR ++ "/index.html")).
  assert (exists r, index = (PUBLIC_DIR ++ r)%string
                    /\ CSearch.contains ".." r = false
                    /\ (CString.starts_with "/" path = true ->
                        exists r', r = String "/" r')) as Hindex.
  { exists "/index.html". split_and!; [reflexivity..|]. intros _. by eexists. }
  clearbody index.
  destruct (content fs full_path); [|destruct (looks_like_asset path);
    [|destruct (content fs index)]];
    cbn [opened];
    repeat first [ assumption | constructor ].
Qed.

(** X11.  For a request path that starts with a slash, [serve_file] opens
    only paths below the public directory: every path it passes to [open]
    starts with [./public/] and holds no [..].  For any request path, the
    paths opened start with the text [./public] and hold no [..]; and a
    request path that holds [..] opens nothing and is answered 403
    Forbidden.  (A request path that does not start with a slash is not
    kept below the directory: see [sibling_of_public_is_opened].) *)
Theorem served_paths_stay_in_public (fs : Fs) (path : string) :
  (CString.starts_with "/" path = true ->
   Forall inside_public (opened (serve_file fs path)))
  /\ Forall public_prefixed (opened (serve_file fs path))
  /\ (CSearch.contains ".." path = true ->
      serve_file fs path =
        {| opened := [];
           sent := [send_headers 403 "Forbidden" "text/plain" 9;
                    write "Forbidden"] |}).
Proof.
  destruct (CSearch.contains ".." path) eqn:Hguard.
  { unfold serve_file. rewrite Hguard.
    split_and!; [intros _; constructor | constructor | reflexivity]. }
  pose proof (opened_paths_shape fs path Hguard) as Hshape.
  split_and!; [| |discriminate].
  - intros Hslash. eapply Forall_impl; [exact Hshape|].
    intros p (r & -> & Hr & Hs). destruct (Hs Hslash) as [r' ->].
    by apply inside_public_intro.
  - eapply Forall_impl; [exact Hshape|].
    intros p (r & -> & Hr & _). by apply public_prefixed_intro.
Qed.

(** The name of the directory is only a prefix of the text: a request
    path without a leading slash reaches a sibling of the directory. *)
Lemma sibling_of_public_is_opened :
  opened (serve_file
            {| is_dir := fun _ => false;
               content := fun p =>
                 if String.eqb p "./public_backup/secret.txt"
                 then Some "secret" else None |}
            "_backup/secret.txt")
  = ["./public_backup/secret.txt"].
Proof. reflexivity. Qed.

End StaticFiles.

(* ===================================================================== *)
(** * The playlist against the ad-hoc transcode parser *)
(* ===================================================================== *)

Section PlaylistRoundTrip.
Import Web Playlist.
Local Open Scope list_scope.

Lemma fields_cons d c s :
  CString.fields d (String c s) =
    if Ascii.eqb c d then EmptyString :: CString.fields d s
    else match CString.fields d s with
         | t :: ts => String c t :: ts
         | [] => [String c EmptyString]
         end.
Proof. reflexivity. Qed.

Lemma fields_last d t :
  CSearch.has_char d t = false -> CString.fields d t = [t].
Proof.
  induction t as [|c t IH]; [done|].
  rewrite has_char_cons. intros [Hc Ht]%orb_false_iff.
  by rewrite fields_cons, Hc, IH.
Qed.

Lemma fields_token d t rest :
  CSearch.has_char d t = false ->
  CString.fields d (t ++ String d rest) = t :: CString.fields d rest.
Proof.
  induction t as [|c t IH].
  - intros _. change (EmptyString ++ String d rest)%string with (String d rest).
    by rewrite fields_cons, Ascii.eqb_refl.
  - rewrite has_char_cons. intros [Hc Ht]%orb_false_iff.
    by rewrite append_cons, fields_cons, Hc, IH.
Qed.

(** Slash-free segments joined with slashes are the fields between the
    slashes. *)
Lemma fields_segments ts : forall t,
  CSearch.has_char "/" t = false ->
  Forall (fun t => CSearch.has_char "/" t = false) ts ->
  CString.fields "/" (t ++ segments ts) = t :: ts.
Proof.
  induction ts as [|t2 ts IH]; intros t Ht Hts.
  - cbn [segments]. rewrite append_nil_r. by apply fields_last.
  - inversion Hts; subst. cbn [segments].
    change ("/" ++ t2 ++ segments ts)%string
      with (String "/" (t2 ++ segments ts)).
    rewrite fields_token by done. by rewrite IH.
Qed.










(** A channel whose number is an option word is read as that option: the
    path names no channel, and the endpoint answers 400. *)
Lemma option_word_is_no_channel :
  channel_id (parse_transcode_path (channel_path no_settings "copy"))
    = EmptyString
  /\ handle_transcode "http://192.168.1.20:18080"
       (channel_path no_settings "copy")
     = reply_error 400 "Bad Request" "No channel specified" ++ [close].
Proof. split; reflexivity. Qed.

Lemma truncate_length n s : (String.length (CString.truncate n s) <= n)%nat.
Proof.
  unfold CString.truncate. revert n.
  induction s as [|c s IH]; intros [|n]; cbn [String.substring String.length];
    try lia.
  specialize (IH n). lia.
Qed.

Lemma read_param_fits st param :
  settings_fit st -> settings_fit (read_param st param).
Proof.
  intros (Hb & Hc & Hr). unfold read_param, settings_fit.
  repeat case_match; cbn [Playlist.backend Playlist.codec bitrate];
    repeat split; try done; apply truncate_length.
Qed.

Lemma query_settings_fit path : settings_fit (query_settings path).
Proof.
  assert (Hstart : settings_fit no_settings)
    by (unfold settings_fit; cbn; lia).
  unfold query_settings. destruct (CSearch.split_at "?" path) as [[? q]|];
    [|done].
  generalize dependent no_settings.
  induction (CString.strtok_all "&" q) as [|p ps IH]; intros st Hst; [done|].
  cbn [fold_left]. by apply IH, read_param_fits.
Qed.

(** X13.  Whatever the request path, the settings read from its query fit
    their buffers ([backend[32]], [codec[32]], [bitrate[16]]) and the path
    prefix built from them by [strcat] has at most 85 characters, so it
    fits [transcode_path[128]] with its terminator. *)
Theorem transcode_path_fits (path : string) :
  let st := query_settings path in
  (String.length (Playlist.backend st) < 32)%nat
  /\ (String.length (Playlist.codec st) < 32)%nat
  /\ (String.length (bitrate st) < 16)%nat
  /\ (String.length (transcode_path st) <= 85)%nat.
Proof.
  cbv zeta. destruct (query_settings_fit path) as (Hb & Hc & Hr).
  repeat split; try lia.
  unfold transcode_path. rewrite !length_append.
  repeat case_match; rewrite ?length_append; cbn [String.length]; lia.
Qed.

End PlaylistRoundTrip.

(* ===================================================================== *)
(** * The API routes *)
(* ===================================================================== *)

Section ApiRoutes.
Import Web Scheduler Api.
Local Open Scope list_scope.

(** Reading back a number printed with [%d]. *)
Lemma atoi_digits_uint_acc d : forall acc,
  CString.atoi_digits (Z.pos acc) (NilEmpty.string_of_uint d)
  = Z.pos (Pos.of_uint_acc d acc).
Proof.
  induction d; intros acc; cbn [NilEmpty.string_of_uint Pos.of_uint_acc];
    [done|..];
    (etransitivity; [|apply IHd]);
    cbn [CString.atoi_digits]; f_equal;
    match goal with
    | |- context [Z.of_nat ?n] =>
        let v := eval vm_compute in (Z.of_nat n) in
        change (Z.of_nat n) with v
    end; lia.
Qed.

Lemma atoi_digits_uint d :
  CString.atoi_digits 0 (NilEmpty.string_of_uint d) = Z.of_N (Pos.of_uint d).
Proof.
  induction d; cbn [NilEmpty.string_of_uint Pos.of_uint]; [done|..];
    cbn [CString.atoi_digits]; [exact IHd|..];
    apply (atoi_digits_uint_acc d).
Qed.

Lemma digits_uint_pos p :
  CString.atoi_digits 0 (NilZero.string_of_uint (Pos.to_uint p)) = Z.pos p.
Proof.
  pose proof (DecimalPos.Unsigned.of_to p) as H.
  unfold NilZero.string_of_uint.
  destruct (Pos.to_uint p) eqn:Hu; [done|..];
    rewrite atoi_digits_uint, H; reflexivity.
Qed.

(** Inside the range of [int] the narrowing changes nothing. *)
Lemma to_int_small z :
  - 2 ^ 31 <= z < 2 ^ 31 -> CString.to_int (CString.to_long z) = z.
Proof.
  intros Hz. unfold CString.to_int, CString.to_long.
  rewrite Z.min_l, Z.max_r by lia.
  rewrite Z.mod_small by lia. lia.
Qed.

Lemma atoi_uint_pos p :
  Z.pos p < 2 ^ 31 ->
  CString.atoi (NilZero.string_of_uint (Pos.to_uint p)) = Z.pos p.
Proof.
  intros Hp. unfold CString.atoi. rewrite digits_uint_pos.
  apply to_int_small. lia.
Qed.

Lemma uint_starts_with_digit p :
  exists c rest, NilZero.string_of_uint (Pos.to_uint p) = String c rest
                 /\ CString.isdigit c = true.
Proof.
  unfold NilZero.string_of_uint.
  destruct (Pos.to_uint p); cbn [NilEmpty.string_of_uint]; by eauto.
Qed.

Lemma digit_first_atoi c rest :
  CString.isdigit c = true ->
  CSearch.atoi (String c rest) = CString.atoi (String c rest).
Proof.
  intros Hc.
  destruct c as [[] [] [] [] [] [] [] []];
    first [ discriminate Hc | reflexivity ].
Qed.

(** A number of the range of [int], printed with [%d], is read back by
    [atoi]. *)
Lemma atoi_decimal z :
  - 2 ^ 31 <= z < 2 ^ 31 -> CSearch.atoi (CString.decimal z) = z.
Proof.
  intros Hz. unfold CString.decimal. destruct z as [|p|p]; [done|..];
    cbn [Z.to_int NilZero.string_of_int];
    destruct (uint_starts_with_digit p) as (c & rest & Hs & Hc).
  - rewrite Hs, digit_first_atoi by done. rewrite <- Hs.
    apply atoi_uint_pos. lia.
  - change (CSearch.atoi (String "-" (NilZero.string_of_uint (Pos.to_uint p))))
      with (CString.to_int (CString.to_long
              (- CString.atoi_digits 0
                   (NilZero.string_of_uint (Pos.to_uint p))))).
    rewrite digits_uint_pos. by apply to_int_small.
Qed.

(** Outside that range it does: the text of 2^32 + 7 reads as 7, and the
    text of 2^31 as -2^31. *)
Lemma atoi_narrows :
  CSearch.atoi "4294967303" = 7
  /\ CSearch.atoi "2147483648" = - 2147483648
  /\ CString.atoi "99999999999" = 1215752191.
Proof. by vm_compute. Qed.

Lemma prefix_refl_app needle rest :
  String.prefix needle (needle ++ rest) = true.
Proof.
  induction needle as [|x needle IH]; [by destruct rest|].
  rewrite append_cons. cbn [String.prefix].
  by destruct (ascii_dec x x).
Qed.

Lemma prefix_first_char q needle c s :
  c <> q -> String.prefix (String q needle) (String c s) = false.
Proof. intros Hc. cbn [String.prefix]. by destruct (ascii_dec q c). Qed.

(** A text free of the needle's first character is passed over. *)
Lemma before_strstr_skip q needle t rest :
  CSearch.has_char q t = false ->
  CSearch.before_strstr (String q needle) (t ++ String q needle ++ rest)
  = Some t.
Proof.
  induction t as [|c t IH]; intros Ht.
  - change (EmptyString ++ String q needle ++ rest)%string
      with (String q needle ++ rest)%string.
    destruct (String q needle ++ rest)%string eqn:E; [done|].
    cbn [CSearch.before_strstr]. rewrite <- E.
    by rewrite prefix_refl_app.
  - rewrite has_char_cons in Ht. apply orb_false_iff in Ht as [Hc Ht].
    rewrite append_cons. cbn [CSearch.before_strstr].
    rewrite prefix_first_char by (intros ->; by rewrite Ascii.eqb_refl in Hc).
    by rewrite IH.
Qed.

Lemma decimal_no_slash z : CSearch.has_char "/" (CString.decimal z) = false.
Proof.
  destruct (CSearch.has_char "/" (CString.decimal z)) eqn:H; [|done].
  by apply decimal_chars in H as [H|H].
Qed.

(** X14.  The stop route and the status route agree.  A POST to
    [/api/recordings/<id>/stop], with an identity of the range of [int]
    written in decimal, reaches [stop_recording] with that identity; it
    answers 200 with the success body exactly when the identity is among
    those the status queries list, and 404 otherwise, leaving the server as
    it was.  (The route reads the identity into an [int]: a larger number
    names the recording it is narrowed to, see [atoi_narrows].) *)
Theorem stop_route_serves_listed_recordings
    (recording : Z) (suffix : string) (s : Server) :
  - 2 ^ 31 <= recording < 2 ^ 31 ->
  let ids := fst (get_active_recording_ids (world s)) in
  let path := ("/api/recordings/" ++ CString.decimal recording
                 ++ "/stop" ++ suffix)%string in
  let r := recordings_item "POST" path s in
  api_route path = api_recordings_item
  /\ snd r = with_world (snd (stop_recording recording (world s))) s
  /\ (In recording ids -> fst r = (200, Some success))
  /\ (~ In recording ids ->
      fst r = (404, Some (json_error "Recording not found or not active"))
      /\ snd r = s).
Proof.
  intros Hint. cbv zeta.
  assert (Hcut : CSearch.before_strstr "/stop"
            (CString.advance 16
               ("/api/recordings/" ++ CString.decimal recording
                  ++ "/stop" ++ suffix)%string)
          = Some (CString.decimal recording)).
  { change (CString.advance 16 _)
      with (CString.decimal recording ++ "/stop" ++ suffix)%string.
    apply (before_strstr_skip "/" "stop"), decimal_no_slash. }
  unfold recordings_item. rewrite Hcut, atoi_decimal by done.
  cbn [String.eqb Ascii.eqb Bool.eqb fst snd].
  destruct (stop_found_iff_listed recording (world s)) as (Hfound & Hcases).
  split_and!.
  - unfold api_route.
    change ("/api/recordings/" ++ CString.decimal recording
              ++ "/stop" ++ suffix)%string
      with ("/api/recordings/"
              ++ (CString.decimal recording ++ "/stop" ++ suffix))%string.
    unfold CString.starts_with. rewrite prefix_refl_app.
    reflexivity.
  - done.
  - intros Hin. apply Hfound in Hin. by rewrite Hin.
  - intros Hnot. destruct Hcases as [H0|H1]; [|by apply Hfound in H1].
    rewrite H0. split; [done|].
    destruct (list_find (fun a => recording_id a = recording /\ pid a <> 0)
                        (active_recordings (world s))) eqn:Hfind.
    + destruct p as [j a].
      rewrite (stop_recording_found _ _ _ _ Hfind) in H0. done.
    + rewrite (stop_recording_not_found _ _ Hfind). by destruct s.
Qed.

Lemma stop_route_serves_listed_recordings_witness :
  let s := {| world := SlotTable.scenario_recording;
              app_config := Config.defaults; config_file := None;
              config_writable := true; unlinked := [] |} in
  fst (recordings_item "POST" "/api/recordings/1/stop" s)
    = (200, Some success)
  /\ fst (recordings_item "POST" "/api/recordings/2/stop" s)
     = (404, Some (json_error "Recording not found or not active"))
  /\ snd (recordings_item "POST" "/api/recordings/2/stop" s) = s.
Proof.
  cbv zeta.
  destruct (stop_route_serves_listed_recordings 1 EmptyString
              {| world := SlotTable.scenario_recording;
                 app_config := Config.defaults; config_file := None;
                 config_writable := true; unlinked := [] |})
    as (_ & _ & Hlisted & _); [lia|].
  destruct (stop_route_serves_listed_recordings 2 EmptyString
              {| world := SlotTable.scenario_recording;
                 app_config := Config.defaults; config_file := None;
                 config_writable := true; unlinked := [] |})
    as (_ & _ & _ & Hother); [lia|].
  split.
  - apply Hlisted. vm_compute. by left.
  - apply Hother. vm_compute. intros [H|[]]. discriminate H.
Defined.

(** *** The configuration route *)

Lemma strstr_step needle c s :
  String.prefix needle (String c s) = false ->
  CSearch.strstr needle (String c s) = CSearch.strstr needle s.
Proof. intros H. cbn [CSearch.strstr]. by rewrite H. Qed.

Lemma strstr_here needle rest :
  CSearch.strstr needle (needle ++ rest) = Some (needle ++ rest)%string.
Proof.
  pose proof (prefix_refl_app needle rest) as H.
  destruct (needle ++ rest)%string; cbn [CSearch.strstr]; by rewrite H.
Qed.

Lemma strstr_skip_free q needle t rest :
  CSearch.has_char q t = false ->
  CSearch.strstr (String q needle) (t ++ rest)
  = CSearch.strstr (String q needle) rest.
Proof.
  induction t as [|c t IH]; intros Ht; [done|].
  rewrite has_char_cons in Ht. apply orb_false_iff in Ht as [Hc Ht].
  rewrite append_cons, strstr_step; [by apply IH|].
  apply prefix_first_char. intros ->. by rewrite Ascii.eqb_refl in Hc.
Qed.

Lemma advance_app a b : CString.advance (String.length a) (a ++ b) = b.
Proof. induction a as [|x a IH]; [done|]. by rewrite append_cons. Qed.

(** A value without a double quote, closed by a quote and a comma, does
    not complete the codec key begun by the quote before it. *)
Lemma codec_key_not_in_value b rest :
  CSearch.has_char Json.quote b = false ->
  String.prefix codec_key
    (String Json.quote (b ++ String Json.quote (String "," rest))) = false.
Proof.
  intros Hq.
  destruct (String.prefix codec_key _) eqn:H; [exfalso|done].
  unfold codec_key in H.
  apply prefix_inv in H as (s0 & E & H). injection E as <-.
  do 5 (apply prefix_inv in H as (? & E & H);
        destruct b as [|? b]; [discriminate E|];
        rewrite append_cons in E; injection E as -> <-;
        rewrite has_char_cons in Hq; apply orb_false_iff in Hq as [_ Hq]).
  apply prefix_inv in H as (? & E & H).
  destruct b as [|? b].
  - injection E as <-. apply prefix_inv in H as (? & E & _). discriminate E.
  - rewrite append_cons in E. injection E as -> <-.
    rewrite has_char_cons in Hq. discriminate Hq.
Qed.

Lemma config_json_text b c :
  (String.length b <= 31)%nat -> (String.length c <= 31)%nat ->
  config_json (mkAppConfig b c)
  = String "{" (backend_key ++
      (b ++ String Json.quote (String ","
        (codec_key ++ (c ++ String Json.quote "}")))))%string.
Proof.
  intros Hb Hc. unfold config_json. cbn [app_backend app_codec].
  rewrite truncate_short; [reflexivity|].
  rewrite !length_append. cbn [String.length]. 
  change (String.length backend_key) with 11%nat.
  change (String.length codec_key) with 9%nat.
  change (String.length dq) with 1%nat. lia.
Qed.

Lemma post_config_of_json b c cfg :
  CSearch.has_char Json.quote b = false ->
  CSearch.has_char Json.quote c = false ->
  (String.length b <= 31)%nat -> (String.length c <= 31)%nat ->
  post_config (config_json (mkAppConfig b c)) cfg = mkAppConfig b c.
Proof.
  intros Hqb Hqc Hb Hc. rewrite config_json_text by done.
  assert (json_field backend_key
            (String "{" (backend_key ++
               (b ++ String Json.quote (String ","
                 (codec_key ++ (c ++ String Json.quote "}")))))%string)
          = Some b) as Hbackend.
  { unfold json_field.
    rewrite strstr_step by reflexivity.
    rewrite strstr_here, advance_app.
    by rewrite split_at_key. }
  assert (json_field codec_key
            (String "{" (backend_key ++
               (b ++ String Json.quote (String ","
                 (codec_key ++ (c ++ String Json.quote "}")))))%string)
          = Some c) as Hcodec.
  { unfold json_field.
    rewrite strstr_step by reflexivity.
    unfold backend_key at 1. rewrite !append_cons.
    do 10 (rewrite strstr_step by reflexivity).
    rewrite strstr_step by (apply codec_key_not_in_value; done).
    change (EmptyString ++ ?x)%string with x.
    unfold codec_key at 1 2.
    rewrite strstr_skip_free by done.
    do 2 (rewrite strstr_step by reflexivity).
    fold codec_key.
    rewrite strstr_here, advance_app.
    by rewrite split_at_key. }
  unfold post_config. rewrite Hbackend, Hcodec.
  cbn [app_backend app_codec]. by rewrite !truncate_short.
Qed.

(** X15.  The configuration route round trip.  When the body of a POST
    to [/api/config] is the object a GET of the route reports for a
    configuration (values without double quote or newline, fitting their
    32-byte fields), the POST succeeds, [app_config] becomes exactly that
    configuration, the file saved loads back to it at the next start, and
    a following GET reports it again. *)
Theorem config_route_round_trip (cfg : AppConfig) (buffer : string)
    (s : Server) :
  CSearch.has_char Json.quote (app_backend cfg) = false ->
  CSearch.has_char Json.quote (app_codec cfg) = false ->
  CSearch.has_char Stdio.newline (app_backend cfg) = false ->
  CSearch.has_char Stdio.newline (app_codec cfg) = false ->
  (String.length (app_backend cfg) <= 31)%nat ->
  (String.length (app_codec cfg) <= 31)%nat ->
  body_of buffer = Some (config_json cfg) ->
  config_writable s = true ->
  let r := config_route "POST" buffer s in
  fst r = (200, Some success)
  /\ app_config (snd r) = cfg
  /\ option_map (fun text => Config.config_load (Some text))
                (config_file (snd r)) = Some cfg
  /\ fst (config_route "GET" buffer (snd r)) = (200, Some (config_json cfg))
  /\ world (snd r) = world s.
Proof.
  intros Hqb Hqc Hnb Hnc Hb Hc Hbody Hw. cbv zeta.
  unfold config_route. cbn [String.eqb Ascii.eqb Bool.eqb].
  rewrite Hbody, Hw. cbn [fst snd app_config config_file world option_map].
  destruct cfg as [b c]. cbn [app_backend app_codec] in *.
  rewrite post_config_of_json by done.
  split_and!; try done.
  by rewrite config_load_of_saved.
Qed.

Lemma config_route_round_trip_witness :
  let cfg := mkAppConfig "vaapi" "hevc" in
  let s := {| world := SlotTable.scenario_start; app_config := Config.defaults;
              config_file := None; config_writable := true;
              unlinked := [] |} in
  let buffer :=
    ("POST /api/config HTTP/1.1" ++ blank_line ++ config_json cfg)%string in
  app_config (snd (config_route "POST" buffer s)) = cfg.
Proof.
  cbv zeta.
  refine (proj1 (proj2 (config_route_round_trip
            (mkAppConfig "vaapi" "hevc") _ _ _ _ _ _ _ _ _ _)));
    first [ reflexivity | simpl; lia ].
Defined.

(** *** Deleting a recording *)




(** *** Playing a recording back *)

Lemma strtok_all_first t ts :
  CSearch.has_char "/" t = false -> t <> EmptyString ->
  Forall (fun t => CSearch.has_char "/" t = false /\ t <> EmptyString) ts ->
  CString.strtok_all "/" (t ++ Playlist.segments ts) = t :: ts.
Proof.
  intros Ht Hne Hts. unfold CString.strtok_all.
  rewrite fields_segments; [|done|].
  - cbn [List.filter]. destruct t; [done|]. cbn [String.eqb negb].
    f_equal. induction Hts as [|x l [_ Hx] _ IH]; [done|].
    cbn [List.filter]. destruct x; [done|]. cbn. by rewrite IH.
  - eapply Forall_impl; [exact Hts|]. by intros ? [? _].
Qed.

Lemma decimal_not_empty z : CString.decimal z <> EmptyString.
Proof.
  unfold CString.decimal. destruct z as [|p|p]; [done|..];
    cbn [Z.to_int NilZero.string_of_int]; [|done].
  destruct (uint_starts_with_digit p) as (c & rest & -> & _). done.
Qed.

(** X17.  The play route reads the recording identity and the options
    from its path: for [/api/play/<id>/<option>/...], with an identity of
    the range of [int] written in decimal and options that are non-empty
    and free of slashes, an identity that is not positive is refused with
    400; a
    positive one is looked up, 404 is answered when no file is recorded
    for it, and otherwise exactly the file recorded for it is handed to
    the encoder, with the configuration the options give. *)
Theorem play_route_reads_id_and_options
    (i : Z) (options : list string) (d : Db.Database) :
  - 2 ^ 31 <= i < 2 ^ 31 ->
  Forall (fun t => CSearch.has_char "/" t = false /\ t <> EmptyString)
         options ->
  let path := ("/api/play/" ++ CString.decimal i
                 ++ Playlist.segments options)%string in
  api_route path = api_play
  /\ play_route path d =
       if (0 <? i)%Z then
         match db_get_recording_path i d with
         | Some file =>
             play_source file (fold_left play_token options play_start)
         | None => play_reply (404, Some (json_error "Recording not found"))
         end
       else play_reply (400, Some (json_error "Invalid ID")).
Proof.
  intros Hint Hopts. cbv zeta. split.
  - unfold api_route, CString.starts_with.
    change ("/api/play/" ++ CString.decimal i ++ Playlist.segments options)%string
      with ("/api/play/" ++ (CString.decimal i ++ Playlist.segments options))%string.
    rewrite (prefix_refl_app "/api/play/"). reflexivity.
  - unfold play_route.
    change (CString.advance 10 _)
      with (CString.decimal i ++ Playlist.segments options)%string.
    rewrite strtok_all_first;
      [|apply decimal_no_slash|apply decimal_not_empty|done].
    destruct i as [|p|p].
    + reflexivity.
    + unfold CString.decimal. cbn [Z.to_int NilZero.string_of_int].
      destruct (uint_starts_with_digit p) as (c & rest & Hs & Hc).
      rewrite Hs, Hc. rewrite <- Hs, atoi_uint_pos by lia. reflexivity.
    + reflexivity.
Qed.

Lemma play_route_reads_id_and_options_witness :
  let d := Db.mkDatabase true []
             [Db.mkRecording 7 "News" "5.1" 1700000000000 0
                             "recordings/News-1700000000000.mp4"] 8 in
  play_route "/api/play/7/hevc/ac6" d
  = play_source "recordings/News-1700000000000.mp4"
      {| Transcode.backend := Transcode.TRANSCODE_BACKEND_SOFTWARE;
         Transcode.codec := Transcode.TRANSCODE_CODEC_HEVC;
         Transcode.bitrate_kbps := 0; Transcode.surround51 := 1 |}.
Proof.
  cbv zeta.
  apply (proj2 (play_route_reads_id_and_options 7 ["hevc"; "ac6"]
                  (Db.mkDatabase true []
                     [Db.mkRecording 7 "News" "5.1" 1700000000000 0
                                     "recordings/News-1700000000000.mp4"] 8)
                  ltac:(lia) ltac:(repeat constructor; done))).
Defined.

(** The same for a positive identity alone. *)
Lemma play_route_bare (i : Z) (d : Db.Database) :
  0 < i < 2 ^ 31 ->
  play_route ("/api/play/" ++ CString.decimal i) d
  = match db_get_recording_path i d with
    | Some file => play_source file play_start
    | None => play_reply (404, Some (json_error "Recording not found"))
    end.
Proof.
  intros Hi. unfold play_route.
  change (CString.advance 10 _) with (CString.decimal i).
  pose proof (strtok_all_first (CString.decimal i) []
                (decimal_no_slash i) (decimal_not_empty i)) as Htok.
  cbn [Playlist.segments] in Htok. rewrite append_nil_r in Htok.
  rewrite Htok by constructor.
  destruct i as [|p|p]; try lia.
  unfold CString.decimal. cbn [Z.to_int NilZero.string_of_int].
  destruct (uint_starts_with_digit p) as (c & rest & Hs & Hc).
  rewrite Hs, Hc. rewrite <- Hs, atoi_uint_pos by lia. reflexivity.
Qed.

Lemma find_appended {A} (f : A -> bool) l x :
  Forall (fun y => f y = false) l -> f x = true ->
  List.find f (l ++ [x]) = Some x.
Proof.
  intros Hl Hx. induction Hl as [|y l Hy _ IH]; cbn [app List.find].
  - by rewrite Hx.
  - by rewrite Hy.
Qed.

(** X18.  From the recorder to playback.  When the scheduler starts a
    recording for a due timer (database usable, row identities handed out
    in increasing order from 1 and still below 2^31, so that the cast to
    [int] keeps them), the file named last in the encoder's
    arguments is the file stored in the new row, and a request for
    [/api/play/<id>] with the new row's identity hands exactly that file
    to the playback encoder. *)
Theorem scheduled_recording_can_be_played
    (now_ms : Z) (t : Db.Timer) (w : World) :
  has_timer (Db.id t) (active_recordings w) = false ->
  Db.usable (db w) = true ->
  0 < Db.next_rowid (db w) < 2 ^ 31 ->
  Forall (fun r => Db.rec_id r < Db.next_rowid (db w))
         (Db.recordings (db w)) ->
  let w' := snd (start_recording now_ms t w) in
  let file := recording_filename (Db.title t) now_ms in
  In (call_fork (ffmpeg_argv (Db.channel_num t) file)) (calls w')
  /\ last (ffmpeg_argv (Db.channel_num t) file) = Some file
  /\ play_route ("/api/play/" ++ CString.decimal (Db.next_rowid (db w)))
                (db w')
     = play_source file play_start.
Proof.
  intros Hfree Husable Hrow Hids. cbv zeta.
  assert (Hadd : Db.db_add_recording_entry (Db.title t) (Db.channel_num t)
                   now_ms 0 (recording_filename (Db.title t) now_ms) (db w)
                 = (CString.to_int (Db.next_rowid (db w)),
                    {| Db.usable := Db.usable (db w);
                       Db.timers := Db.timers (db w);
                       Db.recordings := Db.recordings (db w) ++
                         [{| Db.rec_id := Db.next_rowid (db w);
                             Db.rec_title := Db.title t;
                             Db.rec_channel_name := Db.channel_num t;
                             Db.rec_start_time := now_ms;
                             Db.rec_end_time := 0;
                             Db.rec_file_path :=
                               recording_filename (Db.title t) now_ms |}];
                       Db.next_rowid := Db.next_rowid (db w) + 1 |})).
  { unfold Db.db_add_recording_entry. by rewrite Husable. }
  assert (Hw : calls (snd (start_recording now_ms t w))
               = calls (SlotTable.after_fork now_ms t w)
               /\ db (snd (start_recording now_ms t w))
                  = db (SlotTable.after_fork now_ms t w)).
  { rewrite (start_recording_inactive _ _ _ Hfree). cbv zeta.
    rewrite Hadd. cbn [fst].
    assert (CString.to_int (Db.next_rowid (db w)) = Db.next_rowid (db w))
      as -> by (unfold CString.to_int; rewrite Z.mod_small by lia; lia).
    rewrite (proj2 (Z.eqb_neq (Db.next_rowid (db w)) (-1))) by lia.
    destruct (0 <? _)%Z; [|done].
    rewrite populate_run. cbn [snd].
    by destruct (list_find _ _) as [[? ?]|]. }
  destruct Hw as [-> ->]. unfold SlotTable.after_fork. cbv zeta.
  cbn [calls db]. rewrite Hadd. cbn [snd].
  split_and!.
  - apply in_or_app. right. right. right. by left.
  - reflexivity.
  - rewrite play_route_bare by done.
    unfold db_get_recording_path. cbn [Db.usable Db.recordings].
    rewrite Husable, find_appended; [done| |cbn; apply Z.eqb_refl].
    eapply Forall_impl; [exact Hids|]. intros r Hr. cbn in Hr.
    apply Z.eqb_neq. lia.
Qed.

Lemma scheduled_recording_can_be_played_witness :
  let w := SlotTable.scenario_start in
  let t := SlotTable.scenario_timer in
  let now_ms := 1700000000000 in
  play_route ("/api/play/" ++ CString.decimal (Db.next_rowid (db w)))
             (db (snd (start_recording now_ms t w)))
  = play_source (recording_filename (Db.title t) now_ms) play_start.
Proof.
  cbv zeta.
  refine (proj2 (proj2 (scheduled_recording_can_be_played 1700000000000
            SlotTable.scenario_timer SlotTable.scenario_start _ _ _ _)));
    first [ reflexivity | repeat constructor ].
Defined.

(** *** The status route *)











End ApiRoutes.

(* ===================================================================== *)
(** * The channel list *)
(* ===================================================================== *)

Section ChannelList.
Import Channels.
Local Open Scope list_scope.

(** *** The order *)

Lemma greater_false k1 k2 : greater k1 k2 = false -> key_le k1 k2.
Proof. unfold greater, key_le. intros H. lia. Qed.

Lemma greater_true k1 k2 : greater k1 k2 = true -> key_le k2 k1.
Proof. unfold greater, key_le. intros H. lia. Qed.

Lemma key_le_trans k1 k2 k3 : key_le k1 k2 -> key_le k2 k3 -> key_le k1 k3.
Proof. unfold key_le. lia. Qed.

Lemma in_order_trans a b c : in_order a b -> in_order b c -> in_order a c.
Proof.
  unfold in_order.
  destruct (scan_number (number a)), (scan_number (number b)),
    (scan_number (number c)); try done.
  apply key_le_trans.
Qed.

Lemma in_order_refl a : is_Some (scan_number (number a)) -> in_order a a.
Proof. intros [k Hk]. unfold in_order, key_le. rewrite Hk. lia. Qed.

(** *** The two readings of a number *)

Lemma sscanf_scanned prior s k :
  scan_number s = Some k -> sscanf_number prior s = k.
Proof.
  unfold scan_number, sscanf_number.
  destruct (scan_int s) as [[major rest]|]; [|done].
  destruct rest as [|c rest]; [done|].
  destruct c as [[] [] [] [] [] [] [] []]; try done.
  destruct (scan_int rest) as [[minor ?]|]; [|done].
  by intros [= <-].
Qed.

(** *** The inner loop *)

Lemma bubble_cons junk j m a b r :
  bubble junk j (S m) (a :: b :: r) =
    if greater (sscanf_number (fst (junk j)) (number a))
               (sscanf_number (snd (junk j)) (number b))
    then b :: bubble junk (S j) m (a :: r)
    else a :: bubble junk (S j) m (b :: r).
Proof. reflexivity. Qed.

(** Whatever the numbers and whatever the variables held, a run only
    permutes. *)
Lemma bubble_permutation junk m : forall j l,
  Permutation l (bubble junk j m l).
Proof.
  induction m as [|m IH]; intros j l.
  { by destruct l. }
  destruct l as [|a [|b r]]; try reflexivity.
  rewrite bubble_cons. destruct (greater _ _).
  - rewrite perm_swap. constructor. apply IH.
  - constructor. apply IH.
Qed.

(** With every number readable, a run over the whole list leaves a
    greatest element last, and what the variables held does not matter. *)
Lemma bubble_greatest_last junk r : forall j a,
  Forall (fun c => is_Some (scan_number (number c))) (a :: r) ->
  exists p mx,
    bubble junk j (length r) (a :: r) = p ++ [mx]
    /\ Permutation (a :: r) (p ++ [mx])
    /\ Forall (fun x => in_order x mx) (p ++ [mx]).
Proof.
  induction r as [|b r IH]; intros j a Hk.
  { exists [], a. split_and!; [done..|].
    repeat constructor. apply in_order_refl. by inversion Hk. }
  assert (Ha : is_Some (scan_number (number a))) by (by inversion Hk).
  assert (Hb : is_Some (scan_number (number b)))
    by (inversion Hk as [|? ? _ Hk']; by inversion Hk').
  assert (Hr : Forall (fun c => is_Some (scan_number (number c))) r)
    by (inversion Hk as [|? ? _ Hk']; by inversion Hk').
  cbn [length]. rewrite bubble_cons.
  destruct Ha as [ka Hka], Hb as [kb Hkb].
  rewrite (sscanf_scanned _ _ _ Hka), (sscanf_scanned _ _ _ Hkb).
  destruct (greater ka kb) eqn:Hg.
  - destruct (IH (S j) a) as (p & mx & Hrun & Hperm & Hmax).
    { constructor; [by exists ka|done]. }
    exists (b :: p), mx. rewrite Hrun. split_and!; [done|..].
    + rewrite perm_swap. cbn [app]. by constructor.
    + cbn [app]. constructor; [|done].
      apply in_order_trans with a.
      * unfold in_order. rewrite Hka, Hkb. by apply greater_true.
      * rewrite Forall_forall in Hmax. apply Hmax.
        apply list_elem_of_In. rewrite <- Hperm. by left.
  - destruct (IH (S j) b) as (p & mx & Hrun & Hperm & Hmax).
    { constructor; [by exists kb|done]. }
    exists (a :: p), mx. rewrite Hrun. split_and!; [done|..].
    + cbn [app]. by constructor.
    + cbn [app]. constructor; [|done].
      apply in_order_trans with b.
      * unfold in_order. rewrite Hka, Hkb. by apply greater_false.
      * rewrite Forall_forall in Hmax. apply Hmax.
        apply list_elem_of_In. rewrite <- Hperm. by left.
Qed.

Lemma bubble_any_junk junk junk' m : forall j j' l,
  Forall (fun c => is_Some (scan_number (number c))) l ->
  bubble junk j m l = bubble junk' j' m l.
Proof.
  induction m as [|m IH]; intros j j' l Hk; [done|].
  destruct l as [|a [|b r]]; try reflexivity.
  assert (Ha : is_Some (scan_number (number a))) by (by inversion Hk).
  assert (Hb : is_Some (scan_number (number b)))
    by (inversion Hk as [|? ? _ Hk']; by inversion Hk').
  assert (Hr : Forall (fun c => is_Some (scan_number (number c))) r)
    by (inversion Hk as [|? ? _ Hk']; by inversion Hk').
  rewrite !bubble_cons.
  destruct Ha as [ka Hka], Hb as [kb Hkb].
  rewrite !(sscanf_scanned _ _ _ Hka), !(sscanf_scanned _ _ _ Hkb).
  destruct (greater ka kb); f_equal; apply IH; constructor; eauto.
Qed.

(** The inner loop does not look past its bound. *)
Lemma bubble_app junk m : forall j pre suf,
  (S m <= length pre)%nat ->
  bubble junk j m (pre ++ suf) = bubble junk j m pre ++ suf.
Proof.
  induction m as [|m IH]; intros j pre suf Hlen.
  { by destruct pre. }
  destruct pre as [|a [|b r]]; cbn [length] in Hlen; try lia.
  cbn [app]. rewrite !bubble_cons.
  destruct (greater _ _).
  - change (a :: r ++ suf) with ((a :: r) ++ suf).
    rewrite IH by (cbn [length]; lia). reflexivity.
  - change (b :: r ++ suf) with ((b :: r) ++ suf).
    rewrite IH by (cbn [length]; lia). reflexivity.
Qed.

(** *** The outer loop *)

Lemma sort_rounds_permutation (junk : nat -> Junk) n rounds : forall l,
  Permutation l
    (fold_left (fun acc i => bubble (junk i) 0 (n - i - 1) acc) rounds l).
Proof.
  induction rounds as [|i rounds IH]; intros l; [done|].
  cbn [fold_left]. rewrite <- IH. apply bubble_permutation.
Qed.

Lemma sort_rounds_any_junk (junk junk' : nat -> Junk) n rounds : forall l,
  Forall (fun c => is_Some (scan_number (number c))) l ->
  fold_left (fun acc i => bubble (junk i) 0 (n - i - 1) acc) rounds l
  = fold_left (fun acc i => bubble (junk' i) 0 (n - i - 1) acc) rounds l.
Proof.
  induction rounds as [|i rounds IH]; intros l Hk; [done|].
  cbn [fold_left].
  rewrite (bubble_any_junk (junk i) (junk' i) _ 0 0 l Hk).
  apply IH.
  eapply Permutation_Forall; [|exact Hk]. apply bubble_permutation.
Qed.

(** Round [i] finds the last [i] elements sorted and above all others,
    and adds one element to them. *)
Lemma sort_rounds (junk : nat -> Junk) n k : forall pre suf,
  n = (length pre + length suf)%nat ->
  (length pre - 1)%nat = k ->
  Forall (fun c => is_Some (scan_number (number c))) pre ->
  StronglySorted in_order suf ->
  Forall (fun x => Forall (in_order x) suf) pre ->
  StronglySorted in_order
    (fold_left (fun acc i => bubble (junk i) 0 (n - i - 1) acc)
               (seq (length suf) k) (pre ++ suf)).
Proof.
  induction k as [|k IH]; intros pre suf Hn Hk Hkeys Hsorted Hbelow.
  { cbn [seq fold_left].
    destruct pre as [|x [|y pre]]; cbn [length] in Hk; try lia; [done|].
    cbn [app]. constructor; [done|]. by inversion Hbelow. }
  destruct pre as [|a r]; cbn [length] in Hk; [lia|].
  cbn [seq fold_left].
  replace (n - length suf - 1)%nat with (length r)
    by (cbn [length] in Hn; lia).
  rewrite bubble_app by (cbn [length]; lia).
  destruct (bubble_greatest_last (junk (length suf)) r 0 a Hkeys)
    as (p & mx & Hrun & Hperm & Hmax).
  rewrite Hrun. rewrite <- app_assoc. cbn [app].
  assert (Hlen : length (a :: r) = length (p ++ [mx]))
    by (by apply Permutation_length).
  rewrite length_app in Hlen. cbn [length] in Hlen.
  assert (Hmx : In mx (a :: r)).
  { apply (Permutation_in mx (Permutation_sym Hperm)).
    apply in_or_app. right. by left. }
  assert (Hp : forall x, In x p -> In x (a :: r)).
  { intros x Hx. apply (Permutation_in x (Permutation_sym Hperm)).
    apply in_or_app. by left. }
  rewrite List.Forall_forall in Hbelow, Hkeys.
  apply Forall_app in Hmax as [Hmax _].
  apply (IH p (mx :: suf)).
  - cbn [length] in *. lia.
  - lia.
  - apply List.Forall_forall. intros x Hx. by apply Hkeys, Hp.
  - constructor; [done|]. by apply Hbelow.
  - apply List.Forall_forall. intros x Hx. constructor.
    + rewrite List.Forall_forall in Hmax. by apply Hmax.
    + by apply Hbelow, Hp.
Qed.

(** X20.  [channels_load] sorts by channel number.  When the number of
    every channel has at most 15 characters (what [number[16]] holds) and
    reads as [major.minor], then whatever the variables of
    the comparison held before, the bubble sort ends with one and the same
    permutation of the channels, in which every channel is followed only
    by channels whose pair of [int]s (major, minor), as [sscanf] stores
    them, is not smaller. *)
Theorem channels_are_sorted_by_number (junk : nat -> Junk)
    (l : list Channel) :
  Forall (fun c => (String.length (number c) <= 15)%nat
                   /\ is_Some (scan_number (number c))) l ->
  Permutation l (sort_channels junk l)
  /\ StronglySorted in_order (sort_channels junk l)
  /\ (forall junk', sort_channels junk' l = sort_channels junk l).
Proof.
  intros Hall.
  assert (Hkeys : Forall (fun c => is_Some (scan_number (number c))) l)
    by (eapply Forall_impl; [exact Hall|]; by intros ? [_ ?]).
  clear Hall. unfold sort_channels. split_and!.
  - apply sort_rounds_permutation.
  - pose proof (sort_rounds junk (length l) (length l - 1) l []) as H.
    rewrite app_nil_r in H. cbn [length] in H. apply H.
    + lia.
    + done.
    + done.
    + constructor.
    + apply List.Forall_forall. intros. constructor.
  - intros junk'. by apply sort_rounds_any_junk.
Qed.

Lemma channels_are_sorted_by_number_witness :
  sort_channels (fun _ _ => ((7, 7), (0, 0)))
    [mkChannel "WXYZ" "15.1" "3" "533000000";
     mkChannel "WABC" "5.2" "2" "177000000";
     mkChannel "WABC HD" "5.1" "1" "177000000"]
  = [mkChannel "WABC HD" "5.1" "1" "177000000";
     mkChannel "WABC" "5.2" "2" "177000000";
     mkChannel "WXYZ" "15.1" "3" "533000000"]
  /\ StronglySorted in_order
       (sort_channels (fun _ _ => ((7, 7), (0, 0)))
          [mkChannel "WXYZ" "15.1" "3" "533000000";
           mkChannel "WABC" "5.2" "2" "177000000";
           mkChannel "WABC HD" "5.1" "1" "177000000"]).
Proof.
  split; [vm_compute; reflexivity|].
  apply (channels_are_sorted_by_number (fun _ _ => ((7, 7), (0, 0)))
           [mkChannel "WXYZ" "15.1" "3" "533000000";
            mkChannel "WABC" "5.2" "2" "177000000";
            mkChannel "WABC HD" "5.1" "1" "177000000"]).
  repeat constructor; first [ simpl; lia | eexists; reflexivity ].
Defined.

(** *** The reading loop *)

Lemma block_name_length trimmed : (String.length (block_name trimmed) <= 127)%nat.
Proof.
  unfold block_name.
  destruct (CSearch.split_at "]" trimmed) as [[before ?]|]; [|cbn; lia].
  cbv zeta.
  destruct ((0 <? Z.of_nat (String.length before) - 1)%Z
            && (Z.of_nat (String.length before) - 1 <? 128)%Z) eqn:H;
    [|cbn; lia].
  apply andb_true_iff in H as [_ H]. apply Z.ltb_lt in H.
  destruct before as [|c before]; cbn [CString.advance String.length] in *; lia.
Qed.

Lemma save_well_formed st :
  Forall well_formed (channels st) -> fields_fit (current st) ->
  Forall well_formed (save st).
Proof.
  intros Hall Hfit. unfold save.
  destruct (in_channel st && _) eqn:H; [|done].
  apply Forall_app_2; [done|]. constructor; [|constructor].
  apply andb_true_iff in H as [_ H]. apply Nat.ltb_lt in H.
  unfold well_formed. unfold fields_fit in Hfit. lia.
Qed.

Lemma read_line_keeps st line :
  Forall well_formed (channels st) -> fields_fit (current st) ->
  Forall well_formed (channels (read_line st line))
  /\ fields_fit (current (read_line st line)).
Proof.
  intros Hall Hfit. unfold read_line.
  pose proof (block_name_length (trim line)) as Hname.
  pose proof (save_well_formed st Hall Hfit) as Hsave.
  assert (Hblock : fields_fit {| name := block_name (trim line);
                                 number := EmptyString;
                                 service_id := EmptyString;
                                 frequency := EmptyString |}).
  { unfold fields_fit. cbn [name number service_id frequency String.length].
    lia. }
  destruct Hfit as (Hn & Hm & Hs & Hf).
  repeat case_match; cbn [channels current]; (split; [done|]);
    try done; unfold fields_fit;
    cbn [name number service_id frequency];
    split_and!; try done; apply truncate_length.
Qed.

(** X21.  Whatever the file holds, and whatever the variables of the
    sort held before a number was read into them, [channels_load] returns
    the channels read, in some order, and every one of them has a channel
    number of 1 to 15 characters, and a name, a service identity and a
    frequency that fit their fields (127, 15 and 15 characters): no field
    of a [Channel] is overrun and no channel without a number is listed.
    Without a file the result is [NULL]. *)
Theorem loaded_channels_are_well_formed (junk : nat -> Junk) :
  channels_load junk None = None
  /\ forall text,
       exists l,
         channels_load junk (Some text) = Some l
         /\ Permutation (read_channels text) l
         /\ Forall well_formed l.
Proof.
  split; [done|]. intros text. eexists. split; [reflexivity|].
  assert (Hperm : Permutation (read_channels text)
                    (sort_channels junk (read_channels text)))
    by apply sort_rounds_permutation.
  split; [exact Hperm|].
  eapply Permutation_Forall; [exact Hperm|].
  unfold read_channels.
  assert (forall lines st,
    Forall well_formed (channels st) -> fields_fit (current st) ->
    Forall well_formed (channels (fold_left read_line lines st))
    /\ fields_fit (current (fold_left read_line lines st))) as Hloop.
  { induction lines as [|line lines IH]; intros st Hall Hfit; [done|].
    cbn [fold_left].
    destruct (read_line_keeps st line Hall Hfit). by apply IH. }
  destruct (Hloop (Stdio.fgets_lines 512 text)
              {| channels := []; current := blank; in_channel := false |})
    as [Hall Hfit].
  - constructor.
  - unfold fields_fit. cbn. lia.
  - by apply save_well_formed.
Qed.

End ChannelList.

(* ===================================================================== *)
(** * The recorder's loop back through the server *)
(* ===================================================================== *)

Section LoopBack.
Import Transcode Web Scheduler.
Local Open Scope list_scope.



End LoopBack.

(* ===================================================================== *)
(** * The JSON text of a query *)
(* ===================================================================== *)

Section QueryToJson.
Import JsonRows.
Local Open Scope list_scope.

Lemma grow_enough fuel : forall capacity need,
  0 < capacity -> need - capacity <= Z.of_nat fuel ->
  exists c, grow fuel capacity need = Some c /\ need <= c /\ capacity <= c.
Proof.
  induction fuel as [|fuel IH]; intros capacity need Hcap Hfuel;
    cbn [grow]; destruct (need >? capacity)%Z eqn:Hgt;
    try (exists capacity; split_and!; [done|lia|lia]).
  - lia.
  - destruct (IH (capacity * 2) need) as (c & Hc & ? & ?); [lia..|].
    exists c. split_and!; [done|lia|lia].
Qed.

Lemma append_str_fits b str :
  0 < cap b ->
  exists b',
    append_str b str = Some b'
    /\ text b' = (text b ++ str)%string
    /\ len b' < cap b'
    /\ cap b <= cap b'.
Proof.
  intros Hcap. unfold append_str. cbv zeta.
  destruct (grow_enough
              (Z.to_nat (len b + Z.of_nat (String.length str) + 1))
              (cap b) (len b + Z.of_nat (String.length str) + 1))
    as (c & -> & Hneed & Hc); [done|unfold len; lia|].
  eexists. split_and!; [done|done|..]; cbn [cap text]; [|done].
  unfold len in *. cbn [text]. rewrite length_append. lia.
Qed.

Lemma append_all_fits pieces : forall b,
  0 < cap b -> len b < cap b ->
  exists b',
    append_all pieces b = Some b'
    /\ text b' = (text b ++ String.concat EmptyString pieces)%string
    /\ len b' < cap b'
    /\ cap b <= cap b'.
Proof.
  unfold append_all.
  induction pieces as [|p pieces IH]; intros b Hcap Hlen.
  { exists b. cbn [fold_left String.concat]. rewrite append_nil_r.
    split_and!; [done..|lia]. }
  cbn [fold_left].
  destruct (append_str_fits b p Hcap) as (b1 & -> & Ht1 & Hl1 & Hc1).
  destruct (IH b1) as (b' & Hrun & Ht & Hl & Hc); [lia|done|].
  exists b'. split_and!; [done| |done|lia].
  rewrite Ht, Ht1, append_assoc. f_equal.
  destruct pieces; [by rewrite append_nil_r|reflexivity].
Qed.

(** X23.  [query_to_json] never writes past its buffer.  Whatever the
    rows, the doubling loop of every [append_str] ends, the text built is
    the opening bracket followed by every piece in order, and at the end
    (as after every append) the capacity exceeds the length of the text,
    so that the terminator fits; the capacity starts at 4096 and never
    shrinks. *)
Theorem query_to_json_fits (rows : list Row) :
  exists b,
    query_to_json (Some rows) = Some b
    /\ text b = ("[" ++ String.concat EmptyString (objects true rows ++ ["]"]))%string
    /\ len b < cap b
    /\ 4096 <= cap b.
Proof.
  unfold query_to_json.
  destruct (append_all_fits (objects true rows ++ ["]"])
              {| cap := 4096; text := "[" |}) as (b & Hrun & Ht & Hl & Hc).
  - cbn. lia.
  - unfold len. cbn. lia.
  - exists b. by split_and!.
Qed.

End QueryToJson.
